(** * Sippy: bug mapping reconciler, materialized view refresher and
    job artifact scanner.

    A shallow embedding of
      - pkg/dataloader/bugloader/bugloader.go   (module [BugLoader]),
      - the materialized view worker of package sippyserver
        ([refreshMatview], module [MatViews]),
      - the artifact listing and scanning of package jobartifacts
        ([getJobRunFiles], [getFileContentMatches], module [JobArtifacts];
        [getJobRun], [queryJobArtifacts], module [JobRuns]),
      - the capabilities, the endpoint table and the request checks of
        package sippyserver (module [SippyServer]),
      - the options of the command line in main.go (module [Main]), of
        the automate-jira command (module [AutomateJira]) and the start
        of the component-readiness command (module [ComponentReadiness]),
    followed by the properties of these functions. *)

From Stdlib Require Import String Ascii List ZArith Lia Bool DecimalString.
From stdpp Require Import gmap strings list fin_maps.

Local Open Scope string_scope.

(** ** Go values shared by the three packages *)

(** A Go [error] value.  [ErrNil] is the nil error: [errors.Wrap] of the
    pkg/errors package returns nil when it is given nil.  [WithMessage]
    is only applied to errors that were tested to be non-nil. *)
Inductive error : Type :=
| ErrNil
| Err (msg : string)
| WithMessage (cause : error) (msg : string)
| Wrap (cause : error) (msg : string).

Definition errors_Wrap (e : error) (msg : string) : error :=
  match e with
  | ErrNil => ErrNil
  | _ => Wrap e msg
  end.

(** [err.Error()]: the message of an error. *)
Fixpoint Error_string (e : error) : string :=
  match e with
  | ErrNil => ""
  | Err m => m
  | WithMessage c m => m +:+ ": " +:+ Error_string c
  | Wrap c m => m +:+ ": " +:+ Error_string c
  end.

(** logrus levels and one log line: level, message, and the value the
    message was formatted with (a URL, a view name, ...). *)
Inductive level : Type := LDebug | LInfo | LWarn | LError.

Record log_entry : Type := Log { log_level : level; log_msg : string; log_arg : string }.

(** [strconv.FormatInt(n, 10)]. *)
Definition FormatInt (n : Z) : string := NilZero.string_of_int (Z.to_int n).

(** ** Package jobartifacts *)

Module JobArtifacts.

(** One call of [iter.Next()] on a storage object iterator that is not
    exhausted: the attributes of the next object, or an error. *)
Inductive next_result : Type :=
| Object (name : string)
| NextError (e : error).

(** [storage.Query] as [getJobRunFiles] fills it. *)
Record Query : Type := { Prefix : string; MatchGlob : string }.

(** [JobRunArtifact]: the fields [getFileContentMatches] assigns.
    [MatchedContent] is an [interface{}], nil when nothing was assigned. *)
Record JobRunArtifact (Payload : Type) : Type := {
  JobRunID : string;
  ArtifactURL : string;
  MatchedContent : option Payload;
  Error : string
}.
Arguments JobRunID {Payload}.
Arguments ArtifactURL {Payload}.
Arguments MatchedContent {Payload}.
Arguments Error {Payload}.

Section Scanner.

(** [maxJobFilesToScan] and [util.GcsBucketRoot] are constants declared
    outside the listed files; they are parameters here. *)
Variable maxJobFilesToScan : nat.
Variable GcsBucketRoot : string.

(** File contents and match payloads are opaque to the scanner. *)
Variable Content : Type.
Variable Payload : Type.

(** [ContentMatcher.GetMatches]: a possibly incomplete payload and an error. *)
Definition ContentMatcher : Type := Content -> option Payload * error.

(** The bucket handle: the object iterator of a query (the list is
    the sequence of [Next] results, its end is [iterator.Done]) and the
    reader of an object. *)
Record BucketHandle : Type := {
  Objects : Query -> list next_result;
  NewReader : string -> error + Content
}.

Record JobArtifactQuery : Type := {
  GcsBucket : BucketHandle;
  PathGlob : string;
  Matcher : option ContentMatcher
}.

(** The [for] loop of [getJobRunFiles], with [files] the slice built so far. *)
Fixpoint listLoop (iter : list next_result) (files : list string)
  : list string * bool * error :=
  match iter with
  | [] => (files, false, ErrNil)
  | NextError e :: _ => ([], false, e)
  | Object name :: rest =>
      if (maxJobFilesToScan <=? length files)%nat
      then (files, true, ErrNil)
      else listLoop rest (files ++ [name])
  end.

Definition jobRunQuery (q : JobArtifactQuery) (jobRunPath : string) : Query :=
  {| Prefix := jobRunPath;
     MatchGlob := if decide (PathGlob q = "") then "" else jobRunPath +:+ PathGlob q |}.

Definition getJobRunFiles (q : JobArtifactQuery) (jobRunPath : string)
  : list string * bool * error :=
  listLoop (Objects (GcsBucket q) (jobRunQuery q jobRunPath)) [].

(** [fmt.Sprintf(artifactURLFmt, util.GcsBucketRoot, filePath)]. *)
Definition artifactURL (filePath : string) : string :=
  "https://gcsweb-ci.apps.ci.l2s4.p1.openshiftapps.com/gcs/"
    +:+ GcsBucketRoot +:+ "/" +:+ filePath.

Definition getFileContentMatches (q : JobArtifactQuery) (jobRunID : Z) (filePath : string)
  : JobRunArtifact Payload :=
  let artifact :=
    {| JobRunID := FormatInt jobRunID;
       ArtifactURL := artifactURL filePath;
       MatchedContent := None;
       Error := "" |} in
  match Matcher q with
  | None => artifact
  | Some matcher =>
      match NewReader (GcsBucket q) filePath with
      | inl err =>
          {| JobRunID := JobRunID artifact;
             ArtifactURL := ArtifactURL artifact;
             MatchedContent := None;
             Error := Error_string err |}
      | inr gcsReader =>
          let '(matches, err) := matcher gcsReader in
          {| JobRunID := JobRunID artifact;
             ArtifactURL := ArtifactURL artifact;
             MatchedContent := matches;
             Error := match err with
                      | ErrNil => Error artifact
                      | _ => Error_string err
                      end |}
      end
  end.

End Scanner.

Arguments Objects {Content}.
Arguments NewReader {Content}.
Arguments GcsBucket {Content Payload}.
Arguments PathGlob {Content Payload}.
Arguments Matcher {Content Payload}.
Arguments jobRunQuery {Content Payload}.
Arguments getJobRunFiles maxJobFilesToScan {Content Payload}.
Arguments getFileContentMatches GcsBucketRoot {Content Payload}.

End JobArtifacts.

(** ** Package sippyserver: the materialized view worker *)

Module MatViews.

(** The database as the worker uses it: a row count by raw SQL and the
    execution of one SQL statement, each returning its [res.Error]. *)
Record DB : Type := {
  RawCount : string -> error + Z;
  Exec : string -> error
}.

(** What one worker does that can be observed from outside. *)
Inductive event : Type :=
| EvCount (sql : string)
| EvExec (sql : string)
| EvLog (l : level) (matView : string) (msg : string)
| EvObserve (matView : string).

Definition countSQL (matView : string) : string := "SELECT COUNT(*) FROM " +:+ matView.
Definition concurrentSQL (matView : string) : string :=
  "REFRESH MATERIALIZED VIEW CONCURRENTLY " +:+ matView.
Definition blockingSQL (matView : string) : string :=
  "REFRESH MATERIALIZED VIEW " +:+ matView.

(** The refresh proper: the part of the loop body after the
    only-if-empty check. *)
Definition refreshView (dbc : DB) (matView : string) : list event :=
  EvLog LInfo matView "refreshing materialized view"
  :: EvExec (concurrentSQL matView)
  :: match Exec dbc (concurrentSQL matView) with
     | ErrNil =>
         [ EvLog LInfo matView "refreshed materialized view concurrently";
           EvObserve matView ]
     | _ =>
         EvLog LWarn matView
           "error refreshing materialized view concurrently, falling back to regular refresh"
         :: EvExec (blockingSQL matView)
         :: match Exec dbc (blockingSQL matView) with
            | ErrNil =>
                [ EvLog LInfo matView "refreshed materialized view";
                  EvObserve matView ]
            | _ => [ EvLog LError matView "error refreshing materialized view" ]
            end
     end.

(** One iteration of [for matView := range ch]. *)
Definition refreshOne (dbc : DB) (refreshMatviewOnlyIfEmpty : bool) (matView : string)
  : list event :=
  if refreshMatviewOnlyIfEmpty then
    EvCount (countSQL matView)
    :: match RawCount dbc (countSQL matView) with
       | inl _ =>
           EvLog LWarn matView "proceeding with refresh of matview that appears to be empty"
           :: refreshView dbc matView
       | inr count =>
           if (0 <? count)%Z
           then [ EvLog LInfo matView "skipping matview refresh as it appears to be populated" ]
           else refreshView dbc matView
       end
  else refreshView dbc matView.

(** [refreshMatview]: the worker, given the view names it receives from
    the channel, in order. *)
Definition refreshMatview (dbc : DB) (refreshMatviewOnlyIfEmpty : bool) (ch : list string)
  : list event :=
  flat_map (refreshOne dbc refreshMatviewOnlyIfEmpty) ch.

(** The view is skipped as already populated. *)
Definition skipped (dbc : DB) (refreshMatviewOnlyIfEmpty : bool) (matView : string) : bool :=
  refreshMatviewOnlyIfEmpty &&
  match RawCount dbc (countSQL matView) with
  | inl _ => false
  | inr count => (0 <? count)%Z
  end.

Definition is_exec (e : event) : bool :=
  match e with EvExec _ => true | _ => false end.

Definition is_error_log (e : event) : bool :=
  match e with EvLog LError _ _ => true | _ => false end.

Definition is_observe (e : event) : bool :=
  match e with EvObserve _ => true | _ => false end.

Definition failed (e : error) : bool :=
  match e with ErrNil => false | _ => true end.

End MatViews.

(** ** Package bugloader *)

Module BugLoader.

(** *** Go library functions used by the loader *)

(** [result]: a Go [(value, error)] pair with exactly one side set. *)
Inductive result (A : Type) : Type :=
| Ok (a : A)
| Fail (e : error).
Arguments Ok {A} a.
Arguments Fail {A} e.

Definition byte_of (c : ascii) : nat := nat_of_ascii c.

Definition is_digit (c : ascii) : bool :=
  (48 <=? byte_of c)%nat && (byte_of c <=? 57)%nat.

Definition is_alpha (c : ascii) : bool :=
  (97 <=? byte_of c)%nat && (byte_of c <=? 122)%nat
  || (65 <=? byte_of c)%nat && (byte_of c <=? 90)%nat.

Definition ishex (c : ascii) : bool :=
  is_digit c
  || (97 <=? byte_of c)%nat && (byte_of c <=? 102)%nat
  || (65 <=? byte_of c)%nat && (byte_of c <=? 70)%nat.

Definition unhex (c : ascii) : nat :=
  if is_digit c then byte_of c - 48
  else if (97 <=? byte_of c)%nat then byte_of c - 97 + 10
  else byte_of c - 65 + 10.

Definition ascii_eqb (a b : ascii) : bool := Ascii.eqb a b.

(** The decimal digits of [strconv.Atoi], most significant first. *)
Fixpoint parse_digits (s : string) (acc : Z) : option Z :=
  match s with
  | EmptyString => Some acc
  | String c r =>
      if is_digit c
      then parse_digits r (acc * 10 + (Z.of_nat (byte_of c) - 48))%Z
      else None
  end.

(** [strconv.Quote] on one byte.  The quote and the backslash get a
    backslash, the printable ASCII bytes are kept, the control bytes get
    their escape; a byte from 0x80 on is kept, which is what the library
    does with the bytes of a printable rune. *)
Definition lowerhex (n : nat) : ascii :=
  nth n (list_ascii_of_string "0123456789abcdef") "0"%char.

Definition quoteByte (c : ascii) : string :=
  let n := byte_of c in
  if (n =? 34)%nat || (n =? 92)%nat then String "\"%char (String c EmptyString)
  else if (32 <=? n)%nat && (n <? 127)%nat || (128 <=? n)%nat then String c EmptyString
  else if (n =? 7)%nat then "\a"
  else if (n =? 8)%nat then "\b"
  else if (n =? 12)%nat then "\f"
  else if (n =? 10)%nat then "\n"
  else if (n =? 13)%nat then "\r"
  else if (n =? 9)%nat then "\t"
  else if (n =? 11)%nat then "\v"
  else String "\"%char (String "x"%char
         (String (lowerhex (n / 16)%nat) (String (lowerhex (n mod 16)%nat) EmptyString))).

Fixpoint quoteBytes (s : string) : string :=
  match s with
  | EmptyString => EmptyString
  | String c r => quoteByte c +:+ quoteBytes r
  end.

Definition Quote (s : string) : string :=
  String (ascii_of_nat 34) (quoteBytes s +:+ String (ascii_of_nat 34) EmptyString).

(** [NumError.Error()] of the two errors of [strconv.Atoi]. *)
Definition syntaxError (s : string) : error :=
  Err ("strconv.Atoi: parsing " +:+ Quote s +:+ ": invalid syntax").
Definition rangeError (s : string) : error :=
  Err ("strconv.Atoi: parsing " +:+ Quote s +:+ ": value out of range").

(** [strconv.Atoi] for a 64-bit [int]: an optional sign, then at least
    one decimal digit and nothing else; the value must fit in 64 bits. *)
Definition Atoi (s : string) : result Z :=
  match s with
  | EmptyString => Fail (syntaxError s)
  | String c r =>
      let neg := ascii_eqb c "-" in
      let body := if neg || ascii_eqb c "+" then r else s in
      match body with
      | EmptyString => Fail (syntaxError s)
      | _ =>
          match parse_digits body 0 with
          | None => Fail (syntaxError s)
          | Some n =>
              let v := if neg then (- n)%Z else n in
              if ((- 2 ^ 63 <=? v) && (v <=? 2 ^ 63 - 1))%Z
              then Ok v
              else Fail (rangeError s)
          end
      end
  end.

(** The conversion [uint(intID)] on a 64-bit platform. *)
Definition uint (n : Z) : Z := (n mod 2 ^ 64)%Z.

(** [strings.Cut(s, sep)] for a one-byte separator. *)
Fixpoint Cut (sep : ascii) (s : string) : string * string * bool :=
  match s with
  | EmptyString => (EmptyString, EmptyString, false)
  | String c r =>
      if ascii_eqb c sep then (EmptyString, r, true)
      else let '(before, after, found) := Cut sep r in
           if found then (String c before, after, true)
           else (s, EmptyString, false)
  end.

Fixpoint Contains (sep : ascii) (s : string) : bool :=
  match s with
  | EmptyString => false
  | String c r => ascii_eqb c sep || Contains sep r
  end.

Fixpoint Count (sep : ascii) (s : string) : nat :=
  match s with
  | EmptyString => 0
  | String c r => (if ascii_eqb c sep then 1 else 0) + Count sep r
  end.

Fixpoint HasSuffixByte (sep : ascii) (s : string) : bool :=
  match s with
  | EmptyString => false
  | String c EmptyString => ascii_eqb c sep
  | String _ r => HasSuffixByte sep r
  end.

Fixpoint dropLast (s : string) : string :=
  match s with
  | EmptyString => EmptyString
  | String _ EmptyString => EmptyString
  | String c r => String c (dropLast r)
  end.

Definition HasPrefix (p s : string) : bool := String.prefix p s.

(** The slice [s[n:]]. *)
Fixpoint dropBytes (n : nat) (s : string) : string :=
  match n, s with
  | S k, String _ r => dropBytes k r
  | _, _ => s
  end.

(** [strings.Split(s, "/")]: [cur] is the segment being read, reversed. *)
Fixpoint splitLoop (sep : ascii) (s : string) (cur : string) : list string :=
  match s with
  | EmptyString => [cur]
  | String c r =>
      if ascii_eqb c sep then cur :: splitLoop sep r EmptyString
      else splitLoop sep r (cur +:+ String c EmptyString)
  end.

Definition Split (s : string) (sep : ascii) : list string := splitLoop sep s EmptyString.

(** *** net/url: the part of [url.Parse] that decides its error and the
    [Path] of the URL it returns *)

(** [stringContainsCTLByte]. *)
Fixpoint stringContainsCTLByte (s : string) : bool :=
  match s with
  | EmptyString => false
  | String c r =>
      (byte_of c <? 32)%nat || (byte_of c =? 127)%nat || stringContainsCTLByte r
  end.

(** [getScheme]: [i] tells whether the byte read is the first one. *)
Fixpoint getSchemeLoop (s : string) (first : bool) (acc : string) (whole : string)
  : result (string * string) :=
  match s with
  | EmptyString => Ok (EmptyString, whole)
  | String c r =>
      if is_alpha c then getSchemeLoop r false (acc +:+ String c EmptyString) whole
      else if is_digit c || ascii_eqb c "+" || ascii_eqb c "-" || ascii_eqb c "."
      then (if first then Ok (EmptyString, whole)
            else getSchemeLoop r false (acc +:+ String c EmptyString) whole)
      else if ascii_eqb c ":"
      then (if first then Fail (Err "missing protocol scheme") else Ok (acc, r))
      else Ok (EmptyString, whole)
  end.

Definition getScheme (rawURL : string) : result (string * string) :=
  getSchemeLoop rawURL true EmptyString rawURL.

Inductive encoding : Type :=
| encodePath | encodeHost | encodeZone | encodeUserPassword | encodeFragment.

(** [shouldEscape(c, encodeHost)]. *)
Definition shouldEscapeHost (c : ascii) : bool :=
  negb (is_alpha c || is_digit c
        || existsb (ascii_eqb c)
             (list_ascii_of_string "-_.~!$&'()*+,;=:[]<>" ++ [ascii_of_nat 34])).

(** [EscapeError(s).Error()] and [InvalidHostError(s).Error()]. *)
Definition EscapeError (s : string) : error :=
  Err ("invalid URL escape " +:+ Quote s).

Definition InvalidHostError (s : string) : error :=
  Err ("invalid character " +:+ Quote s +:+ " in host name").

(** The slice [s[:n]], or the whole of [s] when it is shorter. *)
Fixpoint firstBytes (n : nat) (s : string) : string :=
  match n, s with
  | S k, String c r => String c (firstBytes k r)
  | _, _ => EmptyString
  end.

(** The checking pass of [unescape]: [ErrNil] when every escape is well
    formed, the error otherwise.  [skip] bytes are still part of an
    escape that was checked.  In a host only non-ASCII bytes and the
    percent sign may be escaped; in a zone an escape may only stand for
    the percent sign, a space or a byte that a host may hold.  The
    errors quote the escape, or what is left of the text when it is cut
    short, and the offending byte. *)
Fixpoint unescapeCheck (mode : encoding) (s : string) (skip : nat) : error :=
  match s with
  | EmptyString => ErrNil
  | String c r =>
      match skip with
      | S k => unescapeCheck mode r k
      | O =>
          if ascii_eqb c "%" then
            match r with
            | String h1 (String h2 _) =>
                if ishex h1 && ishex h2 then
                  let is25 := ascii_eqb h1 "2" && ascii_eqb h2 "5" in
                  let v := (unhex h1 * 16 + unhex h2)%nat in
                  if match mode with encodeHost => true | _ => false end
                     && (unhex h1 <? 8)%nat && negb is25
                  then EscapeError (firstBytes 3 s)
                  else if match mode with encodeZone => true | _ => false end
                          && negb is25 && negb (v =? 32)%nat
                          && shouldEscapeHost (ascii_of_nat v)
                  then EscapeError (firstBytes 3 s)
                  else unescapeCheck mode r 2
                else EscapeError (firstBytes 3 s)
            | _ => EscapeError (firstBytes 3 s)
            end
          else if match mode with encodeHost | encodeZone => true | _ => false end
                  && (byte_of c <? 128)%nat && shouldEscapeHost c
          then InvalidHostError (String c EmptyString)
          else unescapeCheck mode r 0
      end
  end.

(** The decoding pass of [unescape] (no [+] translation outside
    query components); [skip] as in the checking pass. *)
Fixpoint unescapeDecode (s : string) (skip : nat) : string :=
  match s with
  | EmptyString => EmptyString
  | String c r =>
      match skip with
      | S k => unescapeDecode r k
      | O =>
          if ascii_eqb c "%" then
            match r with
            | String h1 (String h2 _) =>
                String (ascii_of_nat (unhex h1 * 16 + unhex h2)) (unescapeDecode r 2)
            | _ => String c (unescapeDecode r 0)
            end
          else String c (unescapeDecode r 0)
      end
  end.

(** [unescape(s, mode)]. *)
Definition unescape (s : string) (mode : encoding) : result string :=
  match unescapeCheck mode s 0 with
  | ErrNil => if Contains "%" s then Ok (unescapeDecode s 0) else Ok s
  | e => Fail e
  end.

(** [strings.LastIndex(s, sep)] as a split: the text before the last
    [sep] and the text after it. *)
Fixpoint cutLast (sep : ascii) (s : string) : option (string * string) :=
  match s with
  | EmptyString => None
  | String c r =>
      match cutLast sep r with
      | Some (before, after) => Some (String c before, after)
      | None => if ascii_eqb c sep then Some (EmptyString, r) else None
      end
  end.

Fixpoint all_digits (s : string) : bool :=
  match s with
  | EmptyString => true
  | String c r => is_digit c && all_digits r
  end.

(** [validOptionalPort]. *)
Definition validOptionalPort (port : string) : bool :=
  match port with
  | EmptyString => true
  | String c r => ascii_eqb c ":" && all_digits r
  end.

Fixpoint validUserinfo (s : string) : bool :=
  match s with
  | EmptyString => true
  | String c r =>
      (is_alpha c || is_digit c
       || existsb (ascii_eqb c) (list_ascii_of_string "-._:~!$&'()*+,;=%@"))
      && validUserinfo r
  end.

(** [strings.Index(s, substr)] as a split: the text before the first
    instance of [substr] and the text from it on. *)
Fixpoint cutAt (substr s : string) : option (string * string) :=
  if HasPrefix substr s then Some (EmptyString, s)
  else
    match s with
    | EmptyString => None
    | String c r =>
        match cutAt substr r with
        | Some (before, from) => Some (String c before, from)
        | None => None
        end
    end.

(** [parseHost] of net/url as of Go 1.22, the toolchain of the build
    root image.  For a host in brackets (an IP literal), [inner] is
    [host[:i]] and [colonPort] is [host[i+1:]] for the last bracket at
    [i]; a zone identifier starts at the first [%25]. *)
Definition parseHost (host : string) : result string :=
  if HasPrefix "[" host then
    match cutLast "]" host with
    | None => Fail (Err "missing ']' in host")
    | Some (inner, colonPort) =>
        if negb (validOptionalPort colonPort)
        then Fail (Err ("invalid port " +:+ Quote colonPort +:+ " after host"))
        else
          match cutAt "%25" inner with
          | Some (beforeZone, zone) =>
              match unescape beforeZone encodeHost with
              | Fail e => Fail e
              | Ok host1 =>
                  match unescape zone encodeZone with
                  | Fail e => Fail e
                  | Ok host2 =>
                      match unescape (String "]" colonPort) encodeHost with
                      | Fail e => Fail e
                      | Ok host3 => Ok (host1 +:+ host2 +:+ host3)
                      end
                  end
              end
          | None => unescape host encodeHost
          end
    end
  else
    match cutLast ":" host with
    | Some (_, port) =>
        if all_digits port then unescape host encodeHost
        else Fail (Err ("invalid port " +:+ Quote (String ":" port) +:+ " after host"))
    | None => unescape host encodeHost
    end.

(** [parseAuthority]: the host, or the error of the host or of the
    user information. *)
Definition parseAuthority (authority : string) : result string :=
  match cutLast "@" authority with
  | None => parseHost authority
  | Some (userinfo, host) =>
      match parseHost host with
      | Fail e => Fail e
      | Ok h =>
          if negb (validUserinfo userinfo) then Fail (Err "net/url: invalid userinfo")
          else
            let '(username, password, _) := Cut ":" userinfo in
            match unescape username encodeUserPassword with
            | Fail e => Fail e
            | Ok _ =>
                match unescape password encodeUserPassword with
                | Fail e => Fail e
                | Ok _ => Ok h
                end
            end
      end
  end.

(** [url.URL]: the fields [parse] decides. *)
Record url_URL : Type := {
  Scheme : string;
  Opaque : string;
  Host : string;
  Path : string;
  RawQuery : string;
  Fragment : string
}.

(** [parse(rawURL, false)]; the scheme is kept as written. *)
Definition parse (rawURL : string) : result url_URL :=
  if stringContainsCTLByte rawURL
  then Fail (Err "net/url: invalid control character in URL")
  else if decide (rawURL = "*")
  then Ok {| Scheme := ""; Opaque := ""; Host := ""; Path := "*"; RawQuery := ""; Fragment := "" |}
  else
    match getScheme rawURL with
    | Fail e => Fail e
    | Ok (scheme, rest0) =>
        let '(rest1, rawQuery) :=
          if HasSuffixByte "?" rest0 && (Count "?" rest0 =? 1)%nat
          then (dropLast rest0, EmptyString)
          else let '(before, after, _) := Cut "?" rest0 in (before, after) in
        let continue (host rest : string) : result url_URL :=
          match unescape rest encodePath with
          | Fail e => Fail e
          | Ok path =>
              Ok {| Scheme := scheme; Opaque := ""; Host := host; Path := path;
                    RawQuery := rawQuery; Fragment := "" |}
          end in
        let withAuthority : result url_URL :=
          if (negb (String.eqb scheme "") || negb (HasPrefix "///" rest1))
             && HasPrefix "//" rest1
          then
            let '(authority, after, found) := Cut "/" (dropBytes 2 rest1) in
            match parseAuthority authority with
            | Fail e => Fail e
            | Ok host => continue host (if found then String "/" after else EmptyString)
            end
          else continue "" rest1 in
        if negb (HasPrefix "/" rest1) then
          if negb (String.eqb scheme "")
          then Ok {| Scheme := scheme; Opaque := rest1; Host := ""; Path := "";
                     RawQuery := rawQuery; Fragment := "" |}
          else if Contains ":" (fst (fst (Cut "/" rest1)))
          then Fail (Err "first path segment in URL cannot contain colon")
          else withAuthority
        else withAuthority
    end.

(** [(&url.Error{Op: "parse", URL: u, Err: err}).Error()]. *)
Definition url_Error (u : string) (err : error) : error :=
  Err ("parse " +:+ Quote u +:+ ": " +:+ Error_string err).

(** [url.Parse]. *)
Definition url_Parse (rawURL : string) : result url_URL :=
  let '(u, frag, _) := Cut "#" rawURL in
  match parse u with
  | Fail e => Fail (url_Error u e)
  | Ok url =>
      if decide (frag = "") then Ok url
      else
        match unescape frag encodeFragment with
        | Fail e => Fail (url_Error rawURL e)
        | Ok f =>
            Ok {| Scheme := Scheme url; Opaque := Opaque url; Host := Host url;
                  Path := Path url; RawQuery := RawQuery url; Fragment := f |}
        end
  end.

(** *** bugloader.go *)

(** The checks of [parseBugKeyFromURL] on the path of the parsed URL. *)
Definition bugKeyOfPath (path : string) : result string :=
  let pathSegments := Split path "/" in
  if (length pathSegments <? 3)%nat
     || negb (String.eqb (nth (length pathSegments - 2) pathSegments "") "browse")
  then Fail (Err "invalid Jira URL format")
  else Ok (nth (length pathSegments - 1) pathSegments "").

Definition parseBugKeyFromURL (jiraURL : string) : result string :=
  match url_Parse jiraURL with
  | Fail err => Fail err
  | Ok parsedURL => bugKeyOfPath (Path parsedURL)
  end.

(** [fmt.Sprintf("https://issues.redhat.com/browse/%s", key)]. *)
Definition bugURL (key : string) : string := "https://issues.redhat.com/browse/" +:+ key.

(** The bytes a key must avoid to come back unchanged from its URL: the
    path separator, the query and fragment marks, the escape mark, and
    the ASCII control characters. *)
Definition safeByte (c : ascii) : bool :=
  negb (ascii_eqb c "/") && negb (ascii_eqb c "?") && negb (ascii_eqb c "#")
  && negb (ascii_eqb c "%") && negb ((byte_of c <? 32)%nat || (byte_of c =? 127)%nat).

Fixpoint safeKey (key : string) : bool :=
  match key with
  | EmptyString => true
  | String c r => safeByte c && safeKey r
  end.


(** [bqgo.NullTimestamp]; a time is a number of seconds. *)
Record NullTimestamp : Type := { Timestamp : Z; Valid : bool }.

(** [bigQueryBug]: one row of the warehouse queries. *)
Record bigQueryBug : Type := {
  bq_ID : Z;
  bq_Key : string;
  bq_Status : string;
  bq_LastChangedTime : NullTimestamp;
  bq_Summary : string;
  bq_AffectsVersions : list string;
  bq_FixVersions : list string;
  bq_TargetVersions : list string;
  bq_Components : list string;
  bq_Labels : list string;
  bq_JiraID : string;
  bq_LinkName : string
}.

(** [bwt.ID = uint(intID)]. *)
Definition set_ID (bwt : bigQueryBug) (id : Z) : bigQueryBug :=
  {| bq_ID := id; bq_Key := bq_Key bwt; bq_Status := bq_Status bwt;
     bq_LastChangedTime := bq_LastChangedTime bwt; bq_Summary := bq_Summary bwt;
     bq_AffectsVersions := bq_AffectsVersions bwt; bq_FixVersions := bq_FixVersions bwt;
     bq_TargetVersions := bq_TargetVersions bwt; bq_Components := bq_Components bwt;
     bq_Labels := bq_Labels bwt; bq_JiraID := bq_JiraID bwt; bq_LinkName := bq_LinkName bwt |}.

(** One [it.Next(&row)] of a warehouse row iterator that is not
    exhausted, and a query: [q.Read] fails or gives the iterator, whose
    end is [iterator.Done]. *)
Definition RowIterator : Type := list (result bigQueryBug).
Definition QueryResult : Type := result RowIterator.

Section Loader.

(** [models.Test] and [models.ProwJob] are declared in package models;
    the loader only copies them. *)
Variable Test : Type.
Variable ProwJob : Type.

(** The store tells by their primary keys whether two tests, or two
    jobs, are the same one. *)
Context {Test_eq_dec : EqDecision Test} {ProwJob_eq_dec : EqDecision ProwJob}.

(** [models.Bug]: the columns [bigQueryBugToModel] fills, and the two
    associations. *)
Record Bug : Type := {
  ID : Z;
  Key : string;
  Status : string;
  LastChangeTime : Z;
  Summary : string;
  AffectsVersions : list string;
  FixVersions : list string;
  TargetVersions : list string;
  Components : list string;
  Labels : list string;
  URL : string;
  Tests : list Test;
  Jobs : list ProwJob
}.

Definition set_Tests (b : Bug) (ts : list Test) : Bug :=
  {| ID := ID b; Key := Key b; Status := Status b; LastChangeTime := LastChangeTime b;
     Summary := Summary b; AffectsVersions := AffectsVersions b; FixVersions := FixVersions b;
     TargetVersions := TargetVersions b; Components := Components b; Labels := Labels b;
     URL := URL b; Tests := ts; Jobs := Jobs b |}.

Definition set_Jobs (b : Bug) (js : list ProwJob) : Bug :=
  {| ID := ID b; Key := Key b; Status := Status b; LastChangeTime := LastChangeTime b;
     Summary := Summary b; AffectsVersions := AffectsVersions b; FixVersions := FixVersions b;
     TargetVersions := TargetVersions b; Components := Components b; Labels := Labels b;
     URL := URL b; Tests := Tests b; Jobs := js |}.

(** [models.Triage]: the fields [Load] reads and writes. *)
Record Triage : Type := {
  t_ID : Z;
  t_URL : string;
  t_Description : string;
  t_BugID : option Z;
  t_Bug : option Bug
}.

(** [bigQueryBugToModel]; [now] is what [time.Now()] returns when it is
    called. *)
Definition bigQueryBugToModel (now : Z) (bqBug : bigQueryBug) : Bug :=
  let lastChange :=
    if Valid (bq_LastChangedTime bqBug) then Timestamp (bq_LastChangedTime bqBug) else now in
  {| ID := bq_ID bqBug;
     Key := bq_Key bqBug;
     Status := bq_Status bqBug;
     LastChangeTime := lastChange;
     Summary := bq_Summary bqBug;
     AffectsVersions := bq_AffectsVersions bqBug;
     FixVersions := bq_FixVersions bqBug;
     TargetVersions := bq_TargetVersions bqBug;
     Components := bq_Components bqBug;
     Labels := bq_Labels bqBug;
     URL := bugURL (bq_Key bqBug);
     Tests := [];
     Jobs := [] |}.

(** The loader while it runs: [bl.errors], and the number of calls of
    [time.Now()] made so far, which indexes the clock. *)
Record BugLoader : Type := { errors : list error; ticks : nat }.

Definition add_error (bl : BugLoader) (e : error) : BugLoader :=
  {| errors := errors bl ++ [e]; ticks := ticks bl |}.

Definition tick (bl : BugLoader) : BugLoader :=
  {| errors := errors bl; ticks := S (ticks bl) |}.

Definition convertError (e : error) (jiraID : string) : error :=
  WithMessage e ("failed to convert jira id " +:+ jiraID).

(** The working set of a mapping loop with the loader. *)
Definition LoopState : Type := gmap Z Bug * BugLoader.

(** [bugs[id] = bigQueryBugToModel(row)] when [id] is new. *)
Definition ensureBug (clock : nat -> Z) (row : bigQueryBug) (st : LoopState) : LoopState :=
  match st.1 !! bq_ID row with
  | Some _ => st
  | None => (<[bq_ID row := bigQueryBugToModel (clock (ticks st.2)) row]> st.1, tick st.2)
  end.

(** The body of the [for] loop of [getTestBugMappings] after a row was read. *)
Definition testRow (clock : nat -> Z) (testCache : gmap string Test)
    (bwt : bigQueryBug) (st : LoopState) : LoopState :=
  if String.eqb (bq_JiraID bwt) "" || String.eqb (bq_LinkName bwt) "" then st
  else
    match Atoi (bq_JiraID bwt) with
    | Fail err => (st.1, add_error st.2 (convertError err (bq_JiraID bwt)))
    | Ok intID =>
        let bwt := set_ID bwt (uint intID) in
        match testCache !! bq_LinkName bwt with
        | None => st
        | Some test =>
            let st' := ensureBug clock bwt st in
            (alter (fun b => set_Tests b (Tests b ++ [test])) (bq_ID bwt) st'.1, st'.2)
        end
    end.

(** The body of the [for] loop of [getJobBugMappings]. *)
Definition jobRow (clock : nat -> Z) (jobCache : gmap string ProwJob)
    (bwj : bigQueryBug) (st : LoopState) : LoopState :=
  if String.eqb (bq_JiraID bwj) "" || String.eqb (bq_LinkName bwj) "" then st
  else
    match Atoi (bq_JiraID bwj) with
    | Fail err => (st.1, add_error st.2 (convertError err (bq_JiraID bwj)))
    | Ok intID =>
        let bwj := set_ID bwj (uint intID) in
        match jobCache !! bq_LinkName bwj with
        | None => st
        | Some job =>
            let st' := ensureBug clock bwj st in
            (alter (fun b => set_Jobs b (Jobs b ++ [job])) (bq_ID bwj) st'.1, st'.2)
        end
    end.

(** The body of the [for] loop of [getTriageBugMappings]. *)
Definition triageRow (clock : nat -> Z) (bwt : bigQueryBug) (st : LoopState) : LoopState :=
  if String.eqb (bq_JiraID bwt) "" then st
  else
    match Atoi (bq_JiraID bwt) with
    | Fail err => (st.1, add_error st.2 (convertError err (bq_JiraID bwt)))
    | Ok intID => ensureBug clock (set_ID bwt (uint intID)) st
    end.

(** The [for] loop over a row iterator: the rows are handled in order
    up to the end or to the first error of [it.Next]. *)
Fixpoint iterate (body : bigQueryBug -> LoopState -> LoopState)
    (it : RowIterator) (st : LoopState) : result (gmap Z Bug) * BugLoader :=
  match it with
  | [] => (Ok st.1, st.2)
  | Fail err :: _ => (Fail (WithMessage err "failed to iterate over bug results"), st.2)
  | Ok row :: rest => iterate body rest (body row st)
  end.

Definition runQuery (body : bigQueryBug -> LoopState -> LoopState)
    (q : QueryResult) (bl : BugLoader) : result (gmap Z Bug) * BugLoader :=
  match q with
  | Fail err => (Fail (WithMessage err "failed to execute query"), bl)
  | Ok it => iterate body it (∅, bl)
  end.

Definition getTestBugMappings (clock : nat -> Z) (q : QueryResult)
    (testCache : gmap string Test) (bl : BugLoader) : result (gmap Z Bug) * BugLoader :=
  runQuery (testRow clock testCache) q bl.

Definition getJobBugMappings (clock : nat -> Z) (q : QueryResult)
    (jobCache : gmap string ProwJob) (bl : BugLoader) : result (gmap Z Bug) * BugLoader :=
  runQuery (jobRow clock jobCache) q bl.

(** The first loop of [getTriageBugMappings]: the keys of the triages,
    or the first parse error. *)
Fixpoint triageKeys (triages : list Triage) : result (list string) :=
  match triages with
  | [] => Ok []
  | triage :: rest =>
      match parseBugKeyFromURL (t_URL triage) with
      | Fail err => Fail err
      | Ok key =>
          match triageKeys rest with
          | Fail err => Fail err
          | Ok keys => Ok (key :: keys)
          end
      end
  end.

(** [q] is the warehouse answering the query for a list of keys. *)
Definition getTriageBugMappings (clock : nat -> Z) (q : list string -> QueryResult)
    (triages : list Triage) (bl : BugLoader) : result (gmap Z Bug) * BugLoader :=
  match triageKeys triages with
  | Fail err => (Fail err, bl)
  | Ok jiraKeys => runQuery (triageRow clock) (q jiraKeys) bl
  end.

(** *** The relational store *)

(** The bugs table is a map from primary key to row, with the two
    association tables folded into the [Tests] and [Jobs] of each row;
    the triages table is a map from primary key to triage. *)

(** The [res.Error] of each statement [Load] sends to the store;
    [ErrNil] when the statement succeeds. *)
Record Faults : Type := {
  createFails : Z -> error;
  replaceTestsFails : Z -> error;
  replaceJobsFails : Z -> error;
  deleteFails : error;
  firstFails : string -> error;
  saveFails : Z -> error
}.

(** [Clauses(clause.OnConflict{UpdateAll: true}).Create(bug)]: every
    column is written, and gorm saves the associations of the value it
    creates: the join rows of [bug.Tests] and [bug.Jobs] are inserted
    where they are missing, next to the join rows the bug has. *)
Definition upsert (bug : Bug) (tbl : gmap Z Bug) : gmap Z Bug :=
  let old := tbl !! ID bug in
  <[ID bug := set_Jobs (set_Tests bug (list_union (from_option Tests [] old) (Tests bug)))
                (list_union (from_option Jobs [] old) (Jobs bug))]> tbl.

(** [Model(bug).Association("Tests").Replace(bug.Tests)] and the same for jobs. *)
Definition replaceTests (bug : Bug) (tbl : gmap Z Bug) : gmap Z Bug :=
  alter (fun row => set_Tests row (Tests bug)) (ID bug) tbl.

Definition replaceJobs (bug : Bug) (tbl : gmap Z Bug) : gmap Z Bug :=
  alter (fun row => set_Jobs row (Jobs bug)) (ID bug) tbl.

(** [Where("id not in ?", expectedBugIDs).Unscoped().Delete(&models.Bug{})].
    gorm renders an empty slice as [(NULL)], and no row satisfies
    [id not in (NULL)]: with no expected ID the statement deletes
    nothing. *)
Definition deleteNotIn (expectedBugIDs : list Z) (tbl : gmap Z Bug) : gmap Z Bug :=
  match expectedBugIDs with
  | [] => tbl
  | _ => filter (fun kv => kv.1 ∈ expectedBugIDs) tbl
  end.

(** The row with the least primary key among [l]. *)
Fixpoint leastKey (l : list (Z * Bug)) : option (Z * Bug) :=
  match l with
  | [] => None
  | kv :: rest =>
      match leastKey rest with
      | Some kv' => if (kv'.1 <? kv.1)%Z then Some kv' else Some kv
      | None => Some kv
      end
  end.

(** [Where("url = ?", url).First(&bug)]: the matching row with the
    least primary key, or the error of the statement. *)
Definition First (faults : Faults) (tbl : gmap Z Bug) (url : string) : result Bug :=
  match firstFails faults url with
  | ErrNil =>
      match leastKey (filter (fun kv => URL kv.2 = url) (map_to_list tbl)) with
      | Some kv => Ok kv.2
      | None => Fail (Err "record not found")
      end
  | err => Fail err
  end.

(** *** Load *)

(** A run in progress: the two tables of the store, the loader and the
    log written so far. *)
Record Run : Type := {
  r_bugs : gmap Z Bug;
  r_triages : gmap Z Triage;
  r_bl : BugLoader;
  r_log : list log_entry
}.

Definition run_log (r : Run) (e : log_entry) : Run :=
  {| r_bugs := r_bugs r; r_triages := r_triages r; r_bl := r_bl r; r_log := r_log r ++ [e] |}.

Definition run_error (r : Run) (e : error) : Run :=
  {| r_bugs := r_bugs r; r_triages := r_triages r; r_bl := add_error (r_bl r) e; r_log := r_log r |}.

Definition run_set_bugs (r : Run) (tbl : gmap Z Bug) : Run :=
  {| r_bugs := tbl; r_triages := r_triages r; r_bl := r_bl r; r_log := r_log r |}.

Definition run_set_triages (r : Run) (tbl : gmap Z Triage) : Run :=
  {| r_bugs := r_bugs r; r_triages := tbl; r_bl := r_bl r; r_log := r_log r |}.

(** [for ... range m] over a Go map visits every entry once, in an
    order the language leaves open; the order of [map_to_list] stands
    for it (the merged set and the bugs table do not depend on it, see
    [foldl_mergeJob_perm], [foldl_mergeTriage_perm], [foldl_persistBug_perm]). *)
Definition rangeOver {A : Type} (m : gmap Z A) : list A := (map_to_list m).*2.

(** The maps the mapping loops build hold every bug under its own [ID]. *)
Definition keyedByID (m : gmap Z Bug) : Prop :=
  ∀ k b, m !! k = Some b → ID b = k.

(** The two merge loops of [Load]. *)
Definition mergeJob (allBugs : gmap Z Bug) (b : Bug) : gmap Z Bug :=
  match allBugs !! ID b with
  | Some a => <[ID b := set_Jobs a (Jobs b)]> allBugs
  | None => <[ID b := b]> allBugs
  end.

Definition mergeTriage (allBugs : gmap Z Bug) (b : Bug) : gmap Z Bug :=
  match allBugs !! ID b with
  | Some _ => allBugs
  | None => <[ID b := b]> allBugs
  end.

Definition mergeBugs (testBugs jobBugs triageBugs : gmap Z Bug) : gmap Z Bug :=
  let allBugs := testBugs in
  let allBugs := foldl mergeJob allBugs (rangeOver jobBugs) in
  foldl mergeTriage allBugs (rangeOver triageBugs).

(** The body of the loop that creates or updates the bugs. *)
Definition persistBug (faults : Faults) (r : Run) (bug : Bug) : Run :=
  match createFails faults (ID bug) with
  | ErrNil =>
      let r := run_set_bugs r (upsert bug (r_bugs r)) in
      match replaceTestsFails faults (ID bug) with
      | ErrNil =>
          let r := run_set_bugs r (replaceTests bug (r_bugs r)) in
          match replaceJobsFails faults (ID bug) with
          | ErrNil => run_set_bugs r (replaceJobs bug (r_bugs r))
          | _ =>
              run_error
                (run_log r (Log LError "error updating bug job associations" (Key bug)))
                (errors_Wrap ErrNil "error updating bug job assocations")
          end
      | _ =>
          run_error
            (run_log r (Log LError "error updating bug test associations" (Key bug)))
            (errors_Wrap ErrNil "error updating bug test assocations")
      end
  | err =>
      run_error (run_log r (Log LError "error creating bug" (Key bug)))
                (errors_Wrap err "error creating bug")
  end.

(** The removal of the bugs that were not seen. *)
Definition deleteStale (faults : Faults) (expectedBugIDs : list Z) (r : Run) : Run :=
  match deleteFails faults with
  | ErrNil =>
      let tbl := deleteNotIn expectedBugIDs (r_bugs r) in
      run_log (run_set_bugs r tbl)
        (Log LInfo "deleted stale bugs" (FormatInt (Z.of_nat (size (r_bugs r) - size tbl))))
  | err =>
      run_log (run_error r (errors_Wrap err "error deleting stale bugs"))
        (Log LInfo "deleted stale bugs" (FormatInt 0))
  end.

Definition set_link (t : Triage) (bug : Bug) : Triage :=
  {| t_ID := t_ID t; t_URL := t_URL t; t_Description := t_Description t;
     t_BugID := Some (ID bug); t_Bug := Some bug |}.

(** The body of the triage loop from the lookup on. *)
Definition relink (faults : Faults) (t : Triage) (r : Run) : Run :=
  match First faults (r_bugs r) (t_URL t) with
  | Fail _ =>
      run_log r (Log LWarn "error looking up bug which should exist by this point" (t_URL t))
  | Ok bug =>
      let r := run_log r (Log LInfo "linking triage to bug" (t_URL t)) in
      match saveFails faults (t_ID t) with
      | ErrNil => run_set_triages r (<[t_ID t := set_link t bug]> (r_triages r))
      | err =>
          run_error (run_log r (Log LError "error linking bug" (t_URL t)))
                    (errors_Wrap err "error linking bug")
      end
  end.

(** The triage is linked and the URLs agree: [t.BugID != nil && t.URL
    == t.Bug.URL].  [None] is the nil dereference of [t.Bug]. *)
Definition linkedProperly (t : Triage) : option bool :=
  match t_BugID t with
  | None => Some false
  | Some _ =>
      match t_Bug t with
      | None => None
      | Some bug => Some (String.eqb (t_URL t) (URL bug))
      end
  end.

(** The body of the triage loop; [None] when it panics. *)
Definition relinkTriage (faults : Faults) (r : option Run) (t : Triage) : option Run :=
  match r with
  | None => None
  | Some r =>
      match linkedProperly t with
      | None => None
      | Some true => Some r
      | Some false => Some (relink faults t r)
      end
  end.

(** The first merge loop alone: the test mappings with the job mappings. *)
Definition mergeJobs (testBugs jobBugs : gmap Z Bug) : gmap Z Bug :=
  foldl mergeJob testBugs (rangeOver jobBugs).

(** [Load] from the merge on.  Every iteration of the persist loop
    appends the ID of its bug to [expectedBugIDs] before it does anything
    else, so the slice holds the IDs of all the expected bugs. *)
Definition reconcile (faults : Faults) (testBugs jobBugs triageBugs : gmap Z Bug)
    (triages : list Triage) (r : Run) : option Run :=
  let allBugs := mergeBugs testBugs jobBugs triageBugs in
  let r := run_log r (Log LInfo "Loaded all job bugs" (FormatInt (Z.of_nat (size allBugs)))) in
  let dbExpectedBugs := rangeOver allBugs in
  let expectedBugIDs := ID <$> dbExpectedBugs in
  let r := foldl (persistBug faults) r dbExpectedBugs in
  let r := run_log r (Log LInfo "created or updated bugs"
                        (FormatInt (Z.of_nat (length expectedBugIDs)))) in
  let r := deleteStale faults expectedBugIDs r in
  let r := run_log r (Log LInfo "ensuring triages have correct refs to their bugs" "") in
  foldl (relinkTriage faults) (Some r) triages.

(** What [Load] reads from outside the store tables it writes. *)
Record Env : Type := {
  LoadTestCache : result (gmap string Test);
  testQuery : QueryResult;
  LoadProwJobCache : result (gmap string ProwJob);
  jobQuery : QueryResult;
  ListTriages : result (list Triage);
  triageQuery : list string -> QueryResult;
  clock : nat -> Z;
  faults : Faults
}.

(** How [Load] ends: it runs to its end, it returns early after an
    error of a cache or of the triage list, or it panics. *)
Inductive outcome : Type :=
| Completed (r : Run)
| Returned (r : Run)
| Panicked (e : error).

Definition nilDereference : error :=
  Err "runtime error: invalid memory address or nil pointer dereference".

(** How the first part of [Load] ends: with the three mapping sets and
    the triages, with an early return, or with a panic. *)
Inductive fetched : Type :=
| Fetched (testBugs jobBugs triageBugs : gmap Z Bug) (triages : list Triage) (r : Run)
| FetchReturned (r : Run)
| FetchPanicked (e : error).

Definition run_set_bl (r : Run) (bl : BugLoader) : Run :=
  {| r_bugs := r_bugs r; r_triages := r_triages r; r_bl := bl; r_log := r_log r |}.

(** [Load] up to the merge: the caches, the three queries, the triages. *)
Definition fetch (env : Env) (r : Run) : fetched :=
  match LoadTestCache env with
  | Fail err => FetchReturned (run_error r err)
  | Ok testCache =>
  match getTestBugMappings (clock env) (testQuery env) testCache (r_bl r) with
  | (Fail err, _) => FetchPanicked err
  | (Ok testBugs, bl) =>
  let r := run_log (run_set_bl r bl)
             (Log LInfo "Loaded test bugs" (FormatInt (Z.of_nat (size testBugs)))) in
  match LoadProwJobCache env with
  | Fail err => FetchReturned (run_error r err)
  | Ok jobCache =>
  match getJobBugMappings (clock env) (jobQuery env) jobCache (r_bl r) with
  | (Fail err, _) => FetchPanicked err
  | (Ok jobBugs, bl) =>
  let r := run_log (run_set_bl r bl)
             (Log LInfo "Loaded job bugs" (FormatInt (Z.of_nat (size jobBugs)))) in
  match ListTriages env with
  | Fail err => FetchReturned (run_error r err)
  | Ok triages =>
  match getTriageBugMappings (clock env) (triageQuery env) triages (r_bl r) with
  | (Fail err, _) => FetchPanicked err
  | (Ok triageBugs, bl) =>
  let r := run_log (run_set_bl r bl)
             (Log LInfo "Loaded triage bugs" (FormatInt (Z.of_nat (size triageBugs)))) in
  Fetched testBugs jobBugs triageBugs triages r
  end end end end end end.

Definition Load (env : Env) (r : Run) : outcome :=
  match fetch env r with
  | FetchReturned r => Returned r
  | FetchPanicked err => Panicked err
  | Fetched testBugs jobBugs triageBugs triages r =>
      match reconcile (faults env) testBugs jobBugs triageBugs triages r with
      | Some r => Completed r
      | None => Panicked nilDereference
      end
  end.

(** *** Functions of the store used to state the properties *)

(** What the loop body of the persist loop leaves in the row of [bug],
    given the row before. *)
Definition persistRow (faults : Faults) (bug : Bug) (old : option Bug) : option Bug :=
  match createFails faults (ID bug) with
  | ErrNil =>
      let row :=
        set_Jobs (set_Tests bug (list_union (from_option Tests [] old) (Tests bug)))
          (list_union (from_option Jobs [] old) (Jobs bug)) in
      match replaceTestsFails faults (ID bug) with
      | ErrNil =>
          let row := set_Tests row (Tests bug) in
          match replaceJobsFails faults (ID bug) with
          | ErrNil => Some (set_Jobs row (Jobs bug))
          | _ => Some row
          end
      | _ => Some row
      end
  | _ => old
  end.

(** What a run leaves under the primary key [k], given the row before
    and the merged set [allBugs]: a row outside the set is deleted when
    the delete statement succeeds and the set is not empty. *)
Definition syncRow (faults : Faults) (allBugs : gmap Z Bug) (k : Z) (old : option Bug)
  : option Bug :=
  match allBugs !! k with
  | Some bug => persistRow faults bug old
  | None =>
      match deleteFails faults with
      | ErrNil => if decide (rangeOver allBugs = []) then old else None
      | _ => old
      end
  end.

(** Every row of a query has a valid last-changed timestamp. *)
Definition rowValid (x : result bigQueryBug) : bool :=
  match x with
  | Ok row => Valid (bq_LastChangedTime row)
  | Fail _ => true
  end.

Definition rowsValid (q : QueryResult) : bool :=
  match q with
  | Ok it => forallb rowValid it
  | Fail _ => true
  end.

(** Two environments with the same external sources and caches: they
    may differ in the clock and in the links of the triages, not in
    their URLs. *)
Definition sameSources (env env' : Env) : Prop :=
  LoadTestCache env' = LoadTestCache env
  ∧ testQuery env' = testQuery env
  ∧ LoadProwJobCache env' = LoadProwJobCache env
  ∧ jobQuery env' = jobQuery env
  ∧ (∀ keys, triageQuery env' keys = triageQuery env keys)
  ∧ faults env' = faults env
  ∧ match ListTriages env, ListTriages env' with
    | Ok triages, Ok triages' => t_URL <$> triages' = t_URL <$> triages
    | Fail e, Fail e' => e = e'
    | _, _ => False
    end.

Definition timestampsValid (env : Env) : Prop :=
  rowsValid (testQuery env) = true ∧ rowsValid (jobQuery env) = true
  ∧ ∀ keys, rowsValid (triageQuery env keys) = true.

(** The triage that is stored under the ID of [t] is linked to a stored
    bug whose URL is not the URL of the triage. *)
Definition staleLink (r : Run) (t : Triage) : Prop :=
  ∃ t' id bug,
    r_triages r !! t_ID t = Some t' ∧ t_BugID t' = Some id
    ∧ r_bugs r !! id = Some bug ∧ URL bug ≠ t_URL t'.

Definition warned (r : Run) (url : string) : Prop :=
  Log LWarn "error looking up bug which should exist by this point" url ∈ r_log r.

(** What the triage loop has done for the triage [t] when the run ends
    in [r']: [tbl] is the bugs table during the loop and [before] the
    stored triage before it. *)
Definition relinked (faults : Faults) (tbl : gmap Z Bug) (before : option Triage)
    (r' : Run) (t : Triage) : Prop :=
  match First faults tbl (t_URL t) with
  | Ok bug =>
      match saveFails faults (t_ID t) with
      | ErrNil => r_triages r' !! t_ID t = Some (set_link t bug)
      | err =>
          r_triages r' !! t_ID t = before
          ∧ Wrap err "error linking bug" ∈ errors (r_bl r')
      end
  | Fail _ => warned r' (t_URL t) ∧ r_triages r' !! t_ID t = before
  end.

End Loader.

Arguments ID {Test ProwJob}.
Arguments Key {Test ProwJob}.
Arguments Status {Test ProwJob}.
Arguments LastChangeTime {Test ProwJob}.
Arguments Summary {Test ProwJob}.
Arguments AffectsVersions {Test ProwJob}.
Arguments FixVersions {Test ProwJob}.
Arguments TargetVersions {Test ProwJob}.
Arguments Components {Test ProwJob}.
Arguments Labels {Test ProwJob}.
Arguments URL {Test ProwJob}.
Arguments Tests {Test ProwJob}.
Arguments Jobs {Test ProwJob}.
Arguments set_Tests {Test ProwJob}.
Arguments set_Jobs {Test ProwJob}.
Arguments t_ID {Test ProwJob}.
Arguments t_URL {Test ProwJob}.
Arguments t_Description {Test ProwJob}.
Arguments t_BugID {Test ProwJob}.
Arguments t_Bug {Test ProwJob}.
Arguments bigQueryBugToModel {Test ProwJob}.
Arguments ensureBug {Test ProwJob}.
Arguments testRow {Test ProwJob}.
Arguments jobRow {Test ProwJob}.
Arguments triageRow {Test ProwJob}.
Arguments iterate {Test ProwJob}.
Arguments runQuery {Test ProwJob}.
Arguments getTestBugMappings {Test ProwJob}.
Arguments getJobBugMappings {Test ProwJob}.
Arguments triageKeys {Test ProwJob}.
Arguments getTriageBugMappings {Test ProwJob}.
Arguments upsert {Test ProwJob Test_eq_dec ProwJob_eq_dec}.
Arguments replaceTests {Test ProwJob}.
Arguments replaceJobs {Test ProwJob}.
Arguments deleteNotIn {Test ProwJob}.
Arguments leastKey {Test ProwJob}.
Arguments First {Test ProwJob}.
Arguments r_bugs {Test ProwJob}.
Arguments r_triages {Test ProwJob}.
Arguments r_bl {Test ProwJob}.
Arguments r_log {Test ProwJob}.
Arguments run_log {Test ProwJob}.
Arguments run_error {Test ProwJob}.
Arguments run_set_bugs {Test ProwJob}.
Arguments run_set_triages {Test ProwJob}.
Arguments mergeJob {Test ProwJob}.
Arguments mergeTriage {Test ProwJob}.
Arguments mergeBugs {Test ProwJob}.
Arguments mergeJobs {Test ProwJob}.
Arguments keyedByID {Test ProwJob}.
Arguments persistBug {Test ProwJob Test_eq_dec ProwJob_eq_dec}.
Arguments deleteStale {Test ProwJob}.
Arguments set_link {Test ProwJob}.
Arguments relink {Test ProwJob}.
Arguments linkedProperly {Test ProwJob}.
Arguments relinkTriage {Test ProwJob}.
Arguments reconcile {Test ProwJob Test_eq_dec ProwJob_eq_dec}.
Arguments LoadTestCache {Test ProwJob}.
Arguments testQuery {Test ProwJob}.
Arguments LoadProwJobCache {Test ProwJob}.
Arguments jobQuery {Test ProwJob}.
Arguments ListTriages {Test ProwJob}.
Arguments triageQuery {Test ProwJob}.
Arguments clock {Test ProwJob}.
Arguments faults {Test ProwJob}.
Arguments Completed {Test ProwJob}.
Arguments Returned {Test ProwJob}.
Arguments Panicked {Test ProwJob}.
Arguments Load {Test ProwJob Test_eq_dec ProwJob_eq_dec}.
Arguments Fetched {Test ProwJob}.
Arguments FetchReturned {Test ProwJob}.
Arguments FetchPanicked {Test ProwJob}.
Arguments run_set_bl {Test ProwJob}.
Arguments fetch {Test ProwJob}.
Arguments persistRow {Test ProwJob Test_eq_dec ProwJob_eq_dec}.
Arguments syncRow {Test ProwJob Test_eq_dec ProwJob_eq_dec}.
Arguments sameSources {Test ProwJob}.
Arguments timestampsValid {Test ProwJob}.
Arguments staleLink {Test ProwJob}.
Arguments warned {Test ProwJob}.
Arguments relinked {Test ProwJob}.

End BugLoader.

(** ** Sample data *)

Module Samples.

Import BugLoader.

(** A warehouse row with the given Jira ID, link name, key and
    validity of the last-changed timestamp. *)
Definition sampleRow (jiraID linkName key : string) (valid : bool) : bigQueryBug :=
  {| bq_ID := 0; bq_Key := key; bq_Status := "New";
     bq_LastChangedTime := {| Timestamp := 1700000000; Valid := valid |};
     bq_Summary := "test fails"; bq_AffectsVersions := []; bq_FixVersions := [];
     bq_TargetVersions := []; bq_Components := []; bq_Labels := [];
     bq_JiraID := jiraID; bq_LinkName := linkName |}.

Definition noFaults : Faults :=
  {| createFails := fun _ => ErrNil; replaceTestsFails := fun _ => ErrNil;
     replaceJobsFails := fun _ => ErrNil; deleteFails := ErrNil;
     firstFails := fun _ => ErrNil; saveFails := fun _ => ErrNil |}.

Definition sampleTestCache : gmap string string := {[ "unit-test-foo" := "unit-test-foo" ]}.
Definition sampleJobCache : gmap string string := {[ "periodic-job-x" := "periodic-job-x" ]}.

Definition freshLoader : BugLoader := {| errors := []; ticks := 0 |}.

Definition emptyState : LoopState string string := (∅, freshLoader).

(** The ticket of the scenario of the specification: ticket 12345,
    found through the test [unit-test-foo] and the job [periodic-job-x]. *)
Definition testRow12345 (valid : bool) : bigQueryBug :=
  sampleRow "12345" "unit-test-foo" "OCPBUGS-12345" valid.
Definition jobRow12345 : bigQueryBug :=
  sampleRow "12345" "periodic-job-x" "OCPBUGS-12345" true.

Definition sampleClock (n : nat) : Z := (1700000100 + Z.of_nat n)%Z.

(** An environment with one test row and one job row; [valid] is the
    validity of the timestamp of the test row. *)
Definition sampleEnv (valid : bool) (faults : Faults) (triages : list (Triage string string))
  : Env string string :=
  {| LoadTestCache := Ok sampleTestCache;
     testQuery := Ok [Ok (testRow12345 valid)];
     LoadProwJobCache := Ok sampleJobCache;
     jobQuery := Ok [Ok jobRow12345];
     ListTriages := Ok triages;
     triageQuery := fun _ => Ok [];
     clock := sampleClock;
     faults := faults |}.

Definition sampleBug (id : Z) (key : string) : Bug string string :=
  bigQueryBugToModel 1690000000 (set_ID (sampleRow "" "" key true) id).

Definition emptyRun : Run string string :=
  {| r_bugs := ∅; r_triages := ∅; r_bl := freshLoader; r_log := [] |}.

(** A store with a row that no source mentions any more. *)
Definition staleRun : Run string string :=
  {| r_bugs := {[ 999%Z := sampleBug 999 "OCPBUGS-999" ]};
     r_triages := ∅; r_bl := freshLoader; r_log := [] |}.

Definition failingDelete : Faults :=
  {| createFails := fun _ => ErrNil; replaceTestsFails := fun _ => ErrNil;
     replaceJobsFails := fun _ => ErrNil; deleteFails := Err "connection reset";
     firstFails := fun _ => ErrNil; saveFails := fun _ => ErrNil |}.

(** A triage whose URL names a ticket the warehouse does not have,
    linked to ticket 12345. *)
Definition movedTriage : Triage string string :=
  {| t_ID := 1; t_URL := bugURL "OCPBUGS-777"; t_Description := "regression";
     t_BugID := Some 12345%Z; t_Bug := Some (sampleBug 12345 "OCPBUGS-12345") |}.

(** A triage that is not linked yet, for ticket 12345. *)
Definition newTriage : Triage string string :=
  {| t_ID := 2; t_URL := bugURL "OCPBUGS-12345"; t_Description := "regression";
     t_BugID := None; t_Bug := None |}.

Definition triagedRun : Run string string :=
  {| r_bugs := {[ 12345%Z := sampleBug 12345 "OCPBUGS-12345" ]};
     r_triages := {[ 1%Z := movedTriage; 2%Z := newTriage ]};
     r_bl := freshLoader; r_log := [] |}.

(** The run a completed [Load] returns. *)
Definition completedRun (o : outcome string string) (default : Run string string)
  : Run string string :=
  match o with
  | Completed r => r
  | _ => default
  end.

(** The parts of a completed [fetch]. *)
Definition fetchedTests (f : fetched string string) : gmap Z (Bug string string) :=
  match f with Fetched testBugs _ _ _ _ => testBugs | _ => ∅ end.
Definition fetchedJobs (f : fetched string string) : gmap Z (Bug string string) :=
  match f with Fetched _ jobBugs _ _ _ => jobBugs | _ => ∅ end.
Definition fetchedTriageBugs (f : fetched string string) : gmap Z (Bug string string) :=
  match f with Fetched _ _ triageBugs _ _ => triageBugs | _ => ∅ end.
Definition fetchedTriages (f : fetched string string) : list (Triage string string) :=
  match f with Fetched _ _ _ triages _ => triages | _ => [] end.
Definition fetchedRun (f : fetched string string) : Run string string :=
  match f with Fetched _ _ _ _ r => r | _ => emptyRun end.

(** Two runs in a row on the same environment. *)
Definition firstRun (valid : bool) : Run string string :=
  completedRun (Load (sampleEnv valid noFaults []) emptyRun) emptyRun.
Definition secondRun (valid : bool) : Run string string :=
  completedRun (Load (sampleEnv valid noFaults []) (firstRun valid)) (firstRun valid).

(** A run on a store with a stale row, with a working and with a
    failing delete statement. *)
Definition resyncEnv : Env string string := sampleEnv true noFaults [].
Definition deleteFailsEnv : Env string string := sampleEnv true failingDelete [].

(** A run on the store with the two triages. *)
Definition triageEnv : Env string string := sampleEnv true noFaults [movedTriage; newTriage].
Definition triagedResult : Run string string :=
  completedRun (Load triageEnv triagedRun) triagedRun.

(** The mapping sets of the scenario of the specification: ticket
    12345 with one test in the test mappings and no job in the job
    mappings, and a ticket of the job mappings alone. *)
Definition scenarioTests : gmap Z (Bug string string) :=
  <[12345%Z := set_Tests (sampleBug 12345 "OCPBUGS-12345") ["unit-test-foo"]]> ∅.
Definition scenarioJobs : gmap Z (Bug string string) :=
  <[12345%Z := sampleBug 12345 "OCPBUGS-12345"]>
    (<[67890%Z := set_Jobs (sampleBug 67890 "OCPBUGS-67890") ["periodic-job-x"]]> ∅).
Definition scenarioTriages : gmap Z (Bug string string) :=
  <[12345%Z := sampleBug 12345 "OCPBUGS-12345"]> ∅.

(** A bucket with three objects under every prefix, of which one can
    be read, and a matcher that fails after a partial match. *)
Definition sampleBucket : JobArtifacts.BucketHandle unit :=
  {| JobArtifacts.Objects := fun _ =>
       [JobArtifacts.Object "logs/a"; JobArtifacts.Object "logs/b"; JobArtifacts.Object "logs/c"];
     JobArtifacts.NewReader := fun path =>
       if String.eqb path "logs/a" then inr tt else inl (Err "object does not exist") |}.

Definition sampleQuery : JobArtifacts.JobArtifactQuery unit string :=
  {| JobArtifacts.GcsBucket := sampleBucket;
     JobArtifacts.PathGlob := "";
     JobArtifacts.Matcher := Some (fun _ => (Some "partial match", Err "unexpected EOF")) |}.

Definition listOnlyQuery : JobArtifacts.JobArtifactQuery unit string :=
  {| JobArtifacts.GcsBucket := sampleBucket;
     JobArtifacts.PathGlob := "";
     JobArtifacts.Matcher := None |}.

(** A database whose view has no unique index: the concurrent refresh
    fails, the blocking one works. *)
Definition sampleView : string := "prow_test_report_7d_matview".
Definition noIndexDB : MatViews.DB :=
  {| MatViews.RawCount := fun _ => inr 0%Z;
     MatViews.Exec := fun sql =>
       if String.eqb sql (MatViews.concurrentSQL sampleView)
       then Err "cannot refresh materialized view concurrently"
       else ErrNil |}.

(** A database whose view is populated. *)
Definition warmDB : MatViews.DB :=
  {| MatViews.RawCount := fun _ => inr 5%Z;
     MatViews.Exec := fun _ => ErrNil |}.

End Samples.

(** ** Predicates on mapping sets and store statements *)

Module LoaderProps.

Import BugLoader.

Section Props.

Context {Test ProwJob : Type}.

(** A record as the mapping loops build it: stored under its own ID,
    which is a 64-bit unsigned number, with the URL of its key. *)
Definition wellKeyed (k : Z) (b : Bug Test ProwJob) : Prop :=
  ID b = k ∧ (0 ≤ k < 2 ^ 64)%Z ∧ URL b = bugURL (Key b).

(** The key and the test a row of the test query contributes, if any:
    the guards of the loop of [getTestBugMappings], in order. *)
Definition testOfRow (testCache : gmap string Test) (row : bigQueryBug) : option (Z * Test) :=
  if String.eqb (bq_JiraID row) "" || String.eqb (bq_LinkName row) "" then None
  else
    match Atoi (bq_JiraID row) with
    | Fail _ => None
    | Ok intID =>
        match testCache !! bq_LinkName row with
        | None => None
        | Some test => Some (uint intID, test)
        end
    end.

(** The tests the rows contribute to the key [k], in row order, and the
    first row that contributes one. *)
Definition testsFor (testCache : gmap string Test) (k : Z) (rows : list bigQueryBug)
  : list Test :=
  omap (fun row =>
          match testOfRow testCache row with
          | Some (k', test) => if decide (k' = k) then Some test else None
          | None => None
          end) rows.

Definition firstRowFor (testCache : gmap string Test) (k : Z) (rows : list bigQueryBug)
  : option bigQueryBug :=
  head (List.filter (fun row =>
                       match testOfRow testCache row with
                       | Some (k', _) => bool_decide (k' = k)
                       | None => false
                       end) rows).

(** The same for a row of the job query and [getJobBugMappings]. *)
Definition jobOfRow (jobCache : gmap string ProwJob) (row : bigQueryBug) : option (Z * ProwJob) :=
  if String.eqb (bq_JiraID row) "" || String.eqb (bq_LinkName row) "" then None
  else
    match Atoi (bq_JiraID row) with
    | Fail _ => None
    | Ok intID =>
        match jobCache !! bq_LinkName row with
        | None => None
        | Some job => Some (uint intID, job)
        end
    end.

(** The key a row of the triage query is recorded under, if any. *)
Definition keyOfRow (row : bigQueryBug) : option Z :=
  if String.eqb (bq_JiraID row) "" then None
  else
    match Atoi (bq_JiraID row) with
    | Fail _ => None
    | Ok intID => Some (uint intID)
    end.

(** Every statement the persist loop sends for the bug with ID [k] succeeds. *)
Definition statementsSucceed (faults : Faults) (k : Z) : Prop :=
  createFails faults k = ErrNil
  ∧ replaceTestsFails faults k = ErrNil
  ∧ replaceJobsFails faults k = ErrNil.

End Props.

End LoaderProps.

(** ** Package jobartifacts: the query of one job run *)

Module JobRuns.

Import JobArtifacts.

(** [strings.Index(s, substr)]: the byte index of the first instance of
    [substr] in [s]; [None] is the result -1. *)
Fixpoint Index (s substr : string) : option nat :=
  if String.prefix substr s then Some 0%nat
  else match s with
       | EmptyString => None
       | String _ r => S <$> Index r substr
       end.

(** [strings.HasSuffix(s, "/")] and the slice [s[n:]]. *)
Definition HasSuffix (s : string) (sep : ascii) : bool := BugLoader.HasSuffixByte sep s.
Definition sliceFrom (s : string) (n : nat) : string := BugLoader.dropBytes n s.

(** [models.ProwJobRun] with its preloaded [ProwJob]: the fields that
    [getJobRun] reads. *)
Record ProwJobRun : Type := { ProwJob_Name : string; run_URL : string }.

(** [JobRun], the response for one job run.  A nil slice of artifacts and
    an empty one are both the empty list. *)
Record JobRun (Payload : Type) : Type := {
  jr_ID : string;
  jr_JobName : string;
  jr_URL : string;
  jr_ArtifactListTruncated : bool;
  jr_Artifacts : list (JobRunArtifact Payload)
}.
Arguments jr_ID {Payload}.
Arguments jr_JobName {Payload}.
Arguments jr_URL {Payload}.
Arguments jr_ArtifactListTruncated {Payload}.
Arguments jr_Artifacts {Payload}.

Section Runs.

Variable maxJobFilesToScan : nat.
Variable GcsBucketRoot : string.
Variable Content : Type.
Variable Payload : Type.

(** [strconv.Quote], the verb [%q] of the error message. *)
Variable Quote : string -> string.

(** [q.DbClient.DB.Preload("ProwJob").First(jobRunModel, jobRunID)]: the
    model as the call leaves it and [res.Error]. *)
Definition DbClient : Type := Z -> ProwJobRun * error.

(** [Manager.QueryJobRunArtifacts]: the scan of the listed files. *)
Definition Manager : Type :=
  JobArtifactQuery Content Payload -> Z -> list string -> list (JobRunArtifact Payload).

Definition marker : string := "/" +:+ GcsBucketRoot +:+ "/".

Definition noURL (jobRunID : Z) : error :=
  Err ("DB entry for job run " +:+ FormatInt jobRunID +:+ " has no URL").

Definition noBucketRoot (jobRunID : Z) (url : string) : error :=
  Err ("job run " +:+ FormatInt jobRunID +:+ " URL " +:+ url
       +:+ " does not include bucket root " +:+ Quote GcsBucketRoot).

Definition getJobRun (dbClient : DbClient) (jobRunID : Z)
  : string * JobRun Payload * error :=
  let jobRunResponse :=
    {| jr_ID := FormatInt jobRunID; jr_JobName := ""; jr_URL := "";
       jr_ArtifactListTruncated := false; jr_Artifacts := [] |} in
  let '(jobRunModel, resError) := dbClient jobRunID in
  match resError with
  | ErrNil =>
      let jobRunResponse :=
        {| jr_ID := jr_ID jobRunResponse; jr_JobName := ProwJob_Name jobRunModel;
           jr_URL := ""; jr_ArtifactListTruncated := false; jr_Artifacts := [] |} in
      let url := run_URL jobRunModel in
      if String.eqb url "" then ("", jobRunResponse, noURL jobRunID)
      else
        let jobRunResponse :=
          {| jr_ID := jr_ID jobRunResponse; jr_JobName := jr_JobName jobRunResponse;
             jr_URL := url; jr_ArtifactListTruncated := false; jr_Artifacts := [] |} in
        match Index url marker with
        | None => ("", jobRunResponse, noBucketRoot jobRunID url)
        | Some pathStart =>
            let jobRunPath := sliceFrom url (pathStart + String.length marker) in
            let jobRunPath :=
              if HasSuffix jobRunPath "/" then jobRunPath else jobRunPath +:+ "/" in
            (jobRunPath, jobRunResponse, ErrNil)
        end
  | _ => ("", jobRunResponse, resError)
  end.

(** [queryJobArtifacts]: the response, the error, and the lines logged. *)
Definition queryJobArtifacts (q : JobArtifactQuery Content Payload) (dbClient : DbClient)
    (jobRunID : Z) (mgr : Manager) : JobRun Payload * error * list log_entry :=
  let '(jobRunPath, jobRunResponse, err) := getJobRun dbClient jobRunID in
  match err with
  | ErrNil =>
      let '(filePaths, truncated, err) := getJobRunFiles maxJobFilesToScan q jobRunPath in
      match err with
      | ErrNil =>
          ({| jr_ID := jr_ID jobRunResponse; jr_JobName := jr_JobName jobRunResponse;
              jr_URL := jr_URL jobRunResponse;
              jr_ArtifactListTruncated := truncated;
              jr_Artifacts := mgr q jobRunID filePaths |}, ErrNil, [])
      | _ =>
          (jobRunResponse, err,
           [Log LError "could not find job artifact files" (Error_string err)])
      end
  | _ =>
      (jobRunResponse, err,
       [Log LError "could not query job's bucket path" (Error_string err)])
  end.

End Runs.

Arguments getJobRun GcsBucketRoot {Payload} Quote.
Arguments queryJobArtifacts maxJobFilesToScan GcsBucketRoot {Content Payload} Quote.

End JobRuns.

(** ** Package sippyserver: capabilities, endpoints and request checks *)

Module SippyServer.

(** [type Mode string] and its two constants. *)
Definition Mode : Type := string.
Definition ModeOpenShift : Mode := "openshift".
Definition ModeKubernetes : Mode := "kube".

(** A handler function as [Serve] registers it: an implementation, the
    caching wrapper of [cached] around a handler, or the responder of
    [requireCapabilities] that answers 501 Not Implemented. *)
Inductive handler (Impl : Type) : Type :=
| Implementation (fn : Impl)
| CachedHandler (duration : Z) (fn : handler Impl)
| NotImplemented.
Arguments Implementation {Impl} fn.
Arguments CachedHandler {Impl} duration fn.
Arguments NotImplemented {Impl}.

(** [apiEndpoints], one entry of the endpoint table of [Serve]. *)
Record apiEndpoints (Impl : Type) : Type := {
  EndpointPath : string;
  Description : string;
  Capabilities : list string;
  CacheTime : Z;
  HandlerFunc : handler Impl
}.
Arguments EndpointPath {Impl}.
Arguments Description {Impl}.
Arguments Capabilities {Impl}.
Arguments CacheTime {Impl}.
Arguments HandlerFunc {Impl}.

(** [TestGridDashboardCoordinates]. *)
Record TestGridDashboardCoordinates : Type := {
  ReportName : string;
  TestGridDashboardNames : list string;
  BugzillaRelease : string
}.

Section Server.

(** The capability names are constants declared outside the listed
    files, and so are the database handle and [query.HasBuildClusterData]. *)
Variable OpenshiftCapability : string.
Variable ComponentReadinessCapability : string.
Variable LocalDBCapability : string.
Variable BuildClusterCapability : string.
Variable DB : Type.
Variable HasBuildClusterData : DB -> bool * error.

(** The fields of [Server] that the functions below read or write; a
    client that is nil is [None] ([false] for the ones never used). *)
Record Server : Type := {
  mode : Mode;
  db : option DB;
  bigQueryClient : bool;
  cache : bool;
  capabilities : list string;
  dashboardCoordinates : list TestGridDashboardCoordinates
}.

(** The inner loop of [hasCapabilities]. *)
Fixpoint found (cap : string) (sCaps : list string) : bool :=
  match sCaps with
  | [] => false
  | sCap :: rest => if String.eqb cap sCap then true else found cap rest
  end.

Fixpoint hasAll (sCaps : list string) (capabilities : list string) : bool :=
  match capabilities with
  | [] => true
  | cap :: rest => if found cap sCaps then hasAll sCaps rest else false
  end.

Definition hasCapabilities (s : Server) (caps : list string) : bool :=
  hasAll (capabilities s) caps.

Definition set_capabilities (s : Server) (caps : list string) : Server :=
  {| mode := mode s; db := db s; bigQueryClient := bigQueryClient s; cache := cache s;
     capabilities := caps; dashboardCoordinates := dashboardCoordinates s |}.

(** [determineCapabilities]: the server with its capabilities set, and
    the lines logged. *)
Definition determineCapabilities (s : Server) : Server * list log_entry :=
  let caps : list string := [] in
  let caps := if String.eqb (mode s) ModeOpenShift
              then (caps ++ [OpenshiftCapability])%list else caps in
  let caps := if bigQueryClient s
              then (caps ++ [ComponentReadinessCapability])%list else caps in
  match db s with
  | Some dbc =>
      let caps := (caps ++ [LocalDBCapability])%list in
      let '(hasBuildCluster, err) := HasBuildClusterData dbc in
      if hasBuildCluster
      then (set_capabilities s (caps ++ [BuildClusterCapability])%list, [])
      else
        match err with
        | ErrNil => (set_capabilities s caps, [])
        | _ =>
            (set_capabilities s caps,
             [Log LWarn "could not fetch build cluster data" (Error_string err)])
        end
  | None => (set_capabilities s caps, [])
  end.

Section Endpoints.

Variable Impl : Type.

Definition requireCapabilities (s : Server) (caps : list string) (implFn : handler Impl)
  : handler Impl :=
  if hasCapabilities s caps then implFn else NotImplemented.

Definition cached (s : Server) (duration : Z) (fn : handler Impl) : handler Impl :=
  if cache s then CachedHandler duration fn else fn.

(** The body of the registration loop of [Serve]: the pattern and the
    handler given to [serveMux.HandleFunc]. *)
Definition register (s : Server) (ep : apiEndpoints Impl) : string * handler Impl :=
  let fn := HandlerFunc ep in
  let fn := if (0 <? CacheTime ep)%Z then cached s (CacheTime ep) fn else fn in
  let fn := if (0 <? length (Capabilities ep))%nat
            then requireCapabilities s (Capabilities ep) fn else fn in
  (EndpointPath ep, fn).

(** The handler of [/api]: the endpoints it lists. *)
Definition availableEndpoints (s : Server) (endpoints : list (apiEndpoints Impl))
  : list (apiEndpoints Impl) :=
  List.filter (fun ep => hasCapabilities s (Capabilities ep)) endpoints.

(** [Serve] up to the construction of the HTTP server: the server with
    its capabilities, and the registrations of the endpoint table. *)
Definition Serve (s : Server) (endpoints : list (apiEndpoints Impl))
  : Server * list (string * handler Impl) :=
  let s := (determineCapabilities s).1 in
  (s, register s <$> endpoints).

End Endpoints.

(** [reportNameToDashboardCoordinates] and [reportNames]. *)
Fixpoint lookupReport (dashboards : list TestGridDashboardCoordinates) (reportName : string)
  : TestGridDashboardCoordinates * bool :=
  match dashboards with
  | [] => ({| ReportName := ""; TestGridDashboardNames := []; BugzillaRelease := "" |}, false)
  | dashboard :: rest =>
      if String.eqb (ReportName dashboard) reportName then (dashboard, true)
      else lookupReport rest reportName
  end.

Definition reportNameToDashboardCoordinates (s : Server) (reportName : string)
  : TestGridDashboardCoordinates * bool :=
  lookupReport (dashboardCoordinates s) reportName.

Definition reportNames (s : Server) : list string :=
  foldl (fun ret dashboard => (ret ++ [ReportName dashboard])%list) [] (dashboardCoordinates s).

End Server.

Arguments mode {DB}.
Arguments db {DB}.
Arguments bigQueryClient {DB}.
Arguments cache {DB}.
Arguments capabilities {DB}.
Arguments dashboardCoordinates {DB}.
Arguments hasCapabilities {DB}.
Arguments set_capabilities {DB}.
Arguments requireCapabilities {DB Impl}.
Arguments cached {DB Impl}.
Arguments register {DB Impl}.
Arguments availableEndpoints {DB Impl}.
Arguments reportNameToDashboardCoordinates {DB}.
Arguments reportNames {DB}.

(** *** [isValidProwJobRun] *)

(** A pointer to a [models.ProwJobRun]: nil, or the address of a
    variable together with the address of its [ProwJob] field and the
    name stored there. *)
Record ProwJobRunRef : Type := {
  runAddr : nat;
  prowJobAddr : nat;
  ProwJob_Name : string
}.

(** [isValidProwJobRun].  Every composite literal [&T{}] of the body is
    a new variable; [new i] is the address of the [i]-th one in the order
    of the source text.  The operands of [||] and [&&] are evaluated
    from the left and only as far as needed. *)
Definition isValidProwJobRun (new : nat -> nat) (jobRun : option ProwJobRunRef)
  : bool * string :=
  let isNil := match jobRun with None => true | Some _ => false end in
  let runIs (a : nat) :=
    match jobRun with None => false | Some r => Nat.eqb (runAddr r) a end in
  let prowJobIs (a : nat) :=
    match jobRun with None => false | Some r => Nat.eqb (prowJobAddr r) a end in
  let nameEmpty :=
    match jobRun with None => false | Some r => String.eqb (ProwJob_Name r) "" end in
  if isNil || runIs (new 0%nat) || prowJobIs (new 1%nat) || nameEmpty then
    let detailReason := "empty ProwJobRun" in
    let detailReason :=
      if negb isNil && negb (runIs (new 2%nat)) then
        let detailReason := "empty ProwJob" in
        if negb (prowJobIs (new 3%nat)) then "missing ProwJob Name" else detailReason
      else detailReason in
    (false, detailReason)
  else (true, "").

End SippyServer.

(** ** The command line of sippy: main.go *)

Module Main.

(** The fields of [Options] that [Complete], [Validate] and the
    conversions to the server configuration read. *)
Record Options : Type := {
  LocalData : string;
  OpenshiftReleases : list string;
  Dashboards : list string;
  Mode : list string;
  Output : string;
  FetchData : string;
  FetchPerfScaleData : bool;
  LoadDatabase : bool;
  Server : bool;
  DBOnlyMode : bool;
  DSN : string;
  LoadTestgrid : bool;
  LoadOpenShiftCIBigQuery : bool;
  LoadProw : bool;
  LoadGitHub : bool;
  Config : string;
  DaemonServer : bool;
  CommentProcessing : bool;
  CreateSnapshot : bool;
  SnapshotName : string;
  SnapshotRelease : string
}.

Definition set_Dashboards (o : Options) (dashboards : list string) : Options :=
  {| LocalData := LocalData o; OpenshiftReleases := OpenshiftReleases o;
     Dashboards := dashboards; Mode := Mode o; Output := Output o;
     FetchData := FetchData o; FetchPerfScaleData := FetchPerfScaleData o;
     LoadDatabase := LoadDatabase o; Server := Server o; DBOnlyMode := DBOnlyMode o;
     DSN := DSN o; LoadTestgrid := LoadTestgrid o;
     LoadOpenShiftCIBigQuery := LoadOpenShiftCIBigQuery o; LoadProw := LoadProw o;
     LoadGitHub := LoadGitHub o; Config := Config o; DaemonServer := DaemonServer o;
     CommentProcessing := CommentProcessing o; CreateSnapshot := CreateSnapshot o;
     SnapshotName := SnapshotName o; SnapshotRelease := SnapshotRelease o |}.

(** [strings.Join]. *)
Fixpoint Join (elems : list string) (sep : string) : string :=
  match elems with
  | [] => ""
  | [e] => e
  | e :: rest => e +:+ sep +:+ Join rest sep
  end.

(** [fmt.Sprintf(openshiftDashboardTemplate, release, kind)]. *)
Definition openshiftDashboard (release kind : string) : string :=
  "redhat-openshift-ocp-release-" +:+ release +:+ "-" +:+ kind.

Definition dashboardArgFromOpenshiftRelease (release : string) : string :=
  let dashboards :=
    [ openshiftDashboard release "blocking"; openshiftDashboard release "informing" ] in
  let argString := release +:+ "=" +:+ Join dashboards "," +:+ "=" +:+ release in
  argString.

Definition Complete (o : Options) : Options :=
  set_Dashboards o
    (foldl (fun dashboards openshiftRelease =>
              (dashboards ++ [dashboardArgFromOpenshiftRelease openshiftRelease])%list)
       (Dashboards o) (OpenshiftReleases o)).

(** The variant managers and synthetic test managers the command can
    construct. *)
Inductive VariantManager : Type :=
| OpenshiftVariantManager
| KubeVariantManager
| EmptyVariantManager.

Inductive SyntheticTestManager : Type :=
| OpenshiftSyntheticTestManager
| EmptySyntheticTestManager.

Section Command.

(** [strconv.Quote], the verb [%q] of the messages. *)
Variable Quote : string -> string.

Definition threeTokens (dashboard : string) : string :=
  "must have three tokens: " +:+ Quote dashboard.

(** [ToTestGridDashboardCoordinates]: the coordinates, or the value it
    panics with.  [len(tokens) != 3] is the last branch of the match. *)
Fixpoint coordinates (dashboards : list string)
    (acc : list SippyServer.TestGridDashboardCoordinates)
  : string + list SippyServer.TestGridDashboardCoordinates :=
  match dashboards with
  | [] => inr acc
  | dashboard :: rest =>
      match BugLoader.Split dashboard "=" with
      | [t0; t1; t2] =>
          coordinates rest
            (acc ++ [ {| SippyServer.ReportName := t0;
                         SippyServer.TestGridDashboardNames := BugLoader.Split t1 ",";
                         SippyServer.BugzillaRelease := t2 |} ])%list
      | _ => inl (threeTokens dashboard)
      end
  end.

Definition ToTestGridDashboardCoordinates (o : Options)
  : string + list SippyServer.TestGridDashboardCoordinates :=
  coordinates (Dashboards o) [].

(** The loop of [Validate] over the dashboards. *)
Fixpoint validateDashboards (dashboards : list string) : error :=
  match dashboards with
  | [] => ErrNil
  | dashboard :: rest =>
      if negb (length (BugLoader.Split dashboard "=") =? 3)%nat
      then Err (threeTokens dashboard)
      else validateDashboards rest
  end.

(** One [if cond { return fmt.Errorf(msg) }] of [Validate]. *)
Definition reject (cond : bool) (msg : string) (rest : error) : error :=
  if cond then Err msg else rest.

Definition isEmpty (s : string) : bool := String.eqb s "".

Definition Validate (o : Options) : error :=
  if negb (String.eqb (Output o) "json") then Err ("invalid output type: " +:+ Output o)
  else
  match validateDashboards (Dashboards o) with
  | ErrNil =>
      reject (1 <? length (Mode o))%nat "only one --mode allowed" (
      reject (match Mode o with
              | [m] => negb (String.eqb m "ocp" || String.eqb m "kube" || String.eqb m "none")
              | _ => false
              end) "only ocp, kube, or none is allowed" (
      reject (FetchPerfScaleData o && isEmpty (FetchData o))
        "must specify --fetch-data with --fetch-openshift-perfscale-data" (
      reject (Server o && negb (isEmpty (FetchData o)))
        "cannot specify --server with --fetch-data" (
      reject (Server o && LoadDatabase o)
        "cannot specify --server with --load-database" (
      reject (LoadDatabase o && negb (isEmpty (FetchData o)))
        "cannot specify --load-database with --fetch-data" (
      reject (LoadDatabase o && isEmpty (LocalData o) && LoadTestgrid o)
        "must specify --local-data with --load-database for loading testgrid data" (
      reject ((LoadDatabase o || Server o || CreateSnapshot o || CommentProcessing o)
              && isEmpty (DSN o))
        "must specify --database-dsn with --load-database, --server, --comment-processing, and --create-snapshot" (
      reject (LoadGitHub o && negb (LoadProw o))
        "--load-github can only be specified with --load-prow" (
      reject (LoadOpenShiftCIBigQuery o && negb (LoadProw o))
        "--load-openshift-ci-bigquery can only be specified with --load-prow" (
      reject (LoadProw o && isEmpty (Config o))
        "must specify --config with --load-prow" (
      reject (Server o && DaemonServer o)
        "cannot specify --server with --daemon-server" (
      reject (DaemonServer o && LoadDatabase o)
        "cannot specify --daemon-server with --load-database" (
      reject (DaemonServer o && negb (isEmpty (FetchData o)))
        "cannot specify --daemon-server with --fetch-data" (
      reject (negb (DaemonServer o) && CommentProcessing o)
        "cannot specify --comment-processing without --daemon-server" (
      reject (DaemonServer o && negb (CommentProcessing o))
        "cannot specify --daemon-server without specifying a daemon-process as well (e.g. --comment-processing)" (
      reject (CommentProcessing o && isEmpty (Config o))
        "must specify --config with --comment-processing" (
      reject (CreateSnapshot o && isEmpty (SnapshotName o))
        "must specify --snapshot-name when creating a snapshot" (
      reject (CreateSnapshot o && isEmpty (SnapshotRelease o))
        "must specify --snapshot-release when creating a snapshot" (
      reject (negb (DBOnlyMode o))
        "--db-only-mode cannot be set to false (deprecated flag soon to be removed, feature now mandatory)"
        ErrNil)))))))))))))))))))
  | err => err
  end.

Definition getServerMode (o : Options) : SippyServer.Mode :=
  match Mode o with
  | m :: _ => if String.eqb m "ocp" then SippyServer.ModeOpenShift
              else SippyServer.ModeKubernetes
  | [] => SippyServer.ModeKubernetes
  end.

(** [getVariantManager]: the manager, or the value it panics with. *)
Definition getVariantManager (o : Options) : string + VariantManager :=
  match Mode o with
  | [] =>
      if String.eqb (getServerMode o) SippyServer.ModeOpenShift
      then inr OpenshiftVariantManager
      else inr EmptyVariantManager
  | m :: _ =>
      if String.eqb m "ocp" then inr OpenshiftVariantManager
      else if String.eqb m "kube" then inr KubeVariantManager
      else if String.eqb m "none" then inr EmptyVariantManager
      else inl "only ocp, kube, or none is allowed"
  end.

Definition getSyntheticTestManager (o : Options) : SyntheticTestManager :=
  if String.eqb (getServerMode o) SippyServer.ModeOpenShift
  then OpenshiftSyntheticTestManager
  else EmptySyntheticTestManager.

End Command.

End Main.

(** ** The automate-jira command: cmd/sippy/automatejira.go *)

Module AutomateJira.

(** The fields of [AutomateJiraFlags] that [Validate] reads or writes.
    A [jiraautomator.Variant] is the pair of its name and its value. *)
Record AutomateJiraFlags : Type := {
  SippyURL : string;
  IncludeComponentsStr : string;
  IncludeComponents : gset string;
  ColumnThresholdStrs : list string;
  ColumnThresholds : gmap (string * string) Z;
  JiraAccount : string
}.

Definition set_IncludeComponents (f : AutomateJiraFlags) (c : gset string)
  : AutomateJiraFlags :=
  {| SippyURL := SippyURL f; IncludeComponentsStr := IncludeComponentsStr f;
     IncludeComponents := c; ColumnThresholdStrs := ColumnThresholdStrs f;
     ColumnThresholds := ColumnThresholds f; JiraAccount := JiraAccount f |}.

Definition set_ColumnThresholds (f : AutomateJiraFlags) (t : gmap (string * string) Z)
  : AutomateJiraFlags :=
  {| SippyURL := SippyURL f; IncludeComponentsStr := IncludeComponentsStr f;
     IncludeComponents := IncludeComponents f;
     ColumnThresholdStrs := ColumnThresholdStrs f;
     ColumnThresholds := t; JiraAccount := JiraAccount f |}.

Definition flagName : string := "--variant-based-component-regression-threshold ".

Definition wrongFormat (variantThreshold : string) : error :=
  Err (flagName +:+ variantThreshold +:+ " is in wrong format").
Definition wrongName (variantThreshold name : string) : error :=
  Err (flagName +:+ variantThreshold +:+ " has wrong variant name " +:+ name).
Definition wrongValue (variantThreshold value : string) : error :=
  Err (flagName +:+ variantThreshold +:+ " has wrong variant value " +:+ value).
Definition wrongThreshold (variantThreshold t : string) : error :=
  Err (flagName +:+ variantThreshold +:+ " has wrong threshold " +:+ t).

(** The loop [for _, v := range vs] that looks for the value; it has no
    [break]. *)
Definition foundValue (vs : list string) (value : string) : bool :=
  foldl (fun found v => if String.eqb v value then true else found) false vs.

(** One iteration of the loop over [ColumnThresholdStrs]: the error it
    returns or the map it leaves.  [len(vt) != 3] is the last branch of
    the match. *)
Definition threshold (allVariants : gmap string (list string)) (variantThreshold : string)
    (thresholds : gmap (string * string) Z) : error + gmap (string * string) Z :=
  match BugLoader.Split variantThreshold ":" with
  | [vt0; vt1; vt2] =>
      match allVariants !! vt0 with
      | None => inl (wrongName variantThreshold vt0)
      | Some vs =>
          if negb (foundValue vs vt1) then inl (wrongValue variantThreshold vt1)
          else
            match BugLoader.Atoi vt2 with
            | BugLoader.Fail _ => inl (wrongThreshold variantThreshold vt2)
            | BugLoader.Ok t => inr (<[(vt0, vt1) := t]> thresholds)
            end
      end
  | _ => inl (wrongFormat variantThreshold)
  end.

Fixpoint thresholds (allVariants : gmap string (list string)) (strs : list string)
    (acc : gmap (string * string) Z) : gmap (string * string) Z * error :=
  match strs with
  | [] => (acc, ErrNil)
  | variantThreshold :: rest =>
      match threshold allVariants variantThreshold acc with
      | inl err => (acc, err)
      | inr acc => thresholds allVariants rest acc
      end
  end.

(** [Validate]: the flags as the call leaves them and the error.  The
    check of the Jira options is outside the listed files; its result is
    a parameter. *)
Definition Validate (jiraOptionsValidate : error) (f : AutomateJiraFlags)
    (allVariants : gmap string (list string)) : AutomateJiraFlags * error :=
  if (String.length (SippyURL f) =? 0)%nat then (f, Err "--sippy-url is required")
  else if (String.length (JiraAccount f) =? 0)%nat
  then (f, Err "--jira-account is required")
  else
    let f := set_IncludeComponents f
               (list_to_set (BugLoader.Split (IncludeComponentsStr f) ",")) in
    let '(t, err) := thresholds allVariants (ColumnThresholdStrs f) (ColumnThresholds f) in
    let f := set_ColumnThresholds f t in
    match err with
    | ErrNil => (f, jiraOptionsValidate)
    | _ => (f, err)
    end.

End AutomateJira.

(** ** The component-readiness command *)

Module ComponentReadiness.

(** [errors.WithMessage] of the pkg/errors package: nil for a nil error. *)
Definition errors_WithMessage (e : error) (msg : string) : error :=
  match e with
  | ErrNil => ErrNil
  | _ => WithMessage e msg
  end.

(** What [Run] and [runServerMode] get from outside: the error of every
    call, and for the BigQuery client whether the client returned is
    non-nil. *)
Record Env : Type := {
  LogLevel : error;
  Config : string;
  ReadFile : error;
  Unmarshal : error;
  Frontend : error;
  GetCacheClient : error;
  ServiceAccountCredentialFile : string;
  GetBigQueryClient : bool * error;
  NewGCSClient : error;
  GetComponentTestVariantsFromBigQuery2 : list error
}.

(** How the command ends: [log.Fatal] exits the process, the function
    returns an error, or it goes on to build the server and to serve
    (the argument tells whether the server gets a BigQuery client). *)
Inductive outcome : Type :=
| Fatal
| Returned (e : error)
| Served (bigQueryClient : bool).

Definition warning (n : nat) : log_entry :=
  Log LWarn "errors were encountered while querying for component report variants"
    (FormatInt (Z.of_nat n)).

(** [runServerMode].  [err] is the one variable declared at the top of
    the function; the loop over [errs] declares its own. *)
Definition runServerMode (env : Env) : outcome * list log_entry :=
  let err := Frontend env in
  match err with
  | ErrNil =>
      let err := GetCacheClient env in
      match err with
      | ErrNil =>
          let '(stop, bigQueryClient, err, logged) :=
            if String.eqb (ServiceAccountCredentialFile env) "" then (None, false, err, [])
            else
              let '(bigQueryClient, err) := GetBigQueryClient env in
              match err with
              | ErrNil =>
                  let err := NewGCSClient env in
                  match err with
                  | ErrNil => (None, bigQueryClient, err, [])
                  | _ =>
                      (None, bigQueryClient, err,
                       [Log LWarn "unable to create GCS client, some APIs may not work"
                          (Error_string err)])
                  end
              | _ =>
                  (Some (errors_WithMessage err "couldn't get bigquery client"),
                   bigQueryClient, err, [])
              end in
          match stop with
          | Some e => (Returned e, logged)
          | None =>
              let errs := if bigQueryClient
                          then GetComponentTestVariantsFromBigQuery2 env else [] in
              if negb (length errs =? 0)%nat then
                (Returned (errors_WithMessage err "couldn't get component report variants"),
                 (logged ++ [warning (length errs)]
                  ++ ((fun e => Log LError (Error_string e) "") <$> errs))%list)
              else (Served bigQueryClient, logged)
          end
      | _ => (Returned (errors_WithMessage err "couldn't get cache client"), [])
      end
  | _ => (Fatal, [Log LError "could not load frontend" (Error_string err)])
  end.

(** [Run]: the log level and the config, then [runServerMode]. *)
Definition Run (env : Env) : outcome * list log_entry :=
  match LogLevel env with
  | ErrNil =>
      if String.eqb (Config env) "" then runServerMode env
      else
        match ReadFile env with
        | ErrNil =>
            match Unmarshal env with
            | ErrNil => runServerMode env
            | err => (Fatal, [Log LError "could not unmarshal config" (Error_string err)])
            end
        | err => (Fatal, [Log LError "could not load config" (Error_string err)])
        end
  | err => (Fatal, [Log LError "Cannot parse log-level" (Error_string err)])
  end.

(** The [RunE] of the command: [Validate] returns nil. *)
Definition RunE (env : Env) : outcome * list log_entry :=
  match Run env with
  | (Returned err, logged) =>
      (Returned (errors_WithMessage err "error running command"), logged)
  | res => res
  end.

End ComponentReadiness.

(** ** Further sample data *)

Module MoreSamples.

Import BugLoader Samples.

(** The value of a result, or a default. *)
Definition okOr {A : Type} (r : result A) (default : A) : A :=
  match r with
  | Ok a => a
  | Fail _ => default
  end.

(** The run an early return of [Load] leaves. *)
Definition returnedRun (o : outcome string string) (default : Run string string)
  : Run string string :=
  match o with
  | Returned r => r
  | _ => default
  end.

(** The merged record of ticket 12345 in the sample environments. *)
Definition mergedBug12345 : Bug string string :=
  set_Jobs (set_Tests (sampleBug 12345 "OCPBUGS-12345") ["unit-test-foo"])
    ["periodic-job-x"].

(** An environment whose test cache cannot be loaded. *)
Definition noCacheEnv : Env string string :=
  {| LoadTestCache := Fail (Err "relation tests does not exist");
     testQuery := Ok [Ok (testRow12345 true)];
     LoadProwJobCache := Ok sampleJobCache;
     jobQuery := Ok [Ok jobRow12345];
     ListTriages := Ok [];
     triageQuery := fun _ => Ok [];
     clock := sampleClock;
     faults := noFaults |}.

(** Stores that refuse the create of ticket 12345, or the replacement of
    its tests. *)
Definition failingCreate : Faults :=
  {| createFails := fun k => if (k =? 12345)%Z then Err "deadlock detected" else ErrNil;
     replaceTestsFails := fun _ => ErrNil;
     replaceJobsFails := fun _ => ErrNil; deleteFails := ErrNil;
     firstFails := fun _ => ErrNil; saveFails := fun _ => ErrNil |}.

Definition failingReplaceTests : Faults :=
  {| createFails := fun _ => ErrNil;
     replaceTestsFails := fun k => if (k =? 12345)%Z then Err "deadlock detected" else ErrNil;
     replaceJobsFails := fun _ => ErrNil; deleteFails := ErrNil;
     firstFails := fun _ => ErrNil; saveFails := fun _ => ErrNil |}.

Definition createFailsEnv : Env string string := sampleEnv true failingCreate [].

(** A store where ticket 12345 has a test and a job that the warehouse
    no longer reports. *)
Definition associatedRun : Run string string :=
  {| r_bugs := {[ 12345%Z := set_Jobs (set_Tests (sampleBug 12345 "OCPBUGS-12345")
                                          ["old-test"]) ["old-job"] ]};
     r_triages := ∅; r_bl := freshLoader; r_log := [] |}.

(** An environment whose three queries return no row. *)
Definition emptySourcesEnv : Env string string :=
  {| LoadTestCache := Ok sampleTestCache;
     testQuery := Ok [];
     LoadProwJobCache := Ok sampleJobCache;
     jobQuery := Ok [];
     ListTriages := Ok [];
     triageQuery := fun _ => Ok [];
     clock := sampleClock;
     faults := noFaults |}.
Definition replaceTestsFailsEnv : Env string string := sampleEnv true failingReplaceTests [].

(** A triage linked to the bug of its own URL, and a store with it. *)
Definition linkedTriage : Triage string string :=
  {| t_ID := 3; t_URL := bugURL "OCPBUGS-12345"; t_Description := "regression";
     t_BugID := Some 12345%Z; t_Bug := Some (sampleBug 12345 "OCPBUGS-12345") |}.

Definition linkedEnv : Env string string := sampleEnv true noFaults [linkedTriage].

Definition linkedRun : Run string string :=
  {| r_bugs := {[ 12345%Z := sampleBug 12345 "OCPBUGS-12345" ]};
     r_triages := {[ 3%Z := linkedTriage ]};
     r_bl := freshLoader; r_log := [] |}.

(** The triage query of a warehouse that knows ticket 12345. *)
Definition sampleTriageQuery (keys : list string) : QueryResult :=
  Ok [Ok (sampleRow "12345" "" "OCPBUGS-12345" true)].

(** The mappings of the sample test query and of the sample triage query. *)
Definition sampleTestMappings : result (gmap Z (Bug string string)) * BugLoader :=
  getTestBugMappings sampleClock (Ok [Ok (testRow12345 true)]) sampleTestCache freshLoader.

Definition sampleTriageMappings : result (gmap Z (Bug string string)) * BugLoader :=
  getTriageBugMappings sampleClock sampleTriageQuery [newTriage] freshLoader.

(** A quoting function for the verb [%q]. *)
Definition sampleQuote (s : string) : string := "'" +:+ s +:+ "'".

(** A database with the job run 42. *)
Definition sampleDbClient : JobRuns.DbClient :=
  fun jobRunID =>
    if (jobRunID =? 42)%Z
    then ({| JobRuns.ProwJob_Name := "periodic-ci-e2e";
             JobRuns.run_URL :=
               "https://prow.ci.openshift.org/view/gs/test-platform-results/logs/periodic-ci-e2e/42" |},
          ErrNil)
    else ({| JobRuns.ProwJob_Name := ""; JobRuns.run_URL := "" |}, Err "record not found").

(** A server in OpenShift mode with a database that has no build
    cluster data, and two endpoints. *)
Definition sampleServer : SippyServer.Server unit :=
  {| SippyServer.mode := SippyServer.ModeOpenShift;
     SippyServer.db := Some tt;
     SippyServer.bigQueryClient := false;
     SippyServer.cache := true;
     SippyServer.capabilities := [];
     SippyServer.dashboardCoordinates := [] |}.

Definition healthEndpoint : SippyServer.apiEndpoints string :=
  {| SippyServer.EndpointPath := "/api/health/build_cluster";
     SippyServer.Description := "Reports health of build cluster";
     SippyServer.Capabilities := ["local_db"; "build_cluster"];
     SippyServer.CacheTime := 3600;
     SippyServer.HandlerFunc := SippyServer.Implementation "jsonBuildClusterHealth" |}.

Definition jobsEndpoint : SippyServer.apiEndpoints string :=
  {| SippyServer.EndpointPath := "/api/jobs";
     SippyServer.Description := "Returns a list of jobs";
     SippyServer.Capabilities := ["local_db"];
     SippyServer.CacheTime := 0;
     SippyServer.HandlerFunc := SippyServer.Implementation "jsonJobsReportFromDB" |}.

Definition sampleServe
  : SippyServer.Server unit * list (string * SippyServer.handler string) :=
  SippyServer.Serve "openshift_releases" "component_readiness" "local_db" "build_cluster"
    unit (fun _ => (false, ErrNil)) string sampleServer [healthEndpoint; jobsEndpoint].

(** The options of a server for one release. *)
Definition serverOptions : Main.Options :=
  {| Main.LocalData := ""; Main.OpenshiftReleases := ["4.14"];
     Main.Dashboards := [Main.dashboardArgFromOpenshiftRelease "4.14"];
     Main.Mode := ["ocp"]; Main.Output := "json"; Main.FetchData := "";
     Main.FetchPerfScaleData := false; Main.LoadDatabase := false;
     Main.Server := true; Main.DBOnlyMode := true;
     Main.DSN := "postgresql://sippy@localhost/sippy";
     Main.LoadTestgrid := false; Main.LoadOpenShiftCIBigQuery := false;
     Main.LoadProw := false; Main.LoadGitHub := false; Main.Config := "";
     Main.DaemonServer := false; Main.CommentProcessing := false;
     Main.CreateSnapshot := false; Main.SnapshotName := "";
     Main.SnapshotRelease := "" |}.

(** Flags of the automate-jira command with one threshold. *)
Definition jiraFlags : AutomateJira.AutomateJiraFlags :=
  {| AutomateJira.SippyURL := "https://sippy.dptools.openshift.org";
     AutomateJira.IncludeComponentsStr := "";
     AutomateJira.IncludeComponents := ∅;
     AutomateJira.ColumnThresholdStrs := ["Platform:metal:3"];
     AutomateJira.ColumnThresholds := ∅;
     AutomateJira.JiraAccount := "sippy-bot" |}.

Definition jiraVariants : gmap string (list string) :=
  {[ "Platform" := ["aws"; "metal"] ]}.

(** A start of the component-readiness command in which the variants
    query fails after all clients were created. *)
Definition variantsFailEnv : ComponentReadiness.Env :=
  {| ComponentReadiness.LogLevel := ErrNil;
     ComponentReadiness.Config := "";
     ComponentReadiness.ReadFile := ErrNil;
     ComponentReadiness.Unmarshal := ErrNil;
     ComponentReadiness.Frontend := ErrNil;
     ComponentReadiness.GetCacheClient := ErrNil;
     ComponentReadiness.ServiceAccountCredentialFile := "/etc/credentials.json";
     ComponentReadiness.GetBigQueryClient := (true, ErrNil);
     ComponentReadiness.NewGCSClient := ErrNil;
     ComponentReadiness.GetComponentTestVariantsFromBigQuery2 :=
       [Err "googleapi: Error 403: Access Denied"] |}.

End MoreSamples.

(** * Properties *)

Local Open Scope list_scope.
Local Open Scope nat_scope.

(** ** The artifact listing and the file scan *)

Section ScannerFacts.

Import JobArtifacts.

Variable maxJobFilesToScan : nat.
Variable GcsBucketRoot : string.
Variable Content : Type.
Variable Payload : Type.

Local Abbreviation listLoop := (JobArtifacts.listLoop maxJobFilesToScan).
Local Abbreviation getJobRunFiles := (@JobArtifacts.getJobRunFiles maxJobFilesToScan Content Payload).
Local Abbreviation getFileContentMatches :=
  (@JobArtifacts.getFileContentMatches GcsBucketRoot Content Payload).

(** As long as the bound is not reached the loop appends the objects it reads. *)
Lemma listLoop_objects (names : list string) (rest : list next_result) (files : list string) :
  length files + length names ≤ maxJobFilesToScan →
  listLoop ((Object <$> names) ++ rest) files = listLoop rest (files ++ names).
Proof.
  revert files. induction names as [|name names IH]; intros files Hlen; simpl.
  - by rewrite app_nil_r.
  - simpl in Hlen.
    destruct (maxJobFilesToScan <=? length files)%nat eqn:Hfull.
    + apply Nat.leb_le in Hfull. lia.
    + rewrite IH.
      * by rewrite <- app_assoc.
      * rewrite length_app. simpl. lia.
Qed.

(** The loop stops with the truncation flag on the first object it
    reads once the slice is full. *)
Lemma listLoop_full (name : string) (rest : list next_result) (files : list string) :
  maxJobFilesToScan ≤ length files →
  listLoop (Object name :: rest) files = (files, true, ErrNil).
Proof.
  intros Hfull. simpl.
  destruct (maxJobFilesToScan <=? length files)%nat eqn:E; [done|].
  apply Nat.leb_gt in E. lia.
Qed.

(** A truncated listing was stopped by an object that is not in it. *)
Lemma listLoop_truncated (iter : list next_result) (files out : list string) (e : error) :
  length files ≤ maxJobFilesToScan →
  listLoop iter files = (out, true, e) →
  ∃ more extra rest,
    iter = (Object <$> more) ++ Object extra :: rest
    ∧ out = files ++ more
    ∧ length out = maxJobFilesToScan
    ∧ e = ErrNil.
Proof.
  revert files. induction iter as [|[name|err] iter IH]; intros files Hlen Hrun; simpl in Hrun.
  - discriminate.
  - destruct (maxJobFilesToScan <=? length files)%nat eqn:Hfull.
    + apply Nat.leb_le in Hfull. injection Hrun as <- <-.
      exists [], name, iter. rewrite app_nil_r. repeat split; simpl; lia.
    + apply Nat.leb_gt in Hfull.
      destruct (IH (files ++ [name])) as (more & extra & rest & -> & -> & Hout & ->); [|done|].
      * rewrite length_app. simpl. lia.
      * exists (name :: more), extra, rest.
        rewrite <- app_assoc in *. simpl. repeat split; try done.
  - discriminate.
Qed.

(** C5. When the object iterator of the job run's prefix yields more
    matching objects than [maxJobFilesToScan] (the first
    [maxJobFilesToScan + 1] results of [Next] are objects),
    [getJobRunFiles] returns no error, the truncation flag, and a list of
    exactly [maxJobFilesToScan] paths: the first ones listed. *)
Theorem getJobRunFiles_truncates
    (q : JobArtifactQuery Content Payload) (jobRunPath : string)
    (names : list string) (rest : list next_result) :
  Objects (GcsBucket q) (jobRunQuery q jobRunPath) = (Object <$> names) ++ rest →
  maxJobFilesToScan < length names →
  getJobRunFiles q jobRunPath = (take maxJobFilesToScan names, true, ErrNil)
  ∧ length (take maxJobFilesToScan names) = maxJobFilesToScan.
Proof.
  intros Hiter Hmore. split; [|rewrite length_take; lia].
  unfold JobArtifacts.getJobRunFiles. rewrite Hiter.
  rewrite <- (take_drop maxJobFilesToScan names) at 1.
  rewrite fmap_app, <- app_assoc.
  rewrite listLoop_objects by (rewrite length_take; simpl; lia).
  simpl.
  destruct (drop maxJobFilesToScan names) as [|extra tail] eqn:Hdrop.
  - apply (f_equal length) in Hdrop. rewrite length_drop in Hdrop. simpl in Hdrop. lia.
  - rewrite fmap_cons. simpl app. apply listLoop_full. rewrite length_take. lia.
Qed.

(** C10. When the iterator yields at most [maxJobFilesToScan] objects
    and then ends, [getJobRunFiles] returns all of them and no truncation
    flag; and whenever it returns the flag, the iterator had yielded the
    returned paths, [maxJobFilesToScan] of them, and then one more
    object, which is not in the list. *)
Theorem getJobRunFiles_boundary
    (q : JobArtifactQuery Content Payload) (jobRunPath : string) :
  (∀ names : list string,
     Objects (GcsBucket q) (jobRunQuery q jobRunPath) = Object <$> names →
     length names ≤ maxJobFilesToScan →
     getJobRunFiles q jobRunPath = (names, false, ErrNil))
  ∧ (∀ (files : list string) (e : error),
       getJobRunFiles q jobRunPath = (files, true, e) →
       ∃ extra rest,
         Objects (GcsBucket q) (jobRunQuery q jobRunPath)
           = (Object <$> files) ++ Object extra :: rest
         ∧ length files = maxJobFilesToScan
         ∧ e = ErrNil).
Proof.
  split.
  - intros names Hiter Hlen. unfold JobArtifacts.getJobRunFiles. rewrite Hiter.
    rewrite <- (app_nil_r (Object <$> names)).
    rewrite listLoop_objects by (simpl; lia). done.
  - intros files e Hrun. unfold JobArtifacts.getJobRunFiles in Hrun.
    apply listLoop_truncated in Hrun; [|simpl; lia].
    destruct Hrun as (more & extra & rest & Hiter & Hout & Hlen & He).
    simpl in Hout. subst files. eauto.
Qed.

(** C6. Without a matcher [getFileContentMatches] returns the job run
    identifier and the artifact URL and nothing else; with a matcher, a
    failure to open the object is recorded as the error string of the
    result, and a failure of the matcher is recorded as the error string
    next to the payload the matcher returned.  The function has no error
    result of its own. *)
Theorem getFileContentMatches_best_effort
    (q : JobArtifactQuery Content Payload) (jobRunID : Z) (filePath : string) :
  let artifact := getFileContentMatches q jobRunID filePath in
  JobRunID artifact = FormatInt jobRunID
  ∧ ArtifactURL artifact = artifactURL GcsBucketRoot filePath
  ∧ (Matcher q = None → MatchedContent artifact = None ∧ Error artifact = "")
  ∧ (∀ matcher err,
       Matcher q = Some matcher →
       NewReader (GcsBucket q) filePath = inl err →
       Error artifact = Error_string err ∧ MatchedContent artifact = None)
  ∧ (∀ matcher gcsReader matches err,
       Matcher q = Some matcher →
       NewReader (GcsBucket q) filePath = inr gcsReader →
       matcher gcsReader = (matches, err) →
       MatchedContent artifact = matches
       ∧ (err ≠ ErrNil → Error artifact = Error_string err)
       ∧ (err = ErrNil → Error artifact = "")).
Proof.
  unfold JobArtifacts.getFileContentMatches. cbn zeta.
  destruct (Matcher q) as [m|] eqn:Hm.
  - destruct (NewReader (GcsBucket q) filePath) as [oe|rd] eqn:Hrd.
    + repeat split; try done; intros; simplify_eq; done.
    + destruct (m rd) as [p e] eqn:Hp. simpl.
      repeat split; try done; intros; simplify_eq; try done.
      * rewrite Hp in *. by simplify_eq.
      * rewrite Hp in *. simplify_eq. by destruct err.
      * rewrite Hp in *. by simplify_eq.
  - repeat split; try done; intros; simplify_eq.
Qed.

End ScannerFacts.

(** ** The materialized view worker *)

Section MatViewFacts.

Import MatViews.

Variable dbc : DB.
Variable refreshMatviewOnlyIfEmpty : bool.

(** A view that is not skipped goes through [refreshView]; the check
    adds the count and at most a warning in front. *)
Lemma refreshOne_not_skipped (matView : string) :
  skipped dbc refreshMatviewOnlyIfEmpty matView = false →
  ∃ probe,
    refreshOne dbc refreshMatviewOnlyIfEmpty matView = probe ++ refreshView dbc matView
    ∧ List.filter is_exec probe = []
    ∧ List.filter is_error_log probe = []
    ∧ List.filter is_observe probe = [].
Proof.
  unfold skipped, refreshOne. intros Hskip.
  destruct refreshMatviewOnlyIfEmpty; simpl in *.
  - destruct (RawCount dbc (countSQL matView)) as [err|count].
    + by eexists [_; _].
    + rewrite Hskip. by exists [EvCount (countSQL matView)].
  - by exists [].
Qed.

Lemma refreshOne_skipped (matView : string) :
  skipped dbc refreshMatviewOnlyIfEmpty matView = true →
  List.filter is_exec (refreshOne dbc refreshMatviewOnlyIfEmpty matView) = [].
Proof.
  unfold skipped, refreshOne. intros Hskip.
  destruct refreshMatviewOnlyIfEmpty; [|done]. simpl in *.
  destruct (RawCount dbc (countSQL matView)) as [err|count]; [done|].
  by rewrite Hskip.
Qed.

(** C7 (amended). For every view a worker receives and does not skip
    as already populated: the worker's statements for the view are the concurrent
    refresh, followed by the blocking refresh of the same view exactly
    when the concurrent one failed; when the blocking refresh succeeds
    the timing metric of the view is observed and no error is logged;
    an error is logged exactly when both refreshes failed.  The events of
    the view are one block of the worker's trace. *)
Theorem refreshMatview_fallback (before after : list string) (matView : string) :
  skipped dbc refreshMatviewOnlyIfEmpty matView = false →
  let trace := refreshOne dbc refreshMatviewOnlyIfEmpty matView in
  let concurrent := Exec dbc (concurrentSQL matView) in
  let blocking := Exec dbc (blockingSQL matView) in
  refreshMatview dbc refreshMatviewOnlyIfEmpty (before ++ matView :: after)
    = refreshMatview dbc refreshMatviewOnlyIfEmpty before
      ++ trace ++ refreshMatview dbc refreshMatviewOnlyIfEmpty after
  ∧ List.filter is_exec trace
    = EvExec (concurrentSQL matView)
      :: (if failed concurrent then [EvExec (blockingSQL matView)] else [])
  ∧ (failed concurrent = true → failed blocking = false →
       List.filter is_observe trace = [EvObserve matView]
       ∧ List.filter is_error_log trace = [])
  ∧ (failed concurrent = false →
       List.filter is_observe trace = [EvObserve matView]
       ∧ List.filter is_error_log trace = [])
  ∧ (List.filter is_error_log trace ≠ [] ↔
       failed concurrent = true ∧ failed blocking = true).
Proof.
  intros Hskip trace concurrent blocking.
  split.
  { unfold refreshMatview. rewrite flat_map_app. done. }
  destruct (refreshOne_not_skipped matView Hskip) as (probe & Htrace & Hexec & Herr & Hobs).
  subst trace. rewrite Htrace. rewrite !List.filter_app, Hexec, Herr, Hobs. simpl.
  unfold refreshView. subst concurrent blocking.
  destruct (Exec dbc (concurrentSQL matView)) eqn:Hc;
    destruct (Exec dbc (blockingSQL matView)) eqn:Hb; simpl;
    repeat split; intros; try done; try (destruct_and?; done).
Qed.

End MatViewFacts.

(** ** The bug loader: the merge *)

Section MergeFacts.

Import BugLoader.

Context {Test ProwJob : Type} `{!EqDecision Test, !EqDecision ProwJob}.

Implicit Types (m allBugs testBugs jobBugs triageBugs : gmap Z (Bug Test ProwJob)).
Implicit Types (b : Bug Test ProwJob) (l : list (Bug Test ProwJob)).

Lemma elem_of_rangeOver m b : b ∈ rangeOver m ↔ ∃ k, m !! k = Some b.
Proof.
  unfold rangeOver. rewrite list_elem_of_fmap. split.
  - intros ([k b'] & -> & Hin). exists k. by apply elem_of_map_to_list.
  - intros [k Hk]. exists (k, b). split; [done|]. by apply elem_of_map_to_list.
Qed.

Lemma rangeOver_IDs m : keyedByID m → ID <$> rangeOver m = (map_to_list m).*1.
Proof.
  intros Hkeyed. unfold rangeOver. rewrite <- list_fmap_compose.
  apply list_fmap_ext. intros i [k b] Hin. simpl.
  apply list_elem_of_lookup_2, elem_of_map_to_list in Hin. by apply Hkeyed.
Qed.

Lemma rangeOver_NoDup m : keyedByID m → NoDup (ID <$> rangeOver m).
Proof. intros Hkeyed. rewrite rangeOver_IDs by done. apply NoDup_fst_map_to_list. Qed.

(** The first merge loop touches only the IDs it visits. *)
Lemma foldl_mergeJob_other l allBugs (k : Z) :
  k ∉ ID <$> l → foldl mergeJob allBugs l !! k = allBugs !! k.
Proof.
  revert allBugs. induction l as [|b l IH]; intros allBugs Hk; [done|].
  rewrite fmap_cons, not_elem_of_cons in Hk. destruct Hk as [Hne Hk].
  simpl. rewrite IH by done. unfold mergeJob.
  destruct (allBugs !! ID b); by rewrite lookup_insert_ne.
Qed.

Lemma foldl_mergeJob_visited l allBugs b :
  NoDup (ID <$> l) → b ∈ l →
  foldl mergeJob allBugs l !! ID b
  = Some (match allBugs !! ID b with
          | Some a => set_Jobs a (Jobs b)
          | None => b
          end).
Proof.
  revert allBugs. induction l as [|b' l IH]; intros allBugs Hdup Hin.
  - by apply elem_of_nil in Hin.
  - rewrite fmap_cons in Hdup. apply NoDup_cons in Hdup as [Hfresh Hdup].
    apply elem_of_cons in Hin as [->|Hin]; simpl.
    + rewrite foldl_mergeJob_other by done. unfold mergeJob.
      destruct (allBugs !! ID b'); by rewrite lookup_insert_eq.
    + assert (ID b ≠ ID b') as Hne.
      { intros Heq. apply Hfresh. rewrite <- Heq. by apply list_elem_of_fmap_2. }
      rewrite IH by done. unfold mergeJob.
      destruct (allBugs !! ID b'); by rewrite lookup_insert_ne.
Qed.

(** The second merge loop never changes a record that is present. *)
Lemma foldl_mergeTriage_present l allBugs (k : Z) b :
  allBugs !! k = Some b → foldl mergeTriage allBugs l !! k = Some b.
Proof.
  revert allBugs. induction l as [|b' l IH]; intros allBugs Hk; [done|].
  simpl. apply IH. unfold mergeTriage.
  destruct (allBugs !! ID b') eqn:Hb'; [done|].
  rewrite lookup_insert_ne; [done|]. intros <-. congruence.
Qed.

Lemma foldl_mergeTriage_other l allBugs (k : Z) :
  k ∉ ID <$> l → foldl mergeTriage allBugs l !! k = allBugs !! k.
Proof.
  revert allBugs. induction l as [|b l IH]; intros allBugs Hk; [done|].
  rewrite fmap_cons, not_elem_of_cons in Hk. destruct Hk as [Hne Hk].
  simpl. rewrite IH by done. unfold mergeTriage.
  destruct (allBugs !! ID b); [done|]. by rewrite lookup_insert_ne.
Qed.

Lemma foldl_mergeTriage_absent l allBugs b :
  NoDup (ID <$> l) → b ∈ l → allBugs !! ID b = None →
  foldl mergeTriage allBugs l !! ID b = Some b.
Proof.
  revert allBugs. induction l as [|b' l IH]; intros allBugs Hdup Hin Hnone.
  - by apply elem_of_nil in Hin.
  - rewrite fmap_cons in Hdup. apply NoDup_cons in Hdup as [Hfresh Hdup].
    apply elem_of_cons in Hin as [->|Hin]; simpl.
    + apply foldl_mergeTriage_present. unfold mergeTriage.
      rewrite Hnone. by rewrite lookup_insert_eq.
    + assert (ID b ≠ ID b') as Hne.
      { intros Heq. apply Hfresh. rewrite <- Heq. by apply list_elem_of_fmap_2. }
      apply IH; [done..|]. unfold mergeTriage.
      destruct (allBugs !! ID b'); [done|]. by rewrite lookup_insert_ne.
Qed.

(** The order in which the maps are ranged over does not matter. *)
Lemma foldl_mergeJob_perm l l' allBugs :
  l ≡ₚ l' → NoDup (ID <$> l) → foldl mergeJob allBugs l = foldl mergeJob allBugs l'.
Proof.
  intros Hperm Hdup. assert (NoDup (ID <$> l')) as Hdup' by by rewrite <- Hperm.
  apply map_eq. intros k. destruct (decide (k ∈ ID <$> l)) as [Hin|Hout].
  - apply list_elem_of_fmap in Hin as (b & -> & Hb).
    rewrite !foldl_mergeJob_visited; [done|done|by rewrite <- Hperm|done|done].
  - rewrite !foldl_mergeJob_other; [done|by rewrite <- Hperm|done].
Qed.

Lemma foldl_mergeTriage_perm l l' allBugs :
  l ≡ₚ l' → NoDup (ID <$> l) → foldl mergeTriage allBugs l = foldl mergeTriage allBugs l'.
Proof.
  intros Hperm Hdup. assert (NoDup (ID <$> l')) as Hdup' by by rewrite <- Hperm.
  apply map_eq. intros k. destruct (allBugs !! k) as [a|] eqn:Ha.
  - by rewrite !(foldl_mergeTriage_present _ _ _ a).
  - destruct (decide (k ∈ ID <$> l)) as [Hin|Hout].
    + apply list_elem_of_fmap in Hin as (b & -> & Hb).
      rewrite !foldl_mergeTriage_absent; [done|done|by rewrite <- Hperm|done..].
    + rewrite !foldl_mergeTriage_other; [done|by rewrite <- Hperm|done].
Qed.

(** The merged set, ID by ID. *)
Lemma mergeJobs_lookup testBugs jobBugs (id : Z) :
  keyedByID jobBugs →
  mergeJobs testBugs jobBugs !! id
  = match jobBugs !! id with
    | Some j => Some (match testBugs !! id with
                      | Some t => set_Jobs t (Jobs j)
                      | None => j
                      end)
    | None => testBugs !! id
    end.
Proof.
  intros Hkeyed. unfold mergeJobs.
  destruct (jobBugs !! id) as [j|] eqn:Hj.
  - pose proof (Hkeyed _ _ Hj) as Hid. subst id.
    apply foldl_mergeJob_visited; [by apply rangeOver_NoDup|].
    apply elem_of_rangeOver. eauto.
  - apply foldl_mergeJob_other. rewrite rangeOver_IDs by done.
    intros Hin. apply list_elem_of_fmap in Hin as ([k b] & -> & Hin).
    apply elem_of_map_to_list in Hin. simpl in Hj. congruence.
Qed.

Lemma mergeBugs_lookup testBugs jobBugs triageBugs (id : Z) :
  keyedByID jobBugs → keyedByID triageBugs →
  mergeBugs testBugs jobBugs triageBugs !! id
  = match mergeJobs testBugs jobBugs !! id with
    | Some b => Some b
    | None => triageBugs !! id
    end.
Proof.
  intros Hjobs Htriage. unfold mergeBugs. fold (mergeJobs testBugs jobBugs).
  destruct (mergeJobs testBugs jobBugs !! id) as [b|] eqn:Hb.
  - by apply foldl_mergeTriage_present.
  - destruct (triageBugs !! id) as [t|] eqn:Ht.
    + pose proof (Htriage _ _ Ht) as Hid. subst id.
      apply foldl_mergeTriage_absent; [by apply rangeOver_NoDup| |done].
      apply elem_of_rangeOver. eauto.
    + rewrite foldl_mergeTriage_other; [done|]. rewrite rangeOver_IDs by done.
      intros Hin. apply list_elem_of_fmap in Hin as ([k b] & -> & Hin).
      apply elem_of_map_to_list in Hin. simpl in Ht. congruence.
Qed.

(** C1. In the merge of [Load]: a ticket of both the test mappings and
    the job mappings keeps the record of the test mappings with its
    [Jobs] replaced by the [Jobs] of the job mappings, whatever they are;
    a ticket of the job mappings alone is inserted as it is; and a record
    that is present when the triage mappings are merged is left as it
    is. *)
Theorem mergeBugs_precedence testBugs jobBugs triageBugs :
  keyedByID jobBugs → keyedByID triageBugs →
  let allBugs := mergeBugs testBugs jobBugs triageBugs in
  (∀ (id : Z) t j,
     testBugs !! id = Some t → jobBugs !! id = Some j →
     ∃ b, allBugs !! id = Some b
          ∧ Jobs b = Jobs j ∧ Tests b = Tests t ∧ b = set_Jobs t (Jobs j))
  ∧ (∀ (id : Z) j,
       testBugs !! id = None → jobBugs !! id = Some j → allBugs !! id = Some j)
  ∧ (∀ (id : Z) b,
       mergeJobs testBugs jobBugs !! id = Some b → allBugs !! id = Some b).
Proof.
  intros Hjobs Htriage allBugs. subst allBugs. repeat split.
  - intros id t j Ht Hj. exists (set_Jobs t (Jobs j)).
    rewrite mergeBugs_lookup, mergeJobs_lookup, Hj, Ht by done. done.
  - intros id j Ht Hj.
    rewrite mergeBugs_lookup, mergeJobs_lookup, Hj, Ht by done. done.
  - intros id b Hb. rewrite mergeBugs_lookup, Hb by done. done.
Qed.

End MergeFacts.

(** ** The bug loader: URLs and keys *)

Section URLFacts.

Import BugLoader.

Lemma Contains_append (sep : ascii) (p s : string) :
  Contains sep (p +:+ s) = Contains sep p || Contains sep s.
Proof. induction p as [|c p IH]; simpl; [done|]. rewrite IH. by rewrite orb_assoc. Qed.

Lemma Cut_absent (sep : ascii) (s : string) :
  Contains sep s = false → Cut sep s = (s, EmptyString, false).
Proof.
  induction s as [|c s IH]; simpl; [done|].
  intros H. apply orb_false_iff in H as [Hc Hs]. rewrite Hc, IH by done. done.
Qed.

Lemma Count_absent (sep : ascii) (s : string) :
  Contains sep s = false → Count sep s = 0.
Proof.
  induction s as [|c s IH]; simpl; [done|].
  intros H. apply orb_false_iff in H as [Hc Hs]. rewrite Hc, IH by done. done.
Qed.

Lemma append_empty_r (s : string) : s +:+ EmptyString = s.
Proof.
  induction s as [|c s IH]; [done|].
  change (String c (s +:+ EmptyString) = String c s). by rewrite IH.
Qed.

Lemma append_snoc (cur s : string) (c : ascii) :
  (cur +:+ String c EmptyString) +:+ s = cur +:+ String c s.
Proof.
  induction cur as [|d cur IH]; [done|].
  change (String d ((cur +:+ String c EmptyString) +:+ s) = String d (cur +:+ String c s)).
  by rewrite IH.
Qed.

Lemma splitLoop_absent (sep : ascii) (s cur : string) :
  Contains sep s = false → splitLoop sep s cur = [cur +:+ s].
Proof.
  revert cur. induction s as [|c s IH]; intros cur; simpl.
  - intros _. by rewrite append_empty_r.
  - intros H. apply orb_false_iff in H as [Hc Hs]. rewrite Hc, IH by done.
    by rewrite append_snoc.
Qed.

Lemma unescapeCheck_absent (s : string) :
  Contains "%" s = false → unescapeCheck encodePath s 0 = ErrNil.
Proof.
  induction s as [|c s IH]; simpl; [done|].
  intros H. apply orb_false_iff in H as [Hc Hs]. rewrite Hc. simpl. by apply IH.
Qed.

Lemma unescape_absent (s : string) :
  Contains "%" s = false → unescape s encodePath = Ok s.
Proof. intros H. unfold unescape. by rewrite unescapeCheck_absent, H. Qed.

Lemma stringContainsCTLByte_append (p s : string) :
  stringContainsCTLByte (p +:+ s) = stringContainsCTLByte p || stringContainsCTLByte s.
Proof. induction p as [|c p IH]; simpl; [done|]. rewrite IH. by rewrite !orb_assoc. Qed.

(** What [safeKey] says, byte class by byte class. *)
Lemma safeKey_spec (key : string) :
  safeKey key = true →
  Contains "/" key = false ∧ Contains "?" key = false ∧ Contains "#" key = false
  ∧ Contains "%" key = false ∧ stringContainsCTLByte key = false.
Proof.
  induction key as [|c key IH]; simpl; [done|].
  intros H. apply andb_true_iff in H as [Hc Hkey].
  destruct (IH Hkey) as (H1 & H2 & H3 & H4 & H5).
  rewrite H1, H2, H3, H4, H5. unfold safeByte in Hc.
  repeat (apply andb_true_iff in Hc as [Hc ?]).
  repeat match goal with H : negb _ = true |- _ => apply negb_true_iff in H end.
  repeat match goal with H : _ || _ = false |- _ => apply orb_false_iff in H as [? ?] end.
  rewrite Hc. by repeat match goal with H : _ = false |- _ => rewrite H end.
Qed.

(** The path [url.Parse] finds in the URL of a safe key. *)
Lemma url_Parse_bugURL (key : string) :
  safeKey key = true →
  url_Parse (bugURL key)
  = Ok {| Scheme := "https"; Opaque := ""; Host := "issues.redhat.com";
          Path := "/browse/" +:+ key; RawQuery := ""; Fragment := "" |}.
Proof.
  intros Hsafe. destruct (safeKey_spec key Hsafe) as (Hslash & Hquery & Hfrag & Hesc & Hctl).
  unfold url_Parse.
  rewrite Cut_absent by (unfold bugURL; rewrite Contains_append, Hfrag; reflexivity).
  unfold parse.
  replace (stringContainsCTLByte (bugURL key)) with false
    by (unfold bugURL; rewrite stringContainsCTLByte_append, Hctl; reflexivity).
  destruct (decide (bugURL key = "*")) as [Hstar|_]; [discriminate Hstar|].
  change (getScheme (bugURL key)) with
    (Ok ("https", "//issues.redhat.com/browse/" +:+ key) : result (string * string)).
  cbv beta iota.
  rewrite Count_absent by (rewrite Contains_append, Hquery; reflexivity).
  rewrite andb_false_r.
  rewrite Cut_absent by (rewrite Contains_append, Hquery; reflexivity).
  cbv beta iota zeta.
  change (HasPrefix "/" ("//issues.redhat.com/browse/" +:+ key)) with true.
  change (HasPrefix "//" ("//issues.redhat.com/browse/" +:+ key)) with true.
  change (String.eqb "https" "") with false.
  change (dropBytes 2 ("//issues.redhat.com/browse/" +:+ key))
    with ("issues.redhat.com/browse/" +:+ key).
  change (Cut "/" ("issues.redhat.com/browse/" +:+ key))
    with ("issues.redhat.com", "browse/" +:+ key, true).
  cbv beta iota zeta.
  change (parseAuthority "issues.redhat.com") with (Ok "issues.redhat.com" : result string).
  cbv beta iota.
  change (String "/" ("browse/" +:+ key)) with ("/browse/" +:+ key).
  rewrite unescape_absent by (rewrite Contains_append, Hesc; reflexivity).
  done.
Qed.

Lemma bugKeyOfPath_browse (key : string) :
  Contains "/" key = false → bugKeyOfPath ("/browse/" +:+ key) = Ok key.
Proof.
  intros Hslash. unfold bugKeyOfPath, Split.
  change (splitLoop "/" ("/browse/" +:+ key) "")
    with ("" :: "browse" :: splitLoop "/" key "").
  rewrite splitLoop_absent by done. reflexivity.
Qed.

End URLFacts.

Section RoundTrip.

Import BugLoader Samples.

(** C9 (amended). The URL [bigQueryBugToModel] builds from a key that
    holds no [/], [?], [#], [%] and no ASCII control character is parsed
    back by [parseBugKeyFromURL] to that key, without error; and every
    URL whose path has fewer than three segments, or a segment before
    the last other than [browse], is refused with an error, as is every
    URL that [url.Parse] refuses. *)
Theorem parseBugKeyFromURL_roundtrip (Test ProwJob : Type) (now : Z) (bqBug : bigQueryBug) :
  (safeKey (bq_Key bqBug) = true →
   parseBugKeyFromURL (URL (@bigQueryBugToModel Test ProwJob now bqBug)) = Ok (bq_Key bqBug))
  ∧ (∀ (jiraURL : string) (parsedURL : url_URL),
       url_Parse jiraURL = Ok parsedURL →
       let pathSegments := Split (Path parsedURL) "/" in
       length pathSegments < 3
       ∨ nth (length pathSegments - 2) pathSegments EmptyString ≠ "browse" →
       parseBugKeyFromURL jiraURL = Fail (Err "invalid Jira URL format"))
  ∧ (∀ (jiraURL : string) (err : error),
       url_Parse jiraURL = Fail err → parseBugKeyFromURL jiraURL = Fail err).
Proof.
  split; [|split]; [| |intros jiraURL err Hparse; unfold parseBugKeyFromURL; by rewrite Hparse].
  - intros Hsafe. simpl. unfold parseBugKeyFromURL.
    rewrite url_Parse_bugURL by done. simpl.
    apply bugKeyOfPath_browse. by apply safeKey_spec.
  - intros jiraURL parsedURL Hparse pathSegments Hbad.
    unfold parseBugKeyFromURL. rewrite Hparse. unfold bugKeyOfPath.
    fold pathSegments. destruct Hbad as [Hshort|Hseg].
    + apply Nat.ltb_lt in Hshort. by rewrite Hshort.
    + apply String.eqb_neq in Hseg. rewrite Hseg. by rewrite orb_true_r.
Qed.

Lemma parseBugKeyFromURL_roundtrip_witness :
  parseBugKeyFromURL
    (URL (@bigQueryBugToModel string string 0 (sampleRow "12345" "unit-test-foo" "OCPBUGS-12345" true)))
  = Ok "OCPBUGS-12345"
  ∧ parseBugKeyFromURL "https://issues.redhat.com/issues/OCPBUGS-12345"
    = Fail (Err "invalid Jira URL format").
Proof.
  destruct (parseBugKeyFromURL_roundtrip string string 0
              (sampleRow "12345" "unit-test-foo" "OCPBUGS-12345" true)) as (Hround & Hbad & _).
  split.
  - apply Hround. reflexivity.
  - eapply Hbad; [reflexivity|]. right. simpl. discriminate.
Defined.

(** A key without a path separator that does not come back: the query
    mark ends the path. *)
Lemma parseBugKeyFromURL_query_key :
  Contains "/" "OCPBUGS-1?focused=7" = false
  ∧ parseBugKeyFromURL
      (URL (@bigQueryBugToModel string string 0
              (sampleRow "12345" "unit-test-foo" "OCPBUGS-1?focused=7" true)))
    = Ok "OCPBUGS-1"
  ∧ parseBugKeyFromURL
      (URL (@bigQueryBugToModel string string 0
              (sampleRow "12345" "unit-test-foo" "OCPBUGS-1?focused=7" true)))
    ≠ Ok "OCPBUGS-1?focused=7".
Proof. split; [reflexivity|split; [reflexivity|discriminate]]. Qed.

End RoundTrip.

(** ** The bug loader: the mapping loops *)

Section LoopFacts.

Import BugLoader Samples.

Context {Test ProwJob : Type} `{!EqDecision Test, !EqDecision ProwJob}.

Implicit Types (st : LoopState Test ProwJob) (row : bigQueryBug) (clock : nat → Z).
Implicit Types (testCache : gmap string Test) (jobCache : gmap string ProwJob).

Lemma ensureBug_keyed clock row st :
  keyedByID st.1 → keyedByID (ensureBug clock row st).1.
Proof.
  intros Hkeyed. unfold ensureBug. destruct (st.1 !! bq_ID row) eqn:Hrow; [done|].
  simpl. intros k b Hk. apply lookup_insert_Some in Hk as [[<- <-]|[_ Hk]]; [done|].
  by apply Hkeyed.
Qed.

Lemma alter_keyed (m : gmap Z (Bug Test ProwJob)) (f : Bug Test ProwJob → Bug Test ProwJob) (id : Z) :
  (∀ b, ID (f b) = ID b) → keyedByID m → keyedByID (alter f id m).
Proof.
  intros Hf Hkeyed k b Hk. apply lookup_alter_Some in Hk as [(<- & a & Ha & ->)|[_ Hk]].
  - rewrite Hf. by apply Hkeyed.
  - by apply Hkeyed.
Qed.

Lemma testRow_keyed clock testCache row st :
  keyedByID st.1 → keyedByID (testRow clock testCache row st).1.
Proof.
  intros Hkeyed. unfold testRow.
  destruct (_ || _); [done|]. destruct (Atoi _) as [intID|err]; [|done].
  simpl. destruct (testCache !! _); [|done]. simpl.
  apply alter_keyed; [done|]. by apply ensureBug_keyed.
Qed.

Lemma jobRow_keyed clock jobCache row st :
  keyedByID st.1 → keyedByID (jobRow clock jobCache row st).1.
Proof.
  intros Hkeyed. unfold jobRow.
  destruct (_ || _); [done|]. destruct (Atoi _) as [intID|err]; [|done].
  simpl. destruct (jobCache !! _); [|done]. simpl.
  apply alter_keyed; [done|]. by apply ensureBug_keyed.
Qed.

Lemma triageRow_keyed clock row st :
  keyedByID st.1 → keyedByID (triageRow clock row st).1.
Proof.
  intros Hkeyed. unfold triageRow.
  destruct (String.eqb _ _); [done|]. destruct (Atoi _) as [intID|err]; [|done].
  by apply ensureBug_keyed.
Qed.

(** A property of the working set that every row keeps holds when the
    loop ends. *)
Lemma iterate_invariant (P : gmap Z (Bug Test ProwJob) → Prop)
    (body : bigQueryBug → LoopState Test ProwJob → LoopState Test ProwJob)
    (it : RowIterator) st m bl :
  (∀ row st, P st.1 → P (body row st).1) →
  P st.1 → iterate body it st = (Ok m, bl) → P m.
Proof.
  intros Hbody. revert st. induction it as [|[row|err] it IH]; intros st HP Hrun; simpl in Hrun.
  - by simplify_eq.
  - eapply IH; [|done]. by apply Hbody.
  - discriminate.
Qed.

Lemma runQuery_keyed
    (body : bigQueryBug → LoopState Test ProwJob → LoopState Test ProwJob)
    (q : QueryResult) (bl bl' : BugLoader) m :
  (∀ row st, keyedByID st.1 → keyedByID (body row st).1) →
  runQuery body q bl = (Ok m, bl') → keyedByID m.
Proof.
  intros Hbody Hrun. destruct q as [it|err]; [|discriminate].
  eapply (iterate_invariant keyedByID); [done| |done].
  intros k b Hk. simpl in Hk. by rewrite lookup_empty in Hk.
Qed.

(** A loop over rows that were all read ends without a fatal error. *)
Lemma iterate_rows_Ok
    (body : bigQueryBug → LoopState Test ProwJob → LoopState Test ProwJob)
    (rows : list bigQueryBug) st :
  ∃ m bl, iterate body (Ok <$> rows) st = (Ok m, bl).
Proof.
  revert st. induction rows as [|row rows IH]; intros st; simpl; [by eauto|]. apply IH.
Qed.

(** C8 (amended). In the loops of [getTestBugMappings] and
    [getJobBugMappings]: a row whose Jira ID or link name is empty is
    skipped and leaves the working set and the error list as they are;
    a row with both and an ID that [strconv.Atoi] refuses leaves the
    working set as it is and adds one error to the list; in both cases
    the loop goes on with the next row, and a loop over rows that were
    all read returns its working set and no error. *)
Theorem unparseable_id_skipped clock testCache jobCache row st :
  (bq_JiraID row = "" ∨ bq_LinkName row = "" →
     testRow clock testCache row st = st ∧ jobRow clock jobCache row st = st)
  ∧ (∀ err, bq_JiraID row ≠ "" → bq_LinkName row ≠ "" →
       Atoi (bq_JiraID row) = Fail err →
       testRow clock testCache row st
         = (st.1, add_error st.2 (convertError err (bq_JiraID row)))
       ∧ jobRow clock jobCache row st
         = (st.1, add_error st.2 (convertError err (bq_JiraID row))))
  ∧ (∀ rest,
       iterate (testRow clock testCache) (Ok row :: rest) st
         = iterate (testRow clock testCache) rest (testRow clock testCache row st)
       ∧ iterate (jobRow clock jobCache) (Ok row :: rest) st
         = iterate (jobRow clock jobCache) rest (jobRow clock jobCache row st))
  ∧ (∀ rows,
       (∃ m bl, iterate (testRow clock testCache) (Ok <$> rows) st = (Ok m, bl))
       ∧ (∃ m bl, iterate (jobRow clock jobCache) (Ok <$> rows) st = (Ok m, bl))).
Proof.
  split; [|split; [|split]].
  - intros Hmissing. unfold testRow, jobRow.
    destruct Hmissing as [->| ->]; [done|]. by rewrite orb_true_r.
  - intros err Hid Hlink Hparse. unfold testRow, jobRow.
    apply String.eqb_neq in Hid, Hlink. by rewrite Hid, Hlink, Hparse.
  - done.
  - intros rows. split; apply iterate_rows_Ok.
Qed.

End LoopFacts.

(** ** The bug loader: the store *)

Section StoreFacts.

Import BugLoader Samples.

Context {Test ProwJob : Type} `{!EqDecision Test, !EqDecision ProwJob}.

Implicit Types (r : Run Test ProwJob) (bug b : Bug Test ProwJob) (faults : Faults).
Implicit Types (tbl allBugs : gmap Z (Bug Test ProwJob)) (l : list (Bug Test ProwJob)).
Implicit Types (t : Triage Test ProwJob) (triages : list (Triage Test ProwJob)).

(** The persist loop body rewrites the row of its bug and nothing else. *)
Lemma persistBug_lookup faults r bug (k : Z) :
  r_bugs (persistBug faults r bug) !! k
  = if decide (k = ID bug) then persistRow faults bug (r_bugs r !! k) else r_bugs r !! k.
Proof.
  unfold persistBug, persistRow, upsert, replaceTests, replaceJobs.
  destruct (createFails faults (ID bug)); simpl;
    try (by case_decide);
    destruct (replaceTestsFails faults (ID bug)); simpl;
    try (case_decide as Hk;
         [subst k; rewrite ?lookup_alter_eq, ?lookup_insert_eq
         |rewrite ?lookup_alter_ne, ?lookup_insert_ne by done]; done);
    destruct (replaceJobsFails faults (ID bug)); simpl;
    case_decide as Hk;
    try (subst k; rewrite ?lookup_alter_eq, ?lookup_insert_eq; done);
    rewrite ?lookup_alter_ne, ?lookup_insert_ne by done; done.
Qed.

Lemma persistBug_triages faults r bug :
  r_triages (persistBug faults r bug) = r_triages r.
Proof.
  unfold persistBug.
  destruct (createFails faults (ID bug)); simpl; try done;
    destruct (replaceTestsFails faults (ID bug)); simpl; try done;
    destruct (replaceJobsFails faults (ID bug)); done.
Qed.

Lemma foldl_persistBug_triages faults l r :
  r_triages (foldl (persistBug faults) r l) = r_triages r.
Proof.
  revert r. induction l as [|b l IH]; intros r; simpl; [done|].
  by rewrite IH, persistBug_triages.
Qed.

Lemma foldl_persistBug_other faults l r (k : Z) :
  k ∉ ID <$> l → r_bugs (foldl (persistBug faults) r l) !! k = r_bugs r !! k.
Proof.
  revert r. induction l as [|b l IH]; intros r Hk; [done|].
  rewrite fmap_cons, not_elem_of_cons in Hk. destruct Hk as [Hne Hk].
  simpl. rewrite IH by done. rewrite persistBug_lookup. by case_decide.
Qed.

Lemma foldl_persistBug_visited faults l r bug :
  NoDup (ID <$> l) → bug ∈ l →
  r_bugs (foldl (persistBug faults) r l) !! ID bug
  = persistRow faults bug (r_bugs r !! ID bug).
Proof.
  revert r. induction l as [|b l IH]; intros r Hdup Hin.
  - by apply elem_of_nil in Hin.
  - rewrite fmap_cons in Hdup. apply NoDup_cons in Hdup as [Hfresh Hdup].
    apply elem_of_cons in Hin as [->|Hin]; simpl.
    + rewrite foldl_persistBug_other by done. rewrite persistBug_lookup. by case_decide.
    + assert (ID bug ≠ ID b) as Hne.
      { intros Heq. apply Hfresh. rewrite <- Heq. by apply list_elem_of_fmap_2. }
      rewrite IH by done. rewrite persistBug_lookup. by case_decide.
Qed.

(** The bugs table after the persist loop does not depend on the order
    in which the bugs are visited. *)
Lemma foldl_persistBug_perm faults l l' r :
  l ≡ₚ l' → NoDup (ID <$> l) →
  r_bugs (foldl (persistBug faults) r l) = r_bugs (foldl (persistBug faults) r l').
Proof.
  intros Hperm Hdup. assert (NoDup (ID <$> l')) as Hdup' by by rewrite <- Hperm.
  apply map_eq. intros k. destruct (decide (k ∈ ID <$> l)) as [Hin|Hout].
  - apply list_elem_of_fmap in Hin as (b & -> & Hb).
    rewrite !foldl_persistBug_visited; [done|done|by rewrite <- Hperm|done|done].
  - rewrite !foldl_persistBug_other; [done|by rewrite <- Hperm|done].
Qed.

(** The triage loop does not write the bugs table. *)
Lemma relink_bugs faults t r : r_bugs (relink faults t r) = r_bugs r.
Proof.
  unfold relink. destruct (First faults (r_bugs r) (t_URL t)); [|done].
  by destruct (saveFails faults (t_ID t)).
Qed.

Lemma foldl_relinkTriage_None faults triages :
  foldl (relinkTriage faults) None triages = @None (Run Test ProwJob).
Proof. induction triages as [|t triages IH]; [done|]. simpl. apply IH. Qed.

Lemma foldl_relinkTriage_bugs faults triages r r' :
  foldl (relinkTriage faults) (Some r) triages = Some r' → r_bugs r' = r_bugs r.
Proof.
  revert r. induction triages as [|t triages IH]; intros r Hrun; simpl in Hrun.
  - by simplify_eq.
  - destruct (linkedProperly t) as [[|]|].
    + by apply IH.
    + rewrite (IH _ Hrun). apply relink_bugs.
    + by rewrite foldl_relinkTriage_None in Hrun.
Qed.

(** The delete statement with at least one expected ID. *)
Lemma deleteNotIn_cons (ids : list Z) tbl :
  ids ≠ [] → deleteNotIn ids tbl = filter (fun kv => kv.1 ∈ ids) tbl.
Proof. by destruct ids. Qed.

(** The bugs table after the persist loop and the delete. *)
Lemma deleteStale_lookup faults allBugs r (k : Z) :
  keyedByID allBugs →
  r_bugs (deleteStale faults (ID <$> rangeOver allBugs)
            (run_log (foldl (persistBug faults) r (rangeOver allBugs))
               (Log LInfo "created or updated bugs"
                  (FormatInt (Z.of_nat (length (ID <$> rangeOver allBugs))))))) !! k
  = syncRow faults allBugs k (r_bugs r !! k).
Proof.
  intros Hkeyed. unfold deleteStale, syncRow.
  assert (k ∈ ID <$> rangeOver allBugs ↔ is_Some (allBugs !! k)) as Hdom.
  { rewrite rangeOver_IDs by done. rewrite list_elem_of_fmap. split.
    - intros ([k' b] & -> & Hin). apply elem_of_map_to_list in Hin. by eexists.
    - intros [b Hb]. exists (k, b). split; [done|]. by apply elem_of_map_to_list. }
  assert (r_bugs (foldl (persistBug faults) r (rangeOver allBugs)) !! k
          = match allBugs !! k with
            | Some bug => persistRow faults bug (r_bugs r !! k)
            | None => r_bugs r !! k
            end) as Hpersist.
  { destruct (allBugs !! k) as [bug|] eqn:Hbug.
    - pose proof (Hkeyed _ _ Hbug) as Hid. subst k.
      apply foldl_persistBug_visited; [by apply rangeOver_NoDup|].
      apply elem_of_rangeOver. eauto.
    - apply foldl_persistBug_other. rewrite Hdom. by intros [? ?]. }
  destruct (deleteFails faults) eqn:Hdel; simpl;
    try (rewrite Hpersist; by destruct (allBugs !! k)).
  destruct (decide (rangeOver allBugs = [])) as [Hnil|Hcons].
  - rewrite Hnil in *. simpl in *.
    destruct (allBugs !! k) as [bug|] eqn:Hbug; [|done].
    assert (k ∈ @nil Z) as Hin by (apply Hdom; eauto).
    by apply elem_of_nil in Hin.
  - rewrite deleteNotIn_cons by (by destruct (rangeOver allBugs)).
    rewrite map_lookup_filter, Hpersist.
    destruct (allBugs !! k) as [bug|] eqn:Hbug.
    + destruct (persistRow faults bug (r_bugs r !! k)) as [row|]; [|done]. simpl.
      rewrite option_guard_True; [done|]. simpl. apply Hdom. eauto.
    + destruct (r_bugs r !! k) as [row|]; [|done]. simpl.
      rewrite option_guard_False; [done|]. simpl. rewrite Hdom. by intros [? ?].
Qed.

Lemma reconcile_bugs faults testBugs jobBugs triageBugs triages r r' (k : Z) :
  keyedByID (mergeBugs testBugs jobBugs triageBugs) →
  reconcile faults testBugs jobBugs triageBugs triages r = Some r' →
  r_bugs r' !! k = syncRow faults (mergeBugs testBugs jobBugs triageBugs) k (r_bugs r !! k).
Proof.
  intros Hkeyed Hrun. unfold reconcile in Hrun.
  apply foldl_relinkTriage_bugs in Hrun. rewrite Hrun. simpl.
  set (r0 := run_log r _).
  change (r_bugs r !! k) with (r_bugs r0 !! k).
  by apply deleteStale_lookup.
Qed.

End StoreFacts.

(** ** The bug loader: two runs on the same sources *)

Section FetchFacts.

Import BugLoader Samples.

Context {Test ProwJob : Type} `{!EqDecision Test, !EqDecision ProwJob}.

Implicit Types (st : LoopState Test ProwJob) (row : bigQueryBug) (clock : nat → Z).
Implicit Types (env : Env Test ProwJob) (r : Run Test ProwJob).
Implicit Types (triages : list (Triage Test ProwJob)).

(** With a valid timestamp the clock is not read into the model. *)
Lemma bigQueryBugToModel_valid (now now' : Z) row :
  Valid (bq_LastChangedTime row) = true →
  @bigQueryBugToModel Test ProwJob now row = bigQueryBugToModel now' row.
Proof. intros Hvalid. unfold bigQueryBugToModel. by rewrite Hvalid. Qed.

Lemma ensureBug_clock clock clock' row st st' :
  Valid (bq_LastChangedTime row) = true → st.1 = st'.1 →
  (ensureBug clock row st).1 = (ensureBug clock' row st').1.
Proof.
  intros Hvalid Hst. unfold ensureBug. rewrite <- Hst.
  destruct (st.1 !! bq_ID row); [done|]. simpl.
  by rewrite (bigQueryBugToModel_valid _ (clock' (ticks st'.2))).
Qed.

Lemma testRow_clock clock clock' (testCache : gmap string Test) row st st' :
  Valid (bq_LastChangedTime row) = true → st.1 = st'.1 →
  (testRow clock testCache row st).1 = (testRow clock' testCache row st').1.
Proof.
  intros Hvalid Hst. unfold testRow.
  destruct (_ || _); [done|]. destruct (Atoi _) as [intID|err]; [|done].
  simpl. destruct (testCache !! _); [|done]. simpl.
  by rewrite (ensureBug_clock clock clock' _ st st').
Qed.

Lemma jobRow_clock clock clock' (jobCache : gmap string ProwJob) row st st' :
  Valid (bq_LastChangedTime row) = true → st.1 = st'.1 →
  (jobRow clock jobCache row st).1 = (jobRow clock' jobCache row st').1.
Proof.
  intros Hvalid Hst. unfold jobRow.
  destruct (_ || _); [done|]. destruct (Atoi _) as [intID|err]; [|done].
  simpl. destruct (jobCache !! _); [|done]. simpl.
  by rewrite (ensureBug_clock clock clock' _ st st').
Qed.

Lemma triageRow_clock clock clock' row st st' :
  Valid (bq_LastChangedTime row) = true → st.1 = st'.1 →
  (triageRow clock row st).1 = (triageRow clock' row st').1.
Proof.
  intros Hvalid Hst. unfold triageRow.
  destruct (String.eqb _ _); [done|]. destruct (Atoi _) as [intID|err]; [|done].
  by apply ensureBug_clock.
Qed.

(** Two loops whose bodies agree on the working set return the same set. *)
Lemma iterate_agree
    (body body' : bigQueryBug → LoopState Test ProwJob → LoopState Test ProwJob)
    (it : RowIterator) st st' :
  (∀ row st st', Valid (bq_LastChangedTime row) = true → st.1 = st'.1 →
                 (body row st).1 = (body' row st').1) →
  forallb rowValid it = true → st.1 = st'.1 →
  (iterate body it st).1 = (iterate body' it st').1.
Proof.
  intros Hbody. revert st st'.
  induction it as [|[row|err] it IH]; intros st st' Hvalid Hst; simpl.
  - by rewrite Hst.
  - simpl in Hvalid. apply andb_true_iff in Hvalid as [Hrow Hit].
    apply IH; [done|]. by apply Hbody.
  - done.
Qed.

Lemma runQuery_agree
    (body body' : bigQueryBug → LoopState Test ProwJob → LoopState Test ProwJob)
    (q : QueryResult) (bl bl' : BugLoader) :
  (∀ row st st', Valid (bq_LastChangedTime row) = true → st.1 = st'.1 →
                 (body row st).1 = (body' row st').1) →
  rowsValid q = true →
  (runQuery body q bl).1 = (runQuery body' q bl').1.
Proof.
  intros Hbody Hvalid. destruct q as [it|err]; [|done].
  simpl. by apply iterate_agree.
Qed.

(** The keys asked of the warehouse depend on the URLs of the triages only. *)
Lemma triageKeys_URLs triages triages' :
  t_URL <$> triages' = t_URL <$> triages → triageKeys triages' = triageKeys triages.
Proof.
  revert triages'. induction triages as [|t triages IH]; intros [|t' triages'] Heq;
    try done.
  rewrite !fmap_cons in Heq. injection Heq as Hurl Hrest.
  simpl. rewrite Hurl. by rewrite (IH _ Hrest).
Qed.

(** What a completed first part of [Load] has done. *)
Lemma fetch_inv env r testBugs jobBugs triageBugs triages r1 :
  fetch env r = Fetched testBugs jobBugs triageBugs triages r1 →
  ∃ testCache jobCache bl1 bl2 bl3,
    LoadTestCache env = Ok testCache
    ∧ getTestBugMappings (clock env) (testQuery env) testCache (r_bl r) = (Ok testBugs, bl1)
    ∧ LoadProwJobCache env = Ok jobCache
    ∧ getJobBugMappings (clock env) (jobQuery env) jobCache bl1 = (Ok jobBugs, bl2)
    ∧ ListTriages env = Ok triages
    ∧ getTriageBugMappings (clock env) (triageQuery env) triages bl2 = (Ok triageBugs, bl3)
    ∧ r_bugs r1 = r_bugs r ∧ r_triages r1 = r_triages r.
Proof.
  unfold fetch. intros Hfetch.
  destruct (LoadTestCache env) as [testCache|]; [|done].
  destruct (getTestBugMappings _ _ _ _) as [[tb|] bl1] eqn:Htest; [|done].
  destruct (LoadProwJobCache env) as [jobCache|]; [|done].
  simpl in Hfetch.
  destruct (getJobBugMappings _ _ _ _) as [[jb|] bl2] eqn:Hjob; [|done].
  destruct (ListTriages env) as [ts|]; [|done].
  simpl in Hfetch.
  destruct (getTriageBugMappings _ _ _ _) as [[trb|] bl3] eqn:Htriage; [|done].
  simplify_eq. exists testCache, jobCache, bl1, bl2, bl3. by repeat split.
Qed.

Lemma fetch_keyed env r testBugs jobBugs triageBugs triages r1 :
  fetch env r = Fetched testBugs jobBugs triageBugs triages r1 →
  keyedByID testBugs ∧ keyedByID jobBugs ∧ keyedByID triageBugs.
Proof.
  intros Hfetch. apply fetch_inv in Hfetch
    as (testCache & jobCache & bl1 & bl2 & bl3 & _ & Htest & _ & Hjob & _ & Htriage & _).
  repeat split.
  - eapply runQuery_keyed; [|exact Htest]. intros. by apply testRow_keyed.
  - eapply runQuery_keyed; [|exact Hjob]. intros. by apply jobRow_keyed.
  - unfold getTriageBugMappings in Htriage.
    destruct (triageKeys triages); [|done].
    eapply runQuery_keyed; [|exact Htriage]. intros. by apply triageRow_keyed.
Qed.

(** With valid timestamps everywhere, two first parts of [Load] on the
    same sources build the same three mapping sets. *)
Lemma fetch_agree env env' r r'
    testBugs jobBugs triageBugs triages r1 testBugs' jobBugs' triageBugs' triages' r1' :
  sameSources env env' → timestampsValid env →
  fetch env r = Fetched testBugs jobBugs triageBugs triages r1 →
  fetch env' r' = Fetched testBugs' jobBugs' triageBugs' triages' r1' →
  testBugs' = testBugs ∧ jobBugs' = jobBugs ∧ triageBugs' = triageBugs.
Proof.
  intros (Htc & Htq & Hjc & Hjq & Htrq & _ & Hts) (Hv1 & Hv2 & Hv3) Hfetch Hfetch'.
  apply fetch_inv in Hfetch
    as (testCache & jobCache & bl1 & bl2 & bl3 & Hc1 & Htest & Hc2 & Hjob & Hl & Htriage & _).
  apply fetch_inv in Hfetch'
    as (testCache' & jobCache' & bl1' & bl2' & bl3' & Hc1' & Htest' & Hc2' & Hjob' & Hl' & Htriage' & _).
  rewrite Htc, Hc1 in Hc1'. rewrite Hjc, Hc2 in Hc2'.
  injection Hc1' as Hc1'. injection Hc2' as Hc2'. subst testCache' jobCache'.
  rewrite Hl, Hl' in Hts.
  repeat split.
  - unfold getTestBugMappings in *. rewrite Htq in Htest'.
    pose proof (runQuery_agree (testRow (clock env) testCache) (testRow (clock env') testCache)
                  (testQuery env) (r_bl r) (r_bl r')) as Hagree.
    rewrite Htest, Htest' in Hagree. simpl in Hagree.
    assert (Ok testBugs = Ok testBugs' :> result _) as Heq.
    { apply Hagree; [|done]. intros. by apply testRow_clock. }
    by simplify_eq.
  - unfold getJobBugMappings in *. rewrite Hjq in Hjob'.
    pose proof (runQuery_agree (jobRow (clock env) jobCache) (jobRow (clock env') jobCache)
                  (jobQuery env) bl1 bl1') as Hagree.
    rewrite Hjob, Hjob' in Hagree. simpl in Hagree.
    assert (Ok jobBugs = Ok jobBugs' :> result _) as Heq.
    { apply Hagree; [|done]. intros. by apply jobRow_clock. }
    by simplify_eq.
  - unfold getTriageBugMappings in *.
    rewrite (triageKeys_URLs _ _ Hts) in Htriage'.
    destruct (triageKeys triages) as [keys|]; [|done].
    rewrite Htrq in Htriage'.
    pose proof (runQuery_agree (triageRow (clock env)) (triageRow (clock env'))
                  (triageQuery env keys) bl2 bl2') as Hagree.
    rewrite Htriage, Htriage' in Hagree. simpl in Hagree.
    assert (Ok triageBugs = Ok triageBugs' :> result _) as Heq.
    { apply Hagree; [|done]. intros. by apply triageRow_clock. }
    by simplify_eq.
Qed.

End FetchFacts.

Section ResyncFacts.

Import BugLoader Samples.

Context {Test ProwJob : Type} `{!EqDecision Test, !EqDecision ProwJob}.

Implicit Types (env : Env Test ProwJob) (r : Run Test ProwJob).
Implicit Types (testBugs jobBugs triageBugs allBugs : gmap Z (Bug Test ProwJob)).
Implicit Types (bug : Bug Test ProwJob) (faults : Faults).

Lemma mergeBugs_keyed testBugs jobBugs triageBugs :
  keyedByID testBugs → keyedByID jobBugs → keyedByID triageBugs →
  keyedByID (mergeBugs testBugs jobBugs triageBugs).
Proof.
  intros Htest Hjob Htriage k b Hk.
  rewrite mergeBugs_lookup, mergeJobs_lookup in Hk by done.
  destruct (jobBugs !! k) as [j|] eqn:Hj; [destruct (testBugs !! k) as [t|] eqn:Ht|].
  - simplify_eq. simpl. by apply Htest.
  - simplify_eq. by apply Hjob.
  - destruct (testBugs !! k) as [t|] eqn:Ht.
    + simplify_eq. by apply Htest.
    + by apply Htriage.
Qed.

(** The merged set holds exactly the tickets of the three mapping sets. *)
Lemma mergeBugs_None testBugs jobBugs triageBugs (k : Z) :
  keyedByID jobBugs → keyedByID triageBugs →
  mergeBugs testBugs jobBugs triageBugs !! k = None
  ↔ testBugs !! k = None ∧ jobBugs !! k = None ∧ triageBugs !! k = None.
Proof.
  intros Hjob Htriage. rewrite mergeBugs_lookup, mergeJobs_lookup by done.
  destruct (jobBugs !! k), (testBugs !! k), (triageBugs !! k);
    split; try done; intros (? & ? & ?); done.
Qed.

(** Inserting the join rows that are missing, twice, is inserting them once. *)
Lemma list_difference_all {A : Type} `{!EqDecision A} (l k : list A) :
  (∀ x, x ∈ l → x ∈ k) → list_difference l k = [].
Proof.
  induction l as [|x l IH]; intros Hall; simpl; [done|].
  destruct (decide_rel elem_of x k) as [_|Hout].
  - apply IH. intros y Hy. apply Hall. by right.
  - destruct Hout. apply Hall. left.
Qed.

Lemma list_difference_none {A : Type} `{!EqDecision A} (l k : list A) :
  (∀ x, x ∈ l → x ∉ k) → list_difference l k = l.
Proof.
  induction l as [|x l IH]; intros Hnone; simpl; [done|].
  destruct (decide_rel elem_of x k) as [Hin|_].
  - destruct (Hnone x); [left|done].
  - f_equal. apply IH. intros y Hy. apply Hnone. by right.
Qed.

Lemma list_difference_app {A : Type} `{!EqDecision A} (l1 l2 k : list A) :
  list_difference (l1 ++ l2) k = list_difference l1 k ++ list_difference l2 k.
Proof.
  induction l1 as [|x l1 IH]; simpl; [done|].
  destruct (decide_rel elem_of x k); [done|]. by rewrite IH.
Qed.

Lemma list_union_twice {A : Type} `{!EqDecision A} (l k : list A) :
  list_union (list_union l k) k = list_union l k.
Proof.
  unfold list_union. rewrite list_difference_app.
  rewrite (list_difference_all k k) by done. rewrite app_nil_r.
  rewrite (list_difference_none (list_difference l k) k); [done|].
  intros x Hx. by apply list_elem_of_difference in Hx as [_ ?].
Qed.

Lemma list_union_self {A : Type} `{!EqDecision A} (l : list A) : list_union l l = l.
Proof. unfold list_union. by rewrite list_difference_all. Qed.

Lemma persistRow_idempotent faults bug (old : option (Bug Test ProwJob)) :
  persistRow faults bug (persistRow faults bug old) = persistRow faults bug old.
Proof.
  unfold persistRow.
  destruct (createFails faults (ID bug)) eqn:Hc; try (by rewrite Hc);
    destruct (replaceTestsFails faults (ID bug)) eqn:Ht;
    try (rewrite ?Hc, ?Ht; simpl; by rewrite !list_union_twice);
    destruct (replaceJobsFails faults (ID bug)) eqn:Hj;
    rewrite ?Hc, ?Ht, ?Hj; simpl; by rewrite ?list_union_twice.
Qed.

Lemma persistRow_is_Some faults bug (old : option (Bug Test ProwJob)) :
  is_Some old → is_Some (persistRow faults bug old).
Proof.
  intros Hold. unfold persistRow.
  destruct (createFails faults (ID bug)); try done;
    destruct (replaceTestsFails faults (ID bug)); try done;
    destruct (replaceJobsFails faults (ID bug)); done.
Qed.

Lemma syncRow_idempotent faults allBugs (k : Z) (old : option (Bug Test ProwJob)) :
  syncRow faults allBugs k (syncRow faults allBugs k old) = syncRow faults allBugs k old.
Proof.
  unfold syncRow. destruct (allBugs !! k); [apply persistRow_idempotent|].
  destruct (deleteFails faults); try done. by case_decide.
Qed.


End ResyncFacts.

(** ** The bug loader: the triage links *)

Section TriageFacts.

Import BugLoader Samples.

Context {Test ProwJob : Type} `{!EqDecision Test, !EqDecision ProwJob}.

Implicit Types (env : Env Test ProwJob) (r : Run Test ProwJob) (faults : Faults).
Implicit Types (t : Triage Test ProwJob) (triages : list (Triage Test ProwJob)).
Implicit Types (tbl : gmap Z (Bug Test ProwJob)) (bug : Bug Test ProwJob).

Lemma leastKey_elem (l : list (Z * Bug Test ProwJob)) kv :
  leastKey l = Some kv → kv ∈ l.
Proof.
  revert kv. induction l as [|kv' l IH]; intros kv Hleast; simpl in Hleast; [done|].
  destruct (leastKey l) as [kv''|].
  - destruct (kv''.1 <? kv'.1)%Z; simplify_eq.
    + right. by apply IH.
    + left.
  - simplify_eq. left.
Qed.

(** The lookup by URL finds a row of the table with that URL. *)
Lemma First_Ok faults tbl (url : string) bug :
  First faults tbl url = Ok bug → URL bug = url ∧ ∃ k, tbl !! k = Some bug.
Proof.
  unfold First. destruct (firstFails faults url); try done.
  destruct (leastKey _) as [[k b]|] eqn:Hleast; [|done].
  intros Heq. simplify_eq. apply leastKey_elem in Hleast.
  apply list_elem_of_filter in Hleast as [Hurl Hin]. simpl in *.
  split; [done|]. exists k. by apply elem_of_map_to_list.
Qed.

Lemma relink_triages_other faults t r (k : Z) :
  k ≠ t_ID t → r_triages (relink faults t r) !! k = r_triages r !! k.
Proof.
  intros Hne. unfold relink. destruct (First faults (r_bugs r) (t_URL t)); [|done].
  destruct (saveFails faults (t_ID t)); simpl; try done. by rewrite lookup_insert_ne.
Qed.

Lemma relink_log faults t r (e : log_entry) :
  e ∈ r_log r → e ∈ r_log (relink faults t r).
Proof.
  intros He. unfold relink. destruct (First faults (r_bugs r) (t_URL t)); simpl.
  - destruct (saveFails faults (t_ID t)); simpl;
      rewrite ?elem_of_app; auto.
  - rewrite elem_of_app. auto.
Qed.

Lemma relink_errors faults t r (e : error) :
  e ∈ errors (r_bl r) → e ∈ errors (r_bl (relink faults t r)).
Proof.
  intros He. unfold relink. destruct (First faults (r_bugs r) (t_URL t)); simpl; [|done].
  destruct (saveFails faults (t_ID t)); simpl; rewrite ?elem_of_app; auto.
Qed.

(** What the triage loop keeps: log lines, errors, and the rows of the
    triages it does not visit. *)
Lemma foldl_relinkTriage_keeps faults triages r r' :
  foldl (relinkTriage faults) (Some r) triages = Some r' →
  (∀ e : log_entry, e ∈ r_log r → e ∈ r_log r')
  ∧ (∀ e : error, e ∈ errors (r_bl r) → e ∈ errors (r_bl r'))
  ∧ (∀ k : Z, k ∉ t_ID <$> triages → r_triages r' !! k = r_triages r !! k).
Proof.
  revert r. induction triages as [|t triages IH]; intros r Hrun; simpl in Hrun.
  - by simplify_eq.
  - destruct (linkedProperly t) as [[|]|].
    + destruct (IH _ Hrun) as (Hlog & Herr & Hrows). repeat split; [done..|].
      intros k Hk. rewrite fmap_cons, not_elem_of_cons in Hk. destruct Hk as [_ Hk].
      by apply Hrows.
    + destruct (IH _ Hrun) as (Hlog & Herr & Hrows). repeat split.
      * intros e He. by apply Hlog, relink_log.
      * intros e He. by apply Herr, relink_errors.
      * intros k Hk. rewrite fmap_cons, not_elem_of_cons in Hk. destruct Hk as [Hne Hk].
        rewrite Hrows by done. by apply relink_triages_other.
    + by rewrite foldl_relinkTriage_None in Hrun.
Qed.

Lemma relink_loop faults triages r r' t :
  foldl (relinkTriage faults) (Some r) triages = Some r' →
  NoDup (t_ID <$> triages) → t ∈ triages → linkedProperly t = Some false →
  relinked faults (r_bugs r) (r_triages r !! t_ID t) r' t.
Proof.
  revert r. induction triages as [|t0 triages IH]; intros r Hrun Hdup Hin Hlinked.
  - by apply elem_of_nil in Hin.
  - rewrite fmap_cons in Hdup. apply NoDup_cons in Hdup as [Hfresh Hdup].
    simpl in Hrun. apply elem_of_cons in Hin as [->|Hin].
    + rewrite Hlinked in Hrun.
      destruct (foldl_relinkTriage_keeps _ _ _ _ Hrun) as (Hlog & Herr & Hrows).
      unfold relinked, warned. rewrite (Hrows _ Hfresh). clear Hrows.
      unfold relink in *.
      destruct (First faults (r_bugs r) (t_URL t0)) as [bug|e].
      * destruct (saveFails faults (t_ID t0)) eqn:Hsave; simpl in *;
          try (split; [done|apply Herr; set_solver]).
        by rewrite lookup_insert_eq.
      * split; [|done]. apply Hlog. simpl. set_solver.
    + assert (t_ID t ≠ t_ID t0) as Hne.
      { intros Heq. apply Hfresh. rewrite <- Heq. by apply list_elem_of_fmap_2. }
      destruct (linkedProperly t0) as [[|]|].
      * by apply IH.
      * specialize (IH _ Hrun Hdup Hin Hlinked).
        by rewrite relink_bugs, relink_triages_other in IH.
      * by rewrite foldl_relinkTriage_None in Hrun.
Qed.

Lemma deleteStale_triages faults (ids : list Z) r :
  r_triages (deleteStale faults ids r) = r_triages r.
Proof. unfold deleteStale. by destruct (deleteFails faults). Qed.

(** [Load] from the merge on ends with the triage loop, which starts on
    the triages table the run started with. *)
Lemma reconcile_triage_loop faults (testBugs jobBugs triageBugs : gmap Z (Bug Test ProwJob))
    triages r r' :
  reconcile faults testBugs jobBugs triageBugs triages r = Some r' →
  ∃ r0, foldl (relinkTriage faults) (Some r0) triages = Some r'
        ∧ r_triages r0 = r_triages r.
Proof.
  unfold reconcile. intros Hrun. eexists. split; [exact Hrun|].
  simpl. rewrite deleteStale_triages. simpl. by rewrite foldl_persistBug_triages.
Qed.

(** C4 (amended). After a completed run of [Load], for every triage of
    the list that was not linked to a bug with its own URL (the IDs of
    the triages being distinct): when the lookup by the URL of the
    triage finds a bug in the bugs table the run leaves, that bug has
    the URL of the triage and the triage is saved with its foreign key
    and its cached bug set to it, or, when saving fails, the stored
    triage is as before the run and the error is accumulated; when the
    lookup finds nothing, a warning is logged and the stored triage is as
    before the run, link included. *)
Theorem Load_relinks env r r' testBugs jobBugs triageBugs triages r1 t :
  fetch env r = Fetched testBugs jobBugs triageBugs triages r1 →
  Load env r = Completed r' →
  NoDup (t_ID <$> triages) → t ∈ triages → linkedProperly t = Some false →
  relinked (faults env) (r_bugs r') (r_triages r !! t_ID t) r' t
  ∧ ∀ bug, First (faults env) (r_bugs r') (t_URL t) = Ok bug →
           URL bug = t_URL t ∧ ∃ k, r_bugs r' !! k = Some bug.
Proof.
  intros Hfetch Hrun Hdup Hin Hlinked. unfold Load in Hrun. rewrite Hfetch in Hrun.
  destruct (reconcile _ _ _ _ _ r1) as [rb|] eqn:Hrec; [|done]. simplify_eq.
  split; [|intros bug Hbug; by apply (First_Ok _ _ _ _ Hbug)].
  apply fetch_inv in Hfetch as (_ & _ & _ & _ & _ & _ & _ & _ & _ & _ & _ & _ & Htr).
  apply reconcile_triage_loop in Hrec as (r0 & Hloop & Htr0).
  pose proof (foldl_relinkTriage_bugs _ _ _ _ Hloop) as Hbugs.
  apply (relink_loop _ _ _ _ t) in Hloop; [|done..].
  by rewrite <- Hbugs, Htr0, Htr in Hloop.
Qed.

End TriageFacts.

(** ** The bug loader: the rows the sources no longer mention *)

Section ResyncTheorem.

Import BugLoader Samples.

Context {Test ProwJob : Type} `{!EqDecision Test, !EqDecision ProwJob}.

Implicit Types (env : Env Test ProwJob) (r : Run Test ProwJob).
Implicit Types (testBugs jobBugs triageBugs allBugs : gmap Z (Bug Test ProwJob)).
Implicit Types (bug : Bug Test ProwJob) (faults : Faults).
Implicit Types (triages : list (Triage Test ProwJob)).

Lemma rangeOver_nil allBugs : rangeOver allBugs = [] ↔ allBugs = ∅.
Proof.
  unfold rangeOver. split.
  - intros Hnil. apply map_to_list_empty_iff. by apply fmap_nil_inv in Hnil.
  - intros ->. by rewrite map_to_list_empty.
Qed.

(** The merged set is empty exactly when the three mapping sets are. *)
Lemma mergeBugs_empty testBugs jobBugs triageBugs :
  keyedByID jobBugs → keyedByID triageBugs →
  mergeBugs testBugs jobBugs triageBugs = ∅
  ↔ testBugs = ∅ ∧ jobBugs = ∅ ∧ triageBugs = ∅.
Proof.
  intros Hjob Htriage. rewrite !map_empty. split.
  - intros Hall. repeat split; intros k;
      by destruct (proj1 (mergeBugs_None testBugs jobBugs triageBugs k Hjob Htriage) (Hall k))
        as (? & ? & ?).
  - intros (Ht & Hj & Htr) k. by apply mergeBugs_None.
Qed.

(** A failed delete statement leaves its error in the list of the loader. *)
Lemma reconcile_delete_error faults testBugs jobBugs triageBugs triages r r' :
  reconcile faults testBugs jobBugs triageBugs triages r = Some r' →
  deleteFails faults ≠ ErrNil →
  Wrap (deleteFails faults) "error deleting stale bugs" ∈ errors (r_bl r').
Proof.
  unfold reconcile. intros Hrun Hfail.
  destruct (foldl_relinkTriage_keeps _ _ _ _ Hrun) as (_ & Herr & _).
  apply Herr. simpl. unfold deleteStale.
  destruct (deleteFails faults); [done|..]; simpl; rewrite elem_of_app; right; left.
Qed.


End ResyncTheorem.

(** ** The properties on concrete runs *)

Section ConcreteRuns.

Import BugLoader Samples.

(** A map built by insertions of bugs under their own IDs is keyed by ID. *)
Ltac solve_keyed :=
  let k := fresh "k" in let b := fresh "b" in let Hk := fresh "Hk" in
  intros k b Hk;
  repeat (apply lookup_insert_Some in Hk as [[<- <-]|[_ Hk]]; [reflexivity|]);
  by rewrite lookup_empty in Hk.

Lemma getJobRunFiles_truncates_witness :
  JobArtifacts.getJobRunFiles 2 sampleQuery "logs/" = (["logs/a"; "logs/b"], true, ErrNil)
  ∧ length (take 2 ["logs/a"; "logs/b"; "logs/c"]) = 2.
Proof.
  apply (getJobRunFiles_truncates 2 unit string sampleQuery "logs/"
           ["logs/a"; "logs/b"; "logs/c"] []); [reflexivity|simpl; lia].
Defined.

Lemma getJobRunFiles_boundary_witness :
  JobArtifacts.getJobRunFiles 3 sampleQuery "logs/"
    = (["logs/a"; "logs/b"; "logs/c"], false, ErrNil)
  ∧ ∃ extra rest,
      JobArtifacts.Objects (JobArtifacts.GcsBucket sampleQuery)
        (JobArtifacts.jobRunQuery sampleQuery "logs/")
      = (JobArtifacts.Object <$> ["logs/a"; "logs/b"]) ++ JobArtifacts.Object extra :: rest
      ∧ length ["logs/a"; "logs/b"] = 2 ∧ ErrNil = ErrNil.
Proof.
  split.
  - apply (proj1 (getJobRunFiles_boundary 3 unit string sampleQuery "logs/")
             ["logs/a"; "logs/b"; "logs/c"]); [reflexivity|simpl; lia].
  - apply (proj2 (getJobRunFiles_boundary 2 unit string sampleQuery "logs/")
             ["logs/a"; "logs/b"] ErrNil). reflexivity.
Defined.

Lemma getFileContentMatches_best_effort_witness :
  (let artifact := JobArtifacts.getFileContentMatches "test-platform-results" sampleQuery 42 "logs/a" in
   JobArtifacts.MatchedContent artifact = Some "partial match"
   ∧ JobArtifacts.Error artifact = "unexpected EOF")
  ∧ (let artifact := JobArtifacts.getFileContentMatches "test-platform-results" sampleQuery 42 "logs/z" in
     JobArtifacts.Error artifact = "object does not exist"
     ∧ JobArtifacts.MatchedContent artifact = None)
  ∧ (let artifact := JobArtifacts.getFileContentMatches "test-platform-results" listOnlyQuery 42 "logs/a" in
     JobArtifacts.MatchedContent artifact = None ∧ JobArtifacts.Error artifact = "").
Proof.
  split; [|split].
  - destruct (getFileContentMatches_best_effort "test-platform-results" unit string
                sampleQuery 42 "logs/a") as (_ & _ & _ & _ & Hmatch).
    destruct (Hmatch _ tt (Some "partial match") (Err "unexpected EOF") eq_refl eq_refl eq_refl)
      as (Hpayload & Herror & _).
    split; [exact Hpayload|]. apply Herror. discriminate.
  - destruct (getFileContentMatches_best_effort "test-platform-results" unit string
                sampleQuery 42 "logs/z") as (_ & _ & _ & Hopen & _).
    exact (Hopen _ (Err "object does not exist") eq_refl eq_refl).
  - destruct (getFileContentMatches_best_effort "test-platform-results" unit string
                listOnlyQuery 42 "logs/a") as (_ & _ & Hnone & _).
    exact (Hnone eq_refl).
Defined.

Lemma refreshMatview_fallback_witness :
  List.filter MatViews.is_exec (MatViews.refreshOne noIndexDB true sampleView)
  = [MatViews.EvExec (MatViews.concurrentSQL sampleView);
     MatViews.EvExec (MatViews.blockingSQL sampleView)]
  ∧ List.filter MatViews.is_observe (MatViews.refreshOne noIndexDB true sampleView)
    = [MatViews.EvObserve sampleView]
  ∧ List.filter MatViews.is_error_log (MatViews.refreshOne noIndexDB true sampleView) = [].
Proof.
  destruct (refreshMatview_fallback noIndexDB true [] [] sampleView eq_refl)
    as (_ & Hexec & Hfallback & _).
  split; [exact Hexec|]. exact (Hfallback eq_refl eq_refl).
Defined.

(** A populated view under the only-if-empty flag: the worker takes it
    from the channel, counts its rows, logs that it skips it, and sends
    no refresh statement. *)
Lemma populated_view_not_refreshed :
  MatViews.refreshMatview warmDB true [sampleView]
  = [MatViews.EvCount (MatViews.countSQL sampleView);
     MatViews.EvLog LInfo sampleView
       "skipping matview refresh as it appears to be populated"]
  ∧ List.filter MatViews.is_exec (MatViews.refreshMatview warmDB true [sampleView]) = [].
Proof. split; reflexivity. Qed.

Lemma mergeBugs_precedence_witness :
  (∃ b, mergeBugs scenarioTests scenarioJobs scenarioTriages !! 12345%Z = Some b
        ∧ Jobs b = [] ∧ Tests b = ["unit-test-foo"])
  ∧ mergeBugs scenarioTests scenarioJobs scenarioTriages !! 67890%Z
    = Some (set_Jobs (sampleBug 67890 "OCPBUGS-67890") ["periodic-job-x"]).
Proof.
  assert (keyedByID scenarioJobs) as Hjobs by (unfold scenarioJobs; solve_keyed).
  assert (keyedByID scenarioTriages) as Htriages by (unfold scenarioTriages; solve_keyed).
  destruct (mergeBugs_precedence scenarioTests scenarioJobs scenarioTriages Hjobs Htriages)
    as (Hboth & Hjob & _).
  split.
  - destruct (Hboth 12345%Z _ _ eq_refl eq_refl) as (b & Hb & HJobs & HTests & _).
    exists b. by repeat split.
  - exact (Hjob 67890%Z _ eq_refl eq_refl).
Defined.

Lemma unparseable_id_skipped_witness :
  testRow sampleClock sampleTestCache (sampleRow "12x45" "unit-test-foo" "OCPBUGS-1" true) emptyState
  = (∅, add_error freshLoader
           (convertError (syntaxError "12x45") "12x45"))
  ∧ testRow sampleClock sampleTestCache (sampleRow "" "unit-test-foo" "OCPBUGS-1" true) emptyState
    = emptyState.
Proof.
  destruct (unparseable_id_skipped sampleClock sampleTestCache sampleJobCache
              (sampleRow "12x45" "unit-test-foo" "OCPBUGS-1" true) emptyState)
    as (_ & Hbad & _).
  destruct (unparseable_id_skipped sampleClock sampleTestCache sampleJobCache
              (sampleRow "" "unit-test-foo" "OCPBUGS-1" true) emptyState)
    as (Hmissing & _).
  split.
  - apply (Hbad (syntaxError "12x45")); [discriminate|discriminate|reflexivity].
  - apply Hmissing. by left.
Defined.

(** A row without a Jira ID is skipped and no error is recorded for it,
    in either loop. *)
Lemma missing_id_not_recorded :
  bq_JiraID (sampleRow "" "unit-test-foo" "OCPBUGS-1" true) = ""
  ∧ errors (testRow sampleClock sampleTestCache
              (sampleRow "" "unit-test-foo" "OCPBUGS-1" true) emptyState).2 = []
  ∧ errors (jobRow sampleClock sampleJobCache
              (sampleRow "" "periodic-job-x" "OCPBUGS-1" true) emptyState).2 = [].
Proof. split; [reflexivity|split; reflexivity]. Qed.





Lemma Load_relinks_witness :
  r_triages triagedResult !! 2%Z
  = Some (set_link newTriage
            (set_Jobs (set_Tests (sampleBug 12345 "OCPBUGS-12345") ["unit-test-foo"])
               ["periodic-job-x"])).
Proof.
  destruct (Load_relinks triageEnv triagedRun triagedResult
              (fetchedTests (fetch triageEnv triagedRun))
              (fetchedJobs (fetch triageEnv triagedRun))
              (fetchedTriageBugs (fetch triageEnv triagedRun))
              (fetchedTriages (fetch triageEnv triagedRun))
              (fetchedRun (fetch triageEnv triagedRun)) newTriage) as [Hlinked _].
  - vm_compute. reflexivity.
  - vm_compute. reflexivity.
  - vm_compute. repeat constructor; rewrite ?elem_of_cons, ?elem_of_nil; intuition discriminate.
  - vm_compute. right. left.
  - reflexivity.
  - unfold relinked in Hlinked.
    destruct (First (faults triageEnv) (r_bugs triagedResult) (t_URL newTriage)) as [bug|e] eqn:Hfirst.
    + vm_compute in Hfirst. injection Hfirst as <-. exact Hlinked.
    + vm_compute in Hfirst. discriminate Hfirst.
Defined.

(** A triage linked to a bug with another URL, whose own URL names no
    bug of the store: the run completes, logs the warning, and leaves the
    triage linked to that bug. *)
Lemma failed_lookup_keeps_stale_link :
  Load triageEnv triagedRun = Completed triagedResult
  ∧ linkedProperly movedTriage = Some false
  ∧ warned triagedResult (t_URL movedTriage)
  ∧ staleLink triagedResult movedTriage.
Proof.
  split; [vm_compute; reflexivity|].
  split; [reflexivity|].
  split.
  - unfold warned. vm_compute.
    repeat first [apply list_elem_of_here | apply list_elem_of_further].
  - exists movedTriage, 12345%Z,
      (set_Jobs (set_Tests (sampleBug 12345 "OCPBUGS-12345") ["unit-test-foo"])
         ["periodic-job-x"]).
    split; [vm_compute; reflexivity|].
    split; [reflexivity|].
    split; [vm_compute; reflexivity|].
    vm_compute. discriminate.
Qed.

End ConcreteRuns.

(** * Further properties of the code *)

(** ** The mapping loops of the bug loader *)

Section MappingFacts.

Import BugLoader LoaderProps Samples.

Context {Test ProwJob : Type} `{!EqDecision Test, !EqDecision ProwJob}.

Implicit Types (st : LoopState Test ProwJob) (row : bigQueryBug) (clock : nat → Z).
Implicit Types (testCache : gmap string Test) (jobCache : gmap string ProwJob).
Implicit Types (m : gmap Z (Bug Test ProwJob)) (b : Bug Test ProwJob).

(** A loop that returns a working set has read rows only, and is the
    fold of its body over them. *)
Lemma iterate_Ok_rows
    (body : bigQueryBug → LoopState Test ProwJob → LoopState Test ProwJob)
    (it : RowIterator) st m (bl : BugLoader) :
  iterate body it st = (Ok m, bl) →
  ∃ rows, it = Ok <$> rows ∧ foldl (fun st row => body row st) st rows = (m, bl).
Proof.
  revert st. induction it as [|[row|err] it IH]; intros st Hrun; simpl in Hrun.
  - exists []. split; [done|]. simpl. destruct st. by simplify_eq.
  - destruct (IH _ Hrun) as (rows & -> & Hfold). by exists (row :: rows).
  - discriminate.
Qed.

Lemma runQuery_Ok_rows
    (body : bigQueryBug → LoopState Test ProwJob → LoopState Test ProwJob)
    (q : QueryResult) (bl bl' : BugLoader) m :
  runQuery body q bl = (Ok m, bl') →
  ∃ rows, q = Ok (Ok <$> rows) ∧ foldl (fun st row => body row st) (∅, bl) rows = (m, bl').
Proof.
  destruct q as [it|err]; [|discriminate]. simpl. intros Hrun.
  destruct (iterate_Ok_rows _ _ _ _ _ Hrun) as (rows & -> & Hfold). by exists rows.
Qed.

(** What one row does to the working set of the three loops. *)
Lemma testRow_lookup clock testCache row st (k : Z) :
  (testRow clock testCache row st).1 !! k
  = match testOfRow testCache row with
    | Some (id, test) =>
        if decide (k = id) then
          Some (match st.1 !! id with
                | Some b => set_Tests b (Tests b ++ [test])
                | None =>
                    set_Tests (bigQueryBugToModel (clock (ticks st.2)) (set_ID row id)) [test]
                end)
        else st.1 !! k
    | None => st.1 !! k
    end.
Proof.
  unfold testRow, testOfRow, ensureBug.
  destruct (_ || _); [done|]. destruct (Atoi _) as [intID|err]; [|done].
  simpl. destruct (testCache !! _) as [test|]; [|done]. simpl.
  destruct (st.1 !! uint intID) as [b|] eqn:Hb; simpl; case_decide as Hk; subst.
  - by rewrite lookup_alter_eq, Hb.
  - by rewrite lookup_alter_ne.
  - by rewrite lookup_alter_eq, lookup_insert_eq.
  - by rewrite lookup_alter_ne, lookup_insert_ne.
Qed.

Lemma jobRow_lookup clock jobCache row st (k : Z) :
  (jobRow clock jobCache row st).1 !! k
  = match jobOfRow jobCache row with
    | Some (id, job) =>
        if decide (k = id) then
          Some (match st.1 !! id with
                | Some b => set_Jobs b (Jobs b ++ [job])
                | None =>
                    set_Jobs (bigQueryBugToModel (clock (ticks st.2)) (set_ID row id)) [job]
                end)
        else st.1 !! k
    | None => st.1 !! k
    end.
Proof.
  unfold jobRow, jobOfRow, ensureBug.
  destruct (_ || _); [done|]. destruct (Atoi _) as [intID|err]; [|done].
  simpl. destruct (jobCache !! _) as [job|]; [|done]. simpl.
  destruct (st.1 !! uint intID) as [b|] eqn:Hb; simpl; case_decide as Hk; subst.
  - by rewrite lookup_alter_eq, Hb.
  - by rewrite lookup_alter_ne.
  - by rewrite lookup_alter_eq, lookup_insert_eq.
  - by rewrite lookup_alter_ne, lookup_insert_ne.
Qed.

Lemma triageRow_lookup clock row st (k : Z) :
  (triageRow clock row st).1 !! k
  = match keyOfRow row with
    | Some id =>
        if decide (k = id) then
          Some (match st.1 !! id with
                | Some b => b
                | None => bigQueryBugToModel (clock (ticks st.2)) (set_ID row id)
                end)
        else st.1 !! k
    | None => st.1 !! k
    end.
Proof.
  unfold triageRow, keyOfRow, ensureBug.
  destruct (String.eqb _ _); [done|]. destruct (Atoi _) as [intID|err]; [|done].
  simpl. destruct (st.1 !! uint intID) as [b|] eqn:Hb; simpl; case_decide as Hk; subst.
  - done.
  - done.
  - by rewrite lookup_insert_eq.
  - by rewrite lookup_insert_ne.
Qed.

Lemma uint_range (n : Z) : (0 ≤ uint n < 2 ^ 64)%Z.
Proof. unfold uint. apply Z.mod_pos_bound. lia. Qed.

Lemma testOfRow_range testCache row (id : Z) (test : Test) :
  testOfRow testCache row = Some (id, test) → (0 ≤ id < 2 ^ 64)%Z.
Proof.
  unfold testOfRow. destruct (_ || _); [done|]. destruct (Atoi _); [|done].
  destruct (testCache !! _); [|done]. intros Heq. simplify_eq. apply uint_range.
Qed.

Lemma jobOfRow_range jobCache row (id : Z) (job : ProwJob) :
  jobOfRow jobCache row = Some (id, job) → (0 ≤ id < 2 ^ 64)%Z.
Proof.
  unfold jobOfRow. destruct (_ || _); [done|]. destruct (Atoi _); [|done].
  destruct (jobCache !! _); [|done]. intros Heq. simplify_eq. apply uint_range.
Qed.

Lemma keyOfRow_range row (id : Z) : keyOfRow row = Some id → (0 ≤ id < 2 ^ 64)%Z.
Proof.
  unfold keyOfRow. destruct (String.eqb _ _); [done|]. destruct (Atoi _); [|done].
  intros Heq. simplify_eq. apply uint_range.
Qed.

(** A property of the records that every row keeps holds for the fold. *)
Lemma foldl_rows_invariant (P : Z → Bug Test ProwJob → Prop)
    (body : bigQueryBug → LoopState Test ProwJob → LoopState Test ProwJob)
    (rows : list bigQueryBug) st :
  (∀ row st, (∀ k b, st.1 !! k = Some b → P k b) →
             ∀ k b, (body row st).1 !! k = Some b → P k b) →
  (∀ k b, st.1 !! k = Some b → P k b) →
  ∀ k b, (foldl (fun st row => body row st) st rows).1 !! k = Some b → P k b.
Proof.
  intros Hbody. revert st. induction rows as [|row rows IH]; intros st HP; [done|].
  simpl. apply IH. by apply Hbody.
Qed.

Lemma testRow_wellKeyed clock testCache row st :
  (∀ k b, st.1 !! k = Some b → wellKeyed k b) →
  ∀ k b, (testRow clock testCache row st).1 !! k = Some b → wellKeyed k b.
Proof.
  intros Hst k b. rewrite testRow_lookup.
  destruct (testOfRow testCache row) as [[id test]|] eqn:Hrow; [|apply Hst].
  case_decide as Hk; [subst k|apply Hst].
  intros Heq. injection Heq as <-.
  destruct (st.1 !! id) as [b0|] eqn:Hb0.
  - destruct (Hst _ _ Hb0) as (? & ? & ?). by split; [|split].
  - split; [done|split; [|done]]. eapply testOfRow_range; exact Hrow.
Qed.

Lemma jobRow_wellKeyed clock jobCache row st :
  (∀ k b, st.1 !! k = Some b → wellKeyed k b) →
  ∀ k b, (jobRow clock jobCache row st).1 !! k = Some b → wellKeyed k b.
Proof.
  intros Hst k b. rewrite jobRow_lookup.
  destruct (jobOfRow jobCache row) as [[id job]|] eqn:Hrow; [|apply Hst].
  case_decide as Hk; [subst k|apply Hst].
  intros Heq. injection Heq as <-.
  destruct (st.1 !! id) as [b0|] eqn:Hb0.
  - destruct (Hst _ _ Hb0) as (? & ? & ?). by split; [|split].
  - split; [done|split; [|done]]. eapply jobOfRow_range; exact Hrow.
Qed.

Lemma triageRow_wellKeyed clock row st :
  (∀ k b, st.1 !! k = Some b → wellKeyed k b) →
  ∀ k b, (triageRow clock row st).1 !! k = Some b → wellKeyed k b.
Proof.
  intros Hst k b. rewrite triageRow_lookup.
  destruct (keyOfRow row) as [id|] eqn:Hrow; [|apply Hst].
  case_decide as Hk; [subst k|apply Hst].
  intros Heq. injection Heq as <-.
  destruct (st.1 !! id) as [b0|] eqn:Hb0.
  - by apply Hst.
  - split; [done|split; [|done]]. eapply keyOfRow_range; exact Hrow.
Qed.

Lemma testOfRow_cache testCache row (id : Z) (test : Test) :
  testOfRow testCache row = Some (id, test) → testCache !! bq_LinkName row = Some test.
Proof.
  unfold testOfRow. destruct (_ || _); [done|]. destruct (Atoi _); [|done].
  destruct (testCache !! _) eqn:Hc; [|done]. intros Heq. by simplify_eq.
Qed.

Lemma jobOfRow_cache jobCache row (id : Z) (job : ProwJob) :
  jobOfRow jobCache row = Some (id, job) → jobCache !! bq_LinkName row = Some job.
Proof.
  unfold jobOfRow. destruct (_ || _); [done|]. destruct (Atoi _); [|done].
  destruct (jobCache !! _) eqn:Hc; [|done]. intros Heq. by simplify_eq.
Qed.

(** The shape of the records of each loop. *)
Lemma testRow_shape clock testCache row st :
  (∀ k b, st.1 !! k = Some b →
     Jobs b = [] ∧ Tests b ≠ [] ∧ ∀ t, t ∈ Tests b → ∃ name, testCache !! name = Some t) →
  ∀ k b, (testRow clock testCache row st).1 !! k = Some b →
    Jobs b = [] ∧ Tests b ≠ [] ∧ ∀ t, t ∈ Tests b → ∃ name, testCache !! name = Some t.
Proof.
  intros Hst k b. rewrite testRow_lookup.
  destruct (testOfRow testCache row) as [[id test]|] eqn:Hrow; [|apply Hst].
  case_decide as Hk; [subst k|apply Hst].
  intros Heq. injection Heq as <-. apply testOfRow_cache in Hrow.
  destruct (st.1 !! id) as [b0|] eqn:Hb0.
  - destruct (Hst _ _ Hb0) as (Hjobs & Htests & Hknown). simpl.
    split; [done|]. split; [by destruct (Tests b0)|].
    intros t Ht. apply elem_of_app in Ht as [Ht|Ht]; [by apply Hknown|].
    apply list_elem_of_singleton in Ht as ->. eauto.
  - simpl. split; [done|]. split; [done|].
    intros t Ht. apply list_elem_of_singleton in Ht as ->. eauto.
Qed.

Lemma jobRow_shape clock jobCache row st :
  (∀ k b, st.1 !! k = Some b →
     Tests b = [] ∧ Jobs b ≠ [] ∧ ∀ j, j ∈ Jobs b → ∃ name, jobCache !! name = Some j) →
  ∀ k b, (jobRow clock jobCache row st).1 !! k = Some b →
    Tests b = [] ∧ Jobs b ≠ [] ∧ ∀ j, j ∈ Jobs b → ∃ name, jobCache !! name = Some j.
Proof.
  intros Hst k b. rewrite jobRow_lookup.
  destruct (jobOfRow jobCache row) as [[id job]|] eqn:Hrow; [|apply Hst].
  case_decide as Hk; [subst k|apply Hst].
  intros Heq. injection Heq as <-. apply jobOfRow_cache in Hrow.
  destruct (st.1 !! id) as [b0|] eqn:Hb0.
  - destruct (Hst _ _ Hb0) as (Htests & Hjobs & Hknown). simpl.
    split; [done|]. split; [by destruct (Jobs b0)|].
    intros j Hj. apply elem_of_app in Hj as [Hj|Hj]; [by apply Hknown|].
    apply list_elem_of_singleton in Hj as ->. eauto.
  - simpl. split; [done|]. split; [done|].
    intros j Hj. apply list_elem_of_singleton in Hj as ->. eauto.
Qed.

Lemma triageRow_shape clock row st :
  (∀ k b, st.1 !! k = Some b → Tests b = [] ∧ Jobs b = []) →
  ∀ k b, (triageRow clock row st).1 !! k = Some b → Tests b = [] ∧ Jobs b = [].
Proof.
  intros Hst k b. rewrite triageRow_lookup.
  destruct (keyOfRow row) as [id|] eqn:Hrow; [|apply Hst].
  case_decide as Hk; [subst k|apply Hst].
  intros Heq. injection Heq as <-.
  destruct (st.1 !! id) as [b0|] eqn:Hb0; [by eapply Hst|done].
Qed.

(** The three mapping sets of a completed first part of [Load], as
    folds over the rows that were read. *)
Lemma fetch_folds (env : Env Test ProwJob) (r : Run Test ProwJob)
    testBugs jobBugs triageBugs triages r1 :
  fetch env r = Fetched testBugs jobBugs triageBugs triages r1 →
  ∃ testCache jobCache keys testRows jobRows triageRows bl0 bl1 bl2 bl1' bl2' bl3',
    LoadTestCache env = Ok testCache ∧ LoadProwJobCache env = Ok jobCache
    ∧ ListTriages env = Ok triages ∧ triageKeys triages = Ok keys
    ∧ testQuery env = Ok (Ok <$> testRows) ∧ jobQuery env = Ok (Ok <$> jobRows)
    ∧ triageQuery env keys = Ok (Ok <$> triageRows)
    ∧ foldl (fun st row => testRow (clock env) testCache row st) (∅, bl0) testRows
      = (testBugs, bl1')
    ∧ foldl (fun st row => jobRow (clock env) jobCache row st) (∅, bl1) jobRows
      = (jobBugs, bl2')
    ∧ foldl (fun st row => triageRow (clock env) row st) (∅, bl2) triageRows
      = (triageBugs, bl3').
Proof.
  intros Hfetch. apply fetch_inv in Hfetch
    as (testCache & jobCache & bl1 & bl2 & bl3 & Hc1 & Htest & Hc2 & Hjob & Hl & Htriage & _).
  unfold getTestBugMappings in Htest. unfold getJobBugMappings in Hjob.
  unfold getTriageBugMappings in Htriage.
  destruct (triageKeys triages) as [keys|] eqn:Hkeys; [|done].
  apply runQuery_Ok_rows in Htest as (testRows & Hq1 & Hf1).
  apply runQuery_Ok_rows in Hjob as (jobRows & Hq2 & Hf2).
  apply runQuery_Ok_rows in Htriage as (triageRows & Hq3 & Hf3).
  exists testCache, jobCache, keys, testRows, jobRows, triageRows.
  exists (r_bl r), bl1, bl2, bl1, bl2, bl3. by repeat split.
Qed.

Lemma fetch_shape (env : Env Test ProwJob) (r : Run Test ProwJob)
    testBugs jobBugs triageBugs triages r1 :
  fetch env r = Fetched testBugs jobBugs triageBugs triages r1 →
  (∀ k b, testBugs !! k = Some b → Jobs b = [] ∧ Tests b ≠ [])
  ∧ (∀ k b, jobBugs !! k = Some b → Tests b = [] ∧ Jobs b ≠ [])
  ∧ (∀ k b, triageBugs !! k = Some b → Tests b = [] ∧ Jobs b = []).
Proof.
  intros Hfetch. apply fetch_folds in Hfetch
    as (testCache & jobCache & keys & testRows & jobRows & triageRows
        & bl0 & bl1 & bl2 & bl1' & bl2' & bl3'
        & _ & _ & _ & _ & _ & _ & _ & Hf1 & Hf2 & Hf3).
  split; [|split].
  - intros k b Hb.
    pose proof (foldl_rows_invariant
      (fun _ b => Jobs b = [] ∧ Tests b ≠ [] ∧ ∀ t, t ∈ Tests b → ∃ name, testCache !! name = Some t)
      (testRow (clock env) testCache) testRows (∅, bl0)) as Hinv.
    rewrite Hf1 in Hinv. destruct (Hinv (testRow_shape _ _)
      ltac:(intros ? ? H; simpl in H; by rewrite lookup_empty in H) k b Hb) as (? & ? & _).
    done.
  - intros k b Hb.
    pose proof (foldl_rows_invariant
      (fun _ b => Tests b = [] ∧ Jobs b ≠ [] ∧ ∀ j, j ∈ Jobs b → ∃ name, jobCache !! name = Some j)
      (jobRow (clock env) jobCache) jobRows (∅, bl1)) as Hinv.
    rewrite Hf2 in Hinv. destruct (Hinv (jobRow_shape _ _)
      ltac:(intros ? ? H; simpl in H; by rewrite lookup_empty in H) k b Hb) as (? & ? & _).
    done.
  - intros k b Hb.
    pose proof (foldl_rows_invariant (fun _ b => Tests b = [] ∧ Jobs b = [])
      (triageRow (clock env)) triageRows (∅, bl2)) as Hinv.
    rewrite Hf3 in Hinv.
    exact (Hinv (triageRow_shape _) ltac:(intros ? ? H; simpl in H; by rewrite lookup_empty in H) k b Hb).
Qed.

End MappingFacts.

Section MappingTheorems.

Import BugLoader LoaderProps Samples.

Context {Test ProwJob : Type} `{!EqDecision Test, !EqDecision ProwJob}.

Implicit Types (env : Env Test ProwJob) (r : Run Test ProwJob).
Implicit Types (testBugs jobBugs triageBugs : gmap Z (Bug Test ProwJob)).
Implicit Types (testCache : gmap string Test) (jobCache : gmap string ProwJob).

(** X1. Every record of the three mapping sets that the first part of
    [Load] builds is stored under its own ID, the ID is a 64-bit unsigned
    number (the conversion [uint] of the parsed Jira ID), and the URL of
    the record is the canonical URL of its key. *)
Theorem fetch_records_wellKeyed env r testBugs jobBugs triageBugs triages r1 (k : Z)
    (b : Bug Test ProwJob) :
  fetch env r = Fetched testBugs jobBugs triageBugs triages r1 →
  testBugs !! k = Some b ∨ jobBugs !! k = Some b ∨ triageBugs !! k = Some b →
  wellKeyed k b.
Proof.
  intros Hfetch Hb. apply fetch_folds in Hfetch
    as (testCache & jobCache & keys & testRows & jobRows & triageRows
        & bl0 & bl1 & bl2 & bl1' & bl2' & bl3'
        & _ & _ & _ & _ & _ & _ & _ & Hf1 & Hf2 & Hf3).
  assert (∀ (k : Z) (b : Bug Test ProwJob) (bl : BugLoader),
            ((∅, bl) : LoopState Test ProwJob).1 !! k = Some b → wellKeyed k b) as Hempty.
  { intros k' b' bl H. simpl in H. by rewrite lookup_empty in H. }
  destruct Hb as [Hb|[Hb|Hb]].
  - pose proof (foldl_rows_invariant (@wellKeyed Test ProwJob) (testRow (clock env) testCache)
                  testRows (∅, bl0) (testRow_wellKeyed _ _)) as Hinv.
    rewrite Hf1 in Hinv. eapply Hinv; [|exact Hb]. intros ? ?. apply Hempty.
  - pose proof (foldl_rows_invariant (@wellKeyed Test ProwJob) (jobRow (clock env) jobCache)
                  jobRows (∅, bl1) (jobRow_wellKeyed _ _)) as Hinv.
    rewrite Hf2 in Hinv. eapply Hinv; [|exact Hb]. intros ? ?. apply Hempty.
  - pose proof (foldl_rows_invariant (@wellKeyed Test ProwJob) (triageRow (clock env))
                  triageRows (∅, bl2) (triageRow_wellKeyed _)) as Hinv.
    rewrite Hf3 in Hinv. eapply Hinv; [|exact Hb]. intros ? ?. apply Hempty.
Qed.

(** X2. In the mapping sets the first part of [Load] builds, a record
    of the test mappings has at least one test, every one of them from
    the test cache, and no job; a record of the job mappings has at least
    one job, every one of them from the job cache, and no test; a record
    of the triage mappings has neither. *)
Theorem fetch_association_shape env r testBugs jobBugs triageBugs triages r1
    testCache jobCache :
  fetch env r = Fetched testBugs jobBugs triageBugs triages r1 →
  LoadTestCache env = Ok testCache → LoadProwJobCache env = Ok jobCache →
  (∀ (k : Z) b, testBugs !! k = Some b →
     Jobs b = [] ∧ Tests b ≠ [] ∧ ∀ t, t ∈ Tests b → ∃ name, testCache !! name = Some t)
  ∧ (∀ (k : Z) b, jobBugs !! k = Some b →
       Tests b = [] ∧ Jobs b ≠ [] ∧ ∀ j, j ∈ Jobs b → ∃ name, jobCache !! name = Some j)
  ∧ (∀ (k : Z) b, triageBugs !! k = Some b → Tests b = [] ∧ Jobs b = []).
Proof.
  intros Hfetch Hc1 Hc2.
  pose proof (fetch_shape _ _ _ _ _ _ _ Hfetch) as (_ & _ & Htriage).
  apply fetch_folds in Hfetch
    as (testCache' & jobCache' & keys & testRows & jobRows & triageRows
        & bl0 & bl1 & bl2 & bl1' & bl2' & bl3'
        & Hc1' & Hc2' & _ & _ & _ & _ & _ & Hf1 & Hf2 & _).
  rewrite Hc1 in Hc1'. rewrite Hc2 in Hc2'.
  injection Hc1' as <-. injection Hc2' as <-.
  split; [|split; [|exact Htriage]].
  - intros k b Hb.
    pose proof (foldl_rows_invariant
      (fun _ (b : Bug Test ProwJob) =>
         Jobs b = [] ∧ Tests b ≠ []
         ∧ ∀ t, t ∈ Tests b → ∃ name, testCache !! name = Some t)
      (testRow (clock env) testCache) testRows (∅, bl0) (testRow_shape _ _)) as Hinv.
    rewrite Hf1 in Hinv. eapply Hinv; [|exact Hb].
    intros ? ? H. simpl in H. by rewrite lookup_empty in H.
  - intros k b Hb.
    pose proof (foldl_rows_invariant
      (fun _ (b : Bug Test ProwJob) =>
         Tests b = [] ∧ Jobs b ≠ []
         ∧ ∀ j, j ∈ Jobs b → ∃ name, jobCache !! name = Some j)
      (jobRow (clock env) jobCache) jobRows (∅, bl1) (jobRow_shape _ _)) as Hinv.
    rewrite Hf2 in Hinv. eapply Hinv; [|exact Hb].
    intros ? ? H. simpl in H. by rewrite lookup_empty in H.
Qed.

(** X3. In the merged set of [Load] every record carries exactly the
    tests its ID has in the test mappings and the jobs it has in the job
    mappings: the overwrite of [Jobs] in the merge discards no job,
    since the records of the test mappings have none. *)
Theorem merged_associations env r testBugs jobBugs triageBugs triages r1 (k : Z)
    (b : Bug Test ProwJob) :
  fetch env r = Fetched testBugs jobBugs triageBugs triages r1 →
  mergeBugs testBugs jobBugs triageBugs !! k = Some b →
  Tests b = from_option Tests [] (testBugs !! k)
  ∧ Jobs b = from_option Jobs [] (jobBugs !! k).
Proof.
  intros Hfetch Hb.
  destruct (fetch_keyed _ _ _ _ _ _ _ Hfetch) as (_ & Hk2 & Hk3).
  destruct (fetch_shape _ _ _ _ _ _ _ Hfetch) as (Htest & Hjob & Htriage).
  rewrite mergeBugs_lookup, mergeJobs_lookup in Hb by done.
  destruct (jobBugs !! k) as [j|] eqn:Hj; [destruct (testBugs !! k) as [t|] eqn:Ht|];
    simpl.
  - by simplify_eq.
  - simplify_eq. by destruct (Hjob _ _ Hj) as [-> _].
  - destruct (testBugs !! k) as [t|] eqn:Ht; simpl.
    + simplify_eq. by destruct (Htest _ _ Ht) as [-> _].
    + by destruct (Htriage _ _ Hb) as [-> ->].
Qed.

(** The test mapping of a fold over rows, ID by ID. *)
Lemma foldl_testRow_lookup (clock : nat → Z) testCache (rows : list bigQueryBug)
    (st : LoopState Test ProwJob) (k : Z) :
  let res := (foldl (fun st row => testRow clock testCache row st) st rows).1 !! k in
  match st.1 !! k with
  | Some b0 => res = Some (set_Tests b0 (Tests b0 ++ testsFor testCache k rows))
  | None =>
      match firstRowFor testCache k rows with
      | Some row =>
          ∃ now, res = Some (set_Tests (bigQueryBugToModel now (set_ID row k))
                               (testsFor testCache k rows))
      | None => res = None
      end
  end.
Proof.
  revert st. induction rows as [|row rows IH]; intros st; simpl.
  - destruct (st.1 !! k) as [b0|] eqn:Hb0; [|done].
    rewrite app_nil_r. by destruct b0.
  - specialize (IH (testRow clock testCache row st)). simpl in IH.
    rewrite testRow_lookup in IH.
    unfold testsFor, firstRowFor in *. simpl.
    destruct (testOfRow testCache row) as [[id test]|] eqn:Hrow.
    + destruct (decide (k = id)) as [->|Hne].
      * rewrite decide_True by done. rewrite bool_decide_eq_true_2 by done. simpl.
        destruct (st.1 !! id) as [b0|] eqn:Hb0.
        -- rewrite IH. simpl. by rewrite <- app_assoc.
        -- exists (clock (ticks st.2)). rewrite IH. done.
      * rewrite (decide_False (P := id = k)) by done.
        rewrite bool_decide_eq_false_2 by done. exact IH.
    + exact IH.
Qed.

(** X4. When [getTestBugMappings] returns a mapping, every row of the
    query was read, and for each ID: the mapping has a record exactly
    when some row contributes a known test to the ID; the columns of the
    record are those of the first such row (later rows do not update
    them), and its tests are the tests of all such rows, in row order. *)
Theorem getTestBugMappings_rows (clock : nat → Z) (q : QueryResult) testCache
    (bl bl' : BugLoader) testBugs :
  getTestBugMappings clock q testCache bl = (Ok testBugs, bl') →
  ∃ rows,
    q = Ok (Ok <$> rows)
    ∧ ∀ k : Z,
        match firstRowFor testCache k rows with
        | Some row =>
            ∃ now, testBugs !! k
                   = Some (set_Tests (bigQueryBugToModel now (set_ID row k))
                             (testsFor testCache k rows))
        | None => testBugs !! k = None
        end.
Proof.
  unfold getTestBugMappings. intros Hrun.
  apply runQuery_Ok_rows in Hrun as (rows & -> & Hfold).
  exists rows. split; [done|]. intros k.
  pose proof (foldl_testRow_lookup clock testCache rows (∅, bl) k) as Hk.
  simpl in Hk. rewrite lookup_empty, Hfold in Hk. exact Hk.
Qed.

(** The IDs of a fold of the triage loop. *)
Lemma foldl_triageRow_is_Some (clock : nat → Z) (rows : list bigQueryBug)
    (st : LoopState Test ProwJob) (k : Z) :
  is_Some ((foldl (fun st row => triageRow clock row st) st rows).1 !! k)
  ↔ is_Some (st.1 !! k) ∨ ∃ row, row ∈ rows ∧ keyOfRow row = Some k.
Proof.
  revert st. induction rows as [|row rows IH]; intros st; simpl.
  - split; [by left|]. intros [?|(row & Hin & _)]; [done|]. by apply elem_of_nil in Hin.
  - rewrite IH, triageRow_lookup. split.
    + intros [Hst|(row' & Hin & Hkey)].
      * destruct (keyOfRow row) as [id|] eqn:Hrow; [|by left].
        case_decide as Hk; [subst k|by left]. right. exists row. split; [left|done].
      * right. exists row'. split; [by right|done].
    + intros [Hst|(row' & Hin & Hkey)].
      * left. destruct (keyOfRow row) as [id|]; [|done].
        case_decide; [by eexists|done].
      * apply elem_of_cons in Hin as [->|Hin].
        -- left. rewrite Hkey. rewrite decide_True by done. by eexists.
        -- right. by exists row'.
Qed.

(** X5. When [getTriageBugMappings] returns a mapping, the URL of every
    triage parsed to a key, the warehouse was asked for exactly these
    keys, one per triage and in their order, every row was read, and the
    mapping has a record for exactly the IDs of the rows whose Jira ID
    parses: no test or job name is needed. *)
Theorem getTriageBugMappings_existence (clock : nat → Z)
    (q : list string → QueryResult) (triages : list (Triage Test ProwJob))
    (bl bl' : BugLoader) triageBugs :
  getTriageBugMappings clock q triages bl = (Ok triageBugs, bl') →
  ∃ keys rows,
    Forall2 (fun t key => parseBugKeyFromURL (t_URL t) = Ok key) triages keys
    ∧ q keys = Ok (Ok <$> rows)
    ∧ ∀ k : Z, is_Some (triageBugs !! k) ↔ ∃ row, row ∈ rows ∧ keyOfRow row = Some k.
Proof.
  unfold getTriageBugMappings. intros Hrun.
  destruct (triageKeys triages) as [keys|] eqn:Hkeys; [|done].
  apply runQuery_Ok_rows in Hrun as (rows & Hq & Hfold).
  exists keys, rows. split; [|split; [done|]].
  - clear Hq Hfold. revert keys Hkeys.
    induction triages as [|t triages IH]; intros keys Hkeys; simpl in Hkeys.
    + simplify_eq. constructor.
    + destruct (parseBugKeyFromURL (t_URL t)) as [key|] eqn:Hkey; [|done].
      destruct (triageKeys triages) as [keys'|]; [|done].
      simplify_eq. constructor; [done|]. by apply IH.
  - intros k.
    pose proof (foldl_triageRow_is_Some clock rows (∅, bl) k) as Hk.
    rewrite Hfold in Hk. simpl in Hk. rewrite Hk, lookup_empty. split.
    + intros [[? ?]|?]; done.
    + by right.
Qed.

End MappingTheorems.

(** ** How a run of the bug loader ends *)

Section RunFacts.

Import BugLoader LoaderProps Samples.

Context {Test ProwJob : Type} `{!EqDecision Test, !EqDecision ProwJob}.

Implicit Types (env : Env Test ProwJob) (r : Run Test ProwJob) (faults : Faults).
Implicit Types (testBugs jobBugs triageBugs : gmap Z (Bug Test ProwJob)).
Implicit Types (bug : Bug Test ProwJob) (l : list (Bug Test ProwJob)).
Implicit Types (t : Triage Test ProwJob) (triages : list (Triage Test ProwJob)).

(** X6. When [Load] returns early, a cache or the triage list failed
    to load; the error is the last one of [bl.errors], and both tables
    of the store are as they were. *)
Theorem Load_early_return env r r' :
  Load env r = Returned r' →
  r_bugs r' = r_bugs r ∧ r_triages r' = r_triages r
  ∧ ∃ e, last (errors (r_bl r')) = Some e
         ∧ (LoadTestCache env = Fail e ∨ LoadProwJobCache env = Fail e
            ∨ ListTriages env = Fail e).
Proof.
  unfold Load, fetch. intros Hrun.
  destruct (LoadTestCache env) as [testCache|e1].
  2:{ simplify_eq. simpl. repeat split. exists e1. rewrite last_snoc. auto. }
  destruct (getTestBugMappings _ _ _ _) as [[tb|] bl1]; [|done].
  destruct (LoadProwJobCache env) as [jobCache|e2].
  2:{ simplify_eq. simpl. repeat split. exists e2. rewrite last_snoc. auto. }
  simpl in Hrun.
  destruct (getJobBugMappings _ _ _ _) as [[jb|] bl2]; [|done].
  destruct (ListTriages env) as [ts|e3].
  2:{ simplify_eq. simpl. repeat split. exists e3. rewrite last_snoc. auto. }
  simpl in Hrun.
  destruct (getTriageBugMappings _ _ _ _) as [[trb|] bl3]; [|done].
  by destruct (reconcile _ _ _ _ _ _).
Qed.

(** The triage loop runs to its end exactly when no triage has a
    foreign key without its loaded bug. *)
Lemma foldl_relinkTriage_Some faults triages r :
  is_Some (foldl (relinkTriage faults) (Some r) triages)
  ↔ ∀ t, t ∈ triages → linkedProperly t ≠ None.
Proof.
  revert r. induction triages as [|t triages IH]; intros r; simpl.
  - split; [|by eexists]. intros _ t Hin. by apply elem_of_nil in Hin.
  - destruct (linkedProperly t) as [[|]|] eqn:Hlinked.
    + rewrite IH. split.
      * intros Hall t' Hin. apply elem_of_cons in Hin as [->|Hin]; [by rewrite Hlinked|].
        by apply Hall.
      * intros Hall t' Hin. apply Hall. by right.
    + rewrite IH. split.
      * intros Hall t' Hin. apply elem_of_cons in Hin as [->|Hin]; [by rewrite Hlinked|].
        by apply Hall.
      * intros Hall t' Hin. apply Hall. by right.
    + rewrite foldl_relinkTriage_None. split.
      * by intros [? ?].
      * intros Hall. exfalso. apply (Hall t); [left|done].
Qed.

Lemma triageKeys_Forall2 triages (keys : list string) :
  triageKeys triages = Ok keys ↔
  Forall2 (fun t key => parseBugKeyFromURL (t_URL t) = Ok key) triages keys.
Proof.
  revert keys. induction triages as [|t triages IH]; intros keys; simpl.
  - split.
    + intros Heq. simplify_eq. constructor.
    + intros Hall. by inversion Hall.
  - split.
    + destruct (parseBugKeyFromURL (t_URL t)) as [key|] eqn:Hkey; [|done].
      destruct (triageKeys triages) as [keys'|]; [|done].
      intros Heq. simplify_eq. constructor; [done|]. by apply IH.
    + intros Hall. inversion Hall as [|? key ? keys' Hkey Hrest]; subst.
      rewrite Hkey. apply IH in Hrest. by rewrite Hrest.
Qed.

Lemma getTriageBugMappings_rows_inv (clock : nat → Z) (q : list string → QueryResult)
    triages (bl bl' : BugLoader) triageBugs :
  getTriageBugMappings clock q triages bl = (Ok triageBugs, bl') →
  ∃ keys rows,
    Forall2 (fun t key => parseBugKeyFromURL (t_URL t) = Ok key) triages keys
    ∧ q keys = Ok (Ok <$> rows).
Proof.
  unfold getTriageBugMappings. intros Hrun.
  destruct (triageKeys triages) as [keys|] eqn:Hkeys; [|done].
  apply runQuery_Ok_rows in Hrun as (rows & Hq & _).
  exists keys, rows. split; [by apply triageKeys_Forall2|done].
Qed.

(** X7. [Load] runs to its end only if the three queries ran and every
    one of their rows was read, the URL of every triage parsed to a key,
    and no triage has a foreign key without its loaded bug. *)
Theorem Load_completed_inputs env r r' :
  Load env r = Completed r' →
  ∃ triages keys testRows jobRows triageRows,
    ListTriages env = Ok triages
    ∧ Forall2 (fun t key => parseBugKeyFromURL (t_URL t) = Ok key) triages keys
    ∧ testQuery env = Ok (Ok <$> testRows)
    ∧ jobQuery env = Ok (Ok <$> jobRows)
    ∧ triageQuery env keys = Ok (Ok <$> triageRows)
    ∧ ∀ t, t ∈ triages → linkedProperly t ≠ None.
Proof.
  unfold Load. intros Hrun.
  destruct (fetch env r) as [tb jb trb ts ra| |] eqn:Hfetch; try done.
  destruct (reconcile _ _ _ _ _ ra) as [rb|] eqn:Hrec; [|done].
  pose proof (fetch_inv _ _ _ _ _ _ _ Hfetch)
    as (testCache & jobCache & bl1 & bl2 & bl3 & _ & Htest & _ & Hjob & Hl & Htriage & _).
  apply runQuery_Ok_rows in Htest as (testRows & Hq1 & _).
  apply runQuery_Ok_rows in Hjob as (jobRows & Hq2 & _).
  apply getTriageBugMappings_rows_inv in Htriage as (keys & triageRows & Hkeys & Hq3).
  exists ts, keys, testRows, jobRows, triageRows.
  repeat split; try done.
  apply reconcile_triage_loop in Hrec as (r0 & Hloop & _).
  eapply foldl_relinkTriage_Some. rewrite Hloop. by eexists.
Qed.

Lemma triageKeys_total triages :
  (∀ t, t ∈ triages → ∃ key, parseBugKeyFromURL (t_URL t) = Ok key) →
  ∃ keys, triageKeys triages = Ok keys.
Proof.
  induction triages as [|t triages IH]; intros Hall; simpl; [by eexists|].
  destruct (Hall t) as [key ->]; [left|].
  destruct IH as [keys ->]; [|by eexists].
  intros t' Hin. apply Hall. by right.
Qed.

(** X8. When the caches and the triage list load, the three queries
    run and all their rows can be read, the URL of every triage parses
    to a key and every triage with a foreign key has its bug loaded,
    [Load] runs to its end, whichever statements the store refuses. *)
Theorem Load_completes env r testCache jobCache triages testRows jobRows :
  LoadTestCache env = Ok testCache →
  LoadProwJobCache env = Ok jobCache →
  ListTriages env = Ok triages →
  testQuery env = Ok (Ok <$> testRows) →
  jobQuery env = Ok (Ok <$> jobRows) →
  (∀ keys, ∃ rows, triageQuery env keys = Ok (Ok <$> rows)) →
  (∀ t, t ∈ triages →
     (∃ key, parseBugKeyFromURL (t_URL t) = Ok key) ∧ linkedProperly t ≠ None) →
  ∃ r', Load env r = Completed r'.
Proof.
  intros Hc1 Hc2 Hl Hq1 Hq2 Hq3 Hts. unfold Load, fetch.
  rewrite Hc1. unfold getTestBugMappings, runQuery. rewrite Hq1.
  destruct (iterate_rows_Ok (Test:=Test) (ProwJob:=ProwJob) (testRow (clock env) testCache) testRows (∅, r_bl r))
    as (tb & bl1 & ->).
  rewrite Hc2. simpl. unfold getJobBugMappings, runQuery. rewrite Hq2.
  destruct (iterate_rows_Ok (Test:=Test) (ProwJob:=ProwJob) (jobRow (clock env) jobCache) jobRows (∅, bl1))
    as (jb & bl2 & ->).
  rewrite Hl. simpl. unfold getTriageBugMappings.
  destruct (triageKeys_total triages) as [keys ->]; [intros t Ht; by apply Hts|].
  destruct (Hq3 keys) as [rows Hrows]. unfold runQuery. rewrite Hrows.
  destruct (iterate_rows_Ok (Test:=Test) (ProwJob:=ProwJob) (triageRow (clock env)) rows (∅, bl2)) as (trb & bl3 & ->).
  unfold reconcile.
  match goal with
  | |- context [foldl (relinkTriage ?f) (Some ?r0) triages] =>
      destruct (proj2 (foldl_relinkTriage_Some f triages r0)) as [r' ->]
  end.
  - intros t Ht. by apply Hts.
  - by eexists.
Qed.

Lemma persistRow_succeed faults bug (old : option (Bug Test ProwJob)) :
  statementsSucceed faults (ID bug) → persistRow faults bug old = Some bug.
Proof.
  intros (Hc & Ht & Hj). unfold persistRow. rewrite Hc, Ht, Hj. by destruct bug.
Qed.

Lemma Load_bugs env r r' testBugs jobBugs triageBugs triages r1 (k : Z) :
  fetch env r = Fetched testBugs jobBugs triageBugs triages r1 →
  Load env r = Completed r' →
  keyedByID (mergeBugs testBugs jobBugs triageBugs)
  ∧ r_bugs r' !! k
    = syncRow (faults env) (mergeBugs testBugs jobBugs triageBugs) k (r_bugs r !! k).
Proof.
  intros Hfetch Hrun. unfold Load in Hrun. rewrite Hfetch in Hrun.
  destruct (reconcile _ _ _ _ _ r1) as [rb|] eqn:Hrec; [|done]. simplify_eq.
  destruct (fetch_keyed _ _ _ _ _ _ _ Hfetch) as (Hk1 & Hk2 & Hk3).
  pose proof (mergeBugs_keyed _ _ _ Hk1 Hk2 Hk3) as Hkeyed.
  apply fetch_inv in Hfetch as (_ & _ & _ & _ & _ & _ & _ & _ & _ & _ & _ & Hb & _).
  split; [done|]. by rewrite (reconcile_bugs _ _ _ _ _ _ _ k Hkeyed Hrec), Hb.
Qed.

(** X9. After a completed run of [Load], a bug of the merged set whose
    own three statements (create, replace tests, replace jobs)
    succeeded is in the bugs table exactly as merged, columns and
    associations, whatever happened to the statements of other bugs and
    to the delete. *)
Theorem Load_persists_bug env r r' testBugs jobBugs triageBugs triages r1 (k : Z) bug :
  fetch env r = Fetched testBugs jobBugs triageBugs triages r1 →
  Load env r = Completed r' →
  mergeBugs testBugs jobBugs triageBugs !! k = Some bug →
  statementsSucceed (faults env) k →
  r_bugs r' !! k = Some bug.
Proof.
  intros Hfetch Hrun Hbug Hok.
  destruct (Load_bugs _ _ _ _ _ _ _ _ k Hfetch Hrun) as [Hkeyed ->].
  unfold syncRow. rewrite Hbug. apply persistRow_succeed.
  by rewrite (Hkeyed _ _ Hbug).
Qed.

(** X10. After a completed run of [Load], for a bug of the merged set:
    when its create fails, its row is as before the run (absent if it
    was absent); when the create succeeds and the replacement of its
    tests fails, its row has the merged columns, and as tests and jobs
    the ones it had before the run together with the merged ones, which
    the create has inserted; when only the replacement of its jobs
    fails, its row has the merged columns and tests, and as jobs the
    ones it had before together with the merged ones. *)
Theorem Load_failed_statements env r r' testBugs jobBugs triageBugs triages r1 (k : Z) bug :
  fetch env r = Fetched testBugs jobBugs triageBugs triages r1 →
  Load env r = Completed r' →
  mergeBugs testBugs jobBugs triageBugs !! k = Some bug →
  (createFails (faults env) k ≠ ErrNil → r_bugs r' !! k = r_bugs r !! k)
  ∧ (createFails (faults env) k = ErrNil → replaceTestsFails (faults env) k ≠ ErrNil →
       r_bugs r' !! k
       = Some (set_Jobs
                 (set_Tests bug
                    (list_union (from_option Tests [] (r_bugs r !! k)) (Tests bug)))
                 (list_union (from_option Jobs [] (r_bugs r !! k)) (Jobs bug))))
  ∧ (createFails (faults env) k = ErrNil → replaceTestsFails (faults env) k = ErrNil →
       replaceJobsFails (faults env) k ≠ ErrNil →
       r_bugs r' !! k
       = Some (set_Jobs bug
                 (list_union (from_option Jobs [] (r_bugs r !! k)) (Jobs bug))))
  ∧ (∀ row, r_bugs r' !! k = Some row → createFails (faults env) k = ErrNil →
       (∀ x : Test, x ∈ Tests bug → x ∈ Tests row)
       ∧ (∀ y : ProwJob, y ∈ Jobs bug → y ∈ Jobs row)).
Proof.
  intros Hfetch Hrun Hbug.
  destruct (Load_bugs _ _ _ _ _ _ _ _ k Hfetch Hrun) as [Hkeyed ->].
  unfold syncRow. rewrite Hbug. unfold persistRow. rewrite (Hkeyed _ _ Hbug).
  split; [|split; [|split]].
  - intros Hc. by destruct (createFails (faults env) k).
  - intros -> Ht. by destruct (replaceTestsFails (faults env) k).
  - intros -> -> Hj. destruct (replaceJobsFails (faults env) k); try done;
      by destruct bug.
  - intros row Hrow Hc. rewrite Hc in Hrow.
    destruct (replaceTestsFails (faults env) k);
      [destruct (replaceJobsFails (faults env) k)|..];
      simplify_eq; simpl; split; intros x Hx; rewrite ?list_elem_of_union; auto.
Qed.

(** X11. After a completed run of [Load] in which no statement of the
    store failed: when the merged set is not empty, the bugs table is
    exactly the merged set, every merged bug with its columns, tests and
    jobs, and no other row; when the merged set is empty, the delete has
    no expected ID, removes nothing, and the bugs table is as before the
    run. *)
Theorem Load_mirrors_merged_set env r r' testBugs jobBugs triageBugs triages r1 :
  fetch env r = Fetched testBugs jobBugs triageBugs triages r1 →
  Load env r = Completed r' →
  (∀ k, statementsSucceed (faults env) k) →
  deleteFails (faults env) = ErrNil →
  (mergeBugs testBugs jobBugs triageBugs ≠ ∅ →
     r_bugs r' = mergeBugs testBugs jobBugs triageBugs)
  ∧ (mergeBugs testBugs jobBugs triageBugs = ∅ → r_bugs r' = r_bugs r).
Proof.
  intros Hfetch Hrun Hok Hdel. split; intros Hset; apply map_eq; intros k;
    destruct (Load_bugs _ _ _ _ _ _ _ _ k Hfetch Hrun) as [Hkeyed ->];
    unfold syncRow.
  - destruct (mergeBugs testBugs jobBugs triageBugs !! k) as [bug|] eqn:Hbug.
    + apply persistRow_succeed. rewrite (Hkeyed _ _ Hbug). apply Hok.
    + rewrite Hdel. case_decide as Hnil; [|done].
      destruct Hset. by apply rangeOver_nil.
  - rewrite Hset, lookup_empty, Hdel. case_decide as Hnil; [done|].
    destruct Hnil. by apply rangeOver_nil.
Qed.

(** The error list only grows in the persist loop and in the delete. *)
Lemma persistBug_errors faults r bug (e : error) :
  e ∈ errors (r_bl r) → e ∈ errors (r_bl (persistBug faults r bug)).
Proof.
  intros He. unfold persistBug.
  destruct (createFails faults (ID bug)); simpl; rewrite ?elem_of_app; auto;
    destruct (replaceTestsFails faults (ID bug)); simpl; rewrite ?elem_of_app; auto;
    destruct (replaceJobsFails faults (ID bug)); simpl; rewrite ?elem_of_app; auto.
Qed.

Lemma foldl_persistBug_errors faults l r (e : error) :
  e ∈ errors (r_bl r) → e ∈ errors (r_bl (foldl (persistBug faults) r l)).
Proof.
  revert r. induction l as [|b l IH]; intros r He; [done|].
  simpl. by apply IH, persistBug_errors.
Qed.

Lemma foldl_persistBug_records faults l r bug (e : error) :
  bug ∈ l →
  (∀ r0, e ∈ errors (r_bl (persistBug faults r0 bug))) →
  e ∈ errors (r_bl (foldl (persistBug faults) r l)).
Proof.
  revert r. induction l as [|b l IH]; intros r Hin He.
  - by apply elem_of_nil in Hin.
  - simpl. apply elem_of_cons in Hin as [->|Hin].
    + apply foldl_persistBug_errors, He.
    + by apply IH.
Qed.

Lemma deleteStale_errors faults (ids : list Z) r (e : error) :
  e ∈ errors (r_bl r) → e ∈ errors (r_bl (deleteStale faults ids r)).
Proof.
  intros He. unfold deleteStale.
  destruct (deleteFails faults); simpl; rewrite ?elem_of_app; auto.
Qed.

Lemma reconcile_records faults testBugs jobBugs triageBugs triages r r' bug (e : error) :
  reconcile faults testBugs jobBugs triageBugs triages r = Some r' →
  bug ∈ rangeOver (mergeBugs testBugs jobBugs triageBugs) →
  (∀ r0, e ∈ errors (r_bl (persistBug faults r0 bug))) →
  e ∈ errors (r_bl r').
Proof.
  unfold reconcile. intros Hrun Hin He.
  destruct (foldl_relinkTriage_keeps _ _ _ _ Hrun) as (_ & Herr & _).
  apply Herr. simpl. apply deleteStale_errors. simpl.
  by apply foldl_persistBug_records with bug.
Qed.

(** X12. After a completed run of [Load], every bug of the merged set
    with a failed statement has left an entry in [bl.errors]: a failed
    create its error wrapped with the message [error creating bug]; a
    failed replacement of the tests or of the jobs a nil error, because
    the code wraps the error of the create, which is nil at that point. *)
Theorem Load_records_failed_statements env r r' testBugs jobBugs triageBugs triages r1
    (k : Z) bug :
  fetch env r = Fetched testBugs jobBugs triageBugs triages r1 →
  Load env r = Completed r' →
  mergeBugs testBugs jobBugs triageBugs !! k = Some bug →
  (createFails (faults env) k ≠ ErrNil →
     Wrap (createFails (faults env) k) "error creating bug" ∈ errors (r_bl r'))
  ∧ (createFails (faults env) k = ErrNil →
       replaceTestsFails (faults env) k ≠ ErrNil
       ∨ replaceJobsFails (faults env) k ≠ ErrNil →
       ErrNil ∈ errors (r_bl r')).
Proof.
  intros Hfetch Hrun Hbug.
  destruct (fetch_keyed _ _ _ _ _ _ _ Hfetch) as (Hk1 & Hk2 & Hk3).
  pose proof (mergeBugs_keyed _ _ _ Hk1 Hk2 Hk3 _ _ Hbug) as Hid.
  unfold Load in Hrun. rewrite Hfetch in Hrun.
  destruct (reconcile _ _ _ _ _ r1) as [rb|] eqn:Hrec; [|done]. simplify_eq.
  assert (bug ∈ rangeOver (mergeBugs testBugs jobBugs triageBugs)) as Hin.
  { apply elem_of_rangeOver. eauto. }
  split.
  - intros Hc. apply (reconcile_records _ _ _ _ _ _ _ bug _ Hrec Hin).
    intros r0. unfold persistBug.
    destruct (createFails (faults env) (ID bug)); simpl; try done;
      rewrite elem_of_app; right; left.
  - intros Hc Hfail. apply (reconcile_records _ _ _ _ _ _ _ bug _ Hrec Hin).
    intros r0. unfold persistBug. rewrite Hc.
    destruct (replaceTestsFails (faults env) (ID bug)) eqn:Ht; simpl;
      try (rewrite elem_of_app; right; left).
    destruct (replaceJobsFails (faults env) (ID bug)) eqn:Hj; simpl;
      try (rewrite elem_of_app; right; left).
    by destruct Hfail.
Qed.

End RunFacts.

Section LinkFacts.

Import BugLoader LoaderProps Samples.

Context {Test ProwJob : Type} `{!EqDecision Test, !EqDecision ProwJob}.

Implicit Types (env : Env Test ProwJob) (r : Run Test ProwJob) (faults : Faults).
Implicit Types (t : Triage Test ProwJob) (triages : list (Triage Test ProwJob)).
Implicit Types (testBugs jobBugs triageBugs : gmap Z (Bug Test ProwJob)).

(** Every row of the triages table is left by the triage loop as it
    was, or is the last write of a triage of the list. *)
Lemma foldl_relinkTriage_rows faults triages r r' (k : Z) :
  foldl (relinkTriage faults) (Some r) triages = Some r' →
  r_triages r' !! k = r_triages r !! k
  ∨ ∃ t bug, t ∈ triages ∧ t_ID t = k ∧ linkedProperly t = Some false
             ∧ First faults (r_bugs r) (t_URL t) = Ok bug
             ∧ saveFails faults (t_ID t) = ErrNil
             ∧ r_triages r' !! k = Some (set_link t bug).
Proof.
  revert r. induction triages as [|t0 triages IH]; intros r Hrun; simpl in Hrun.
  - left. by simplify_eq.
  - destruct (linkedProperly t0) as [[|]|] eqn:Hlinked.
    + destruct (IH _ Hrun) as [Hsame|(t & bug & Hin & ?)]; [by left|].
      right. exists t, bug. split; [by right|done].
    + destruct (IH _ Hrun) as [Hsame|(t & bug & Hin & Hid & Hl & Hfirst & Hrest)].
      * rewrite Hsame. unfold relink.
        destruct (First faults (r_bugs r) (t_URL t0)) as [bug|e] eqn:Hfirst; [|by left].
        destruct (saveFails faults (t_ID t0)) eqn:Hsave; simpl; try by left.
        destruct (decide (k = t_ID t0)) as [->|Hne].
        -- right. exists t0, bug. rewrite lookup_insert_eq.
           repeat split; try done. left.
        -- left. by rewrite lookup_insert_ne.
      * right. exists t, bug. rewrite relink_bugs in Hfirst.
        split; [by right|done].
    + by rewrite foldl_relinkTriage_None in Hrun.
Qed.

(** X13. After a completed run of [Load], every row of the triages
    table is as before the run, or is a triage of the list that was not
    linked to a bug with its own URL, saved with its foreign key and its
    cached bug set to a bug that the bugs table holds after the run and
    that has the URL of the triage; no other column of it changes and no
    row is removed. *)
Theorem Load_triage_rows env r r' (k : Z) :
  Load env r = Completed r' →
  r_triages r' !! k = r_triages r !! k
  ∨ ∃ triages t bug (kb : Z),
      ListTriages env = Ok triages ∧ t ∈ triages ∧ t_ID t = k
      ∧ linkedProperly t = Some false
      ∧ r_bugs r' !! kb = Some bug ∧ URL bug = t_URL t
      ∧ r_triages r' !! k = Some (set_link t bug).
Proof.
  intros Hrun. unfold Load in Hrun.
  destruct (fetch env r) as [tb jb trb triages r1| |] eqn:Hfetch; [|done..].
  destruct (reconcile _ _ _ _ _ r1) as [rb|] eqn:Hrec; [|done]. simplify_eq.
  apply fetch_inv in Hfetch as (_ & _ & _ & _ & _ & _ & _ & _ & _ & Hlist & _ & _ & Htr).
  apply reconcile_triage_loop in Hrec as (r0 & Hloop & Htr0).
  pose proof (foldl_relinkTriage_bugs _ _ _ _ Hloop) as Hbugs.
  destruct (foldl_relinkTriage_rows _ _ _ _ k Hloop)
    as [Hsame|(t & bug & Hin & Hid & Hl & Hfirst & _ & Hrow)].
  - left. by rewrite Hsame, Htr0, Htr.
  - right. apply First_Ok in Hfirst as [Hurl [kb Hkb]].
    exists triages, t, bug, kb. rewrite Hbugs. by repeat split.
Qed.

(** X14. A completed run of [Load] over triages that are all linked to
    a bug with their own URL leaves the triages table as it was. *)
Theorem Load_linked_triages_untouched env r r' triages :
  Load env r = Completed r' →
  ListTriages env = Ok triages →
  (∀ t, t ∈ triages → linkedProperly t = Some true) →
  r_triages r' = r_triages r.
Proof.
  intros Hrun Hlist Hall. unfold Load in Hrun.
  destruct (fetch env r) as [tb jb trb triages' r1| |] eqn:Hfetch; [|done..].
  destruct (reconcile _ _ _ _ _ r1) as [rb|] eqn:Hrec; [|done]. simplify_eq.
  apply fetch_inv in Hfetch as (_ & _ & _ & _ & _ & _ & _ & _ & _ & Hlist' & _ & _ & Htr).
  rewrite Hlist in Hlist'. injection Hlist' as <-.
  apply reconcile_triage_loop in Hrec as (r0 & Hloop & Htr0).
  apply map_eq. intros k.
  destruct (foldl_relinkTriage_rows _ _ _ _ k Hloop)
    as [Hsame|(t & bug & Hin & Hid & Hl & _)].
  - by rewrite Hsame, Htr0, Htr.
  - rewrite (Hall t Hin) in Hl. discriminate.
Qed.

End LinkFacts.

Section MergeOrder.

Import BugLoader LoaderProps.

Context {Test ProwJob : Type} `{!EqDecision Test, !EqDecision ProwJob}.

Implicit Types (testBugs jobBugs triageBugs : gmap Z (Bug Test ProwJob)).
Implicit Types (l : list (Bug Test ProwJob)) (faults : Faults).

(** X15. The merged set of [Load] has a record for exactly the IDs of
    the three mapping sets; an ID of the test mappings alone keeps its
    record, and an ID of the triage mappings alone gets theirs. *)
Theorem mergeBugs_tickets testBugs jobBugs triageBugs :
  keyedByID jobBugs → keyedByID triageBugs →
  (∀ k : Z, is_Some (mergeBugs testBugs jobBugs triageBugs !! k)
            ↔ is_Some (testBugs !! k) ∨ is_Some (jobBugs !! k)
              ∨ is_Some (triageBugs !! k))
  ∧ (∀ (k : Z) b, testBugs !! k = Some b → jobBugs !! k = None →
       mergeBugs testBugs jobBugs triageBugs !! k = Some b)
  ∧ (∀ (k : Z) b, testBugs !! k = None → jobBugs !! k = None →
       triageBugs !! k = Some b →
       mergeBugs testBugs jobBugs triageBugs !! k = Some b).
Proof.
  intros Hjob Htriage. split; [|split].
  - intros k. rewrite mergeBugs_lookup, mergeJobs_lookup by done.
    destruct (jobBugs !! k), (testBugs !! k), (triageBugs !! k); simpl;
      split; eauto; intros [[? ?]|[[? ?]|[? ?]]]; done.
  - intros k b Ht Hj. by rewrite mergeBugs_lookup, mergeJobs_lookup, Hj, Ht by done.
  - intros k b Ht Hj Htr. by rewrite mergeBugs_lookup, mergeJobs_lookup, Hj, Ht by done.
Qed.

(** X16. Go ranges over a map in an unspecified order; the merged set
    and the bugs table after the persist loop are the same for every
    order in which the job mappings, the triage mappings and the merged
    set are visited. *)
Theorem Load_range_order testBugs jobBugs triageBugs faults (r : Run Test ProwJob)
    l1 l2 l3 :
  keyedByID testBugs → keyedByID jobBugs → keyedByID triageBugs →
  l1 ≡ₚ rangeOver jobBugs → l2 ≡ₚ rangeOver triageBugs →
  l3 ≡ₚ rangeOver (mergeBugs testBugs jobBugs triageBugs) →
  foldl mergeTriage (foldl mergeJob testBugs l1) l2 = mergeBugs testBugs jobBugs triageBugs
  ∧ r_bugs (foldl (persistBug faults) r l3)
    = r_bugs (foldl (persistBug faults) r
                (rangeOver (mergeBugs testBugs jobBugs triageBugs))).
Proof.
  intros Htest Hjob Htriage H1 H2 H3. split.
  - unfold mergeBugs.
    rewrite (foldl_mergeJob_perm l1 (rangeOver jobBugs)); [|done|].
    + apply foldl_mergeTriage_perm; [done|]. rewrite H2. by apply rangeOver_NoDup.
    + rewrite H1. by apply rangeOver_NoDup.
  - apply foldl_persistBug_perm; [done|]. rewrite H3.
    apply rangeOver_NoDup. by apply mergeBugs_keyed.
Qed.

End MergeOrder.

(** ** The query of one job run *)

Section JobRunFacts.

Import JobArtifacts JobRuns.

Variable maxJobFilesToScan : nat.
Variable GcsBucketRoot : string.
Variable Content : Type.
Variable Payload : Type.
Variable Quote : string → string.

Local Abbreviation getJobRun := (@JobRuns.getJobRun GcsBucketRoot Payload Quote).
Local Abbreviation queryJobArtifacts :=
  (@JobRuns.queryJobArtifacts maxJobFilesToScan GcsBucketRoot Content Payload Quote).
Local Abbreviation getJobRunFiles := (@JobArtifacts.getJobRunFiles maxJobFilesToScan Content Payload).
Local Abbreviation marker := (JobRuns.marker GcsBucketRoot).

Lemma append_nil_l (t : string) : "" +:+ t = t.
Proof. reflexivity. Qed.

Lemma append_cons (c : ascii) (p t : string) : String c p +:+ t = String c (p +:+ t).
Proof. reflexivity. Qed.

Lemma prefix_nil (s : string) : String.prefix "" s = true.
Proof. by destruct s. Qed.

Lemma prefix_cons (c c' : ascii) (p s : string) :
  String.prefix (String c p) (String c' s)
  = (if Ascii.ascii_dec c c' then String.prefix p s else false).
Proof. reflexivity. Qed.

Lemma prefix_app (p s : string) : String.prefix p s = true ↔ ∃ t, s = p +:+ t.
Proof.
  revert s. induction p as [|c p IH]; intros s.
  - rewrite prefix_nil. split; [intros _; by exists s|done].
  - destruct s as [|c' s].
    + split; [done|]. intros [t Ht]. by rewrite append_cons in Ht.
    + rewrite prefix_cons. destruct (Ascii.ascii_dec c c') as [->|Hne].
      * rewrite IH. split; intros [t Ht]; exists t.
        -- by rewrite append_cons, Ht.
        -- rewrite append_cons in Ht. by simplify_eq.
      * split; [done|]. intros [t Ht]. rewrite append_cons in Ht. by simplify_eq.
Qed.

Lemma sliceFrom_app (p t : string) : sliceFrom (p +:+ t) (String.length p) = t.
Proof. induction p as [|c p IH]; [done|]. rewrite append_cons. simpl. exact IH. Qed.

Lemma Index_nil (substr : string) :
  Index "" substr = if String.prefix substr "" then Some 0 else None.
Proof. reflexivity. Qed.

Lemma Index_cons (c : ascii) (s substr : string) :
  Index (String c s) substr
  = if String.prefix substr (String c s) then Some 0 else S <$> Index s substr.
Proof. reflexivity. Qed.

(** [strings.Index] finds the first instance. *)
Lemma Index_Some (s substr : string) (n : nat) :
  Index s substr = Some n →
  ∃ pre tail,
    s = pre +:+ substr +:+ tail ∧ String.length pre = n
    ∧ sliceFrom s (n + String.length substr) = tail.
Proof.
  revert n. induction s as [|c s IH]; intros n.
  - rewrite Index_nil. destruct (String.prefix substr "") eqn:Hp; [|done].
    intros [= <-]. apply prefix_app in Hp as [t Ht]. exists "", t.
    rewrite append_nil_l. split; [done|split; [done|]].
    rewrite Ht. apply sliceFrom_app.
  - rewrite Index_cons. destruct (String.prefix substr (String c s)) eqn:Hp.
    + intros [= <-]. apply prefix_app in Hp as [t Ht]. exists "", t.
      rewrite append_nil_l. split; [done|split; [done|]].
      rewrite Ht. apply sliceFrom_app.
    + destruct (Index s substr) as [m|] eqn:Hm; [|done].
      intros [= <-]. destruct (IH m eq_refl) as (pre & tail & -> & Hlen & Hslice).
      exists (String c pre), tail. rewrite append_cons. simpl. by rewrite Hlen.
Qed.

Lemma Index_None (s substr : string) :
  Index s substr = None → ∀ pre tail, s ≠ pre +:+ substr +:+ tail.
Proof.
  induction s as [|c s IH].
  - rewrite Index_nil. destruct (String.prefix substr "") eqn:Hp; [done|].
    intros _ pre tail Heq.
    destruct pre; [|by rewrite append_cons in Heq]. rewrite append_nil_l in Heq.
    assert (String.prefix substr "" = true) as Hp' by (apply prefix_app; eauto).
    congruence.
  - rewrite Index_cons. destruct (String.prefix substr (String c s)) eqn:Hp; [done|].
    destruct (Index s substr) eqn:Hm; [done|]. intros _ pre tail Heq.
    destruct pre as [|c' pre].
    + rewrite append_nil_l in Heq.
      assert (String.prefix substr (String c s) = true) as Hp'
        by (apply prefix_app; eauto).
      congruence.
    + rewrite append_cons in Heq. injection Heq as -> Heq.
      by apply (IH eq_refl pre tail).
Qed.

Lemma HasSuffixByte_snoc (s : string) (c : ascii) :
  BugLoader.HasSuffixByte c (s +:+ String c "") = true.
Proof.
  induction s as [|c' s IH].
  - rewrite append_nil_l. simpl. unfold BugLoader.ascii_eqb. apply Ascii.eqb_refl.
  - rewrite append_cons. simpl.
    destruct (s +:+ String c "") eqn:Hs; [|exact IH].
    destruct s; [by rewrite append_nil_l in Hs|by rewrite append_cons in Hs].
Qed.

(** X17. When [getJobRun] returns no error, the row of the job run was
    read, its URL holds the marker [/<bucket root>/], the path returned
    is what follows the first instance of the marker, with a slash added
    unless it ends with one, so it always ends with a slash; the
    response has the ID, the job name and the URL and nothing else. *)
Theorem getJobRun_path (dbClient : DbClient) (jobRunID : Z) jobRunPath
    (jobRunResponse : JobRun Payload) :
  getJobRun dbClient jobRunID = (jobRunPath, jobRunResponse, ErrNil) →
  ∃ jobRunModel pre tail,
    dbClient jobRunID = (jobRunModel, ErrNil)
    ∧ run_URL jobRunModel = pre +:+ marker +:+ tail
    ∧ Index (run_URL jobRunModel) marker = Some (String.length pre)
    ∧ jobRunPath = (if HasSuffix tail "/" then tail else tail +:+ "/")
    ∧ HasSuffix jobRunPath "/" = true
    ∧ jobRunResponse
      = {| jr_ID := FormatInt jobRunID; jr_JobName := ProwJob_Name jobRunModel;
           jr_URL := run_URL jobRunModel;
           jr_ArtifactListTruncated := false; jr_Artifacts := [] |}.
Proof.
  unfold JobRuns.getJobRun. remember marker as mk eqn:Hmk. clear Hmk.
  destruct (dbClient jobRunID) as [jobRunModel resError].
  destruct resError; try (intros [= _ _ ?]; done).
  destruct (String.eqb (run_URL jobRunModel) ""); [done|].
  destruct (Index (run_URL jobRunModel) mk) as [pathStart|] eqn:Hidx; [|done].
  intros [= <- <-].
  destruct (Index_Some _ _ _ Hidx) as (pre & tail & Hurl & Hlen & Hslice).
  exists jobRunModel, pre, tail. rewrite Hslice, Hlen.
  repeat split; try done.
  destruct (HasSuffix tail "/") eqn:Hs; [done|]. apply HasSuffixByte_snoc.
Qed.

(** X18. [getJobRun] fails exactly when the row cannot be read or its
    URL does not hold the marker [/<bucket root>/] (an empty URL does
    not); the error of the database is returned as it is, and with every
    error the path returned is empty. *)
Theorem getJobRun_errors (dbClient : DbClient) (jobRunID : Z) :
  let '(jobRunPath, jobRunResponse, err) := getJobRun dbClient jobRunID in
  let '(jobRunModel, resError) := dbClient jobRunID in
  (err = ErrNil ↔
     resError = ErrNil ∧ ∃ pre tail, run_URL jobRunModel = pre +:+ marker +:+ tail)
  ∧ (resError ≠ ErrNil → err = resError ∧ jr_JobName jobRunResponse = "")
  ∧ (err ≠ ErrNil → jobRunPath = "" ∧ jr_ID jobRunResponse = FormatInt jobRunID).
Proof.
  unfold JobRuns.getJobRun. destruct (dbClient jobRunID) as [jobRunModel resError].
  destruct resError;
    try (repeat split; try done; by intros [? _]).
  destruct (String.eqb (run_URL jobRunModel) "") eqn:Hurl.
  - apply String.eqb_eq in Hurl. repeat split; try done.
    intros [_ (pre & tail & Heq)]. rewrite Hurl in Heq. by destruct pre.
  - destruct (Index (run_URL jobRunModel) marker) as [pathStart|] eqn:Hidx.
    + repeat split; try done.
      destruct (Index_Some _ _ _ Hidx) as (pre & tail & Heq & _). eauto.
    + repeat split; try done.
      intros [_ (pre & tail & Heq)]. by destruct (Index_None _ _ Hidx pre tail).
Qed.

(** The listing never returns more than [maxJobFilesToScan] paths, and
    what it returns are the first objects of the iterator. *)
Lemma listLoop_bound (iter : list next_result) (files out : list string) truncated
    (e : error) :
  length files ≤ maxJobFilesToScan →
  JobArtifacts.listLoop maxJobFilesToScan iter files = (out, truncated, e) →
  length out ≤ maxJobFilesToScan
  ∧ (out = [] ∨ ∃ more rest, out = files ++ more ∧ iter = (Object <$> more) ++ rest).
Proof.
  revert files. induction iter as [|[name|err] iter IH]; intros files Hlen Hrun;
    simpl in Hrun.
  - simplify_eq. split; [done|]. right. exists [], []. by rewrite app_nil_r.
  - destruct (maxJobFilesToScan <=? length files)%nat eqn:Hfull.
    + simplify_eq. split; [done|]. right. exists [], (Object name :: iter).
      by rewrite app_nil_r.
    + apply Nat.leb_gt in Hfull.
      destruct (IH (files ++ [name])) as [Hout Hpre]; [|done|].
      * rewrite length_app. simpl. lia.
      * split; [done|]. destruct Hpre as [->|(more & rest & -> & ->)]; [by left|].
        right. exists (name :: more), rest. by rewrite <- app_assoc.
  - simplify_eq. split; [simpl; lia|by left].
Qed.

(** X19. [getJobRunFiles] never returns more than [maxJobFilesToScan]
    paths, and the paths it returns are the first objects of the
    iterator, in order; when the iterator fails before the bound is
    exceeded, the paths read so far are dropped and the error is
    returned without the truncation flag. *)
Theorem getJobRunFiles_errors (q : JobArtifactQuery Content Payload) (jobRunPath : string) :
  (∀ files truncated e,
     getJobRunFiles q jobRunPath = (files, truncated, e) →
     length files ≤ maxJobFilesToScan
     ∧ ∃ rest, Objects (GcsBucket q) (jobRunQuery q jobRunPath)
               = (Object <$> files) ++ rest)
  ∧ (∀ names e rest,
       Objects (GcsBucket q) (jobRunQuery q jobRunPath)
         = (Object <$> names) ++ NextError e :: rest →
       length names ≤ maxJobFilesToScan →
       getJobRunFiles q jobRunPath = ([], false, e)).
Proof.
  split.
  - intros files truncated e Hrun. unfold JobArtifacts.getJobRunFiles in Hrun.
    apply listLoop_bound in Hrun as [Hlen Hpre]; [|simpl; lia].
    split; [done|]. destruct Hpre as [->|(more & rest & -> & Hiter)]; [by eexists|].
    by exists rest.
  - intros names e rest Hiter Hlen. unfold JobArtifacts.getJobRunFiles.
    rewrite Hiter. by rewrite listLoop_objects by (simpl; lia).
Qed.

(** X20. [queryJobArtifacts] returns an error exactly when [getJobRun]
    or the listing of its path does, and then the same error, one error
    line, no artifact and no truncation flag, without asking the manager
    for a scan; otherwise the artifacts are the manager's scan of the
    listed paths, at most [maxJobFilesToScan] of them, the flag is the
    listing's, and nothing is logged. *)
Theorem queryJobArtifacts_result (q : JobArtifactQuery Content Payload)
    (dbClient : DbClient) (jobRunID : Z) (mgr : Manager Content Payload) :
  let '(jobRunPath, response, pathErr) := getJobRun dbClient jobRunID in
  let '(filePaths, truncated, listErr) := getJobRunFiles q jobRunPath in
  let '(jobRun, err, logged) := queryJobArtifacts q dbClient jobRunID mgr in
  (pathErr ≠ ErrNil →
     jobRun = response ∧ err = pathErr
     ∧ logged = [Log LError "could not query job's bucket path" (Error_string err)])
  ∧ (pathErr = ErrNil → listErr ≠ ErrNil →
       jobRun = response ∧ err = listErr
       ∧ logged = [Log LError "could not find job artifact files" (Error_string err)])
  ∧ (err ≠ ErrNil →
       jr_Artifacts jobRun = [] ∧ jr_ArtifactListTruncated jobRun = false)
  ∧ (pathErr = ErrNil → listErr = ErrNil →
       err = ErrNil ∧ logged = []
       ∧ jr_Artifacts jobRun = mgr q jobRunID filePaths
       ∧ length filePaths ≤ maxJobFilesToScan
       ∧ jr_ArtifactListTruncated jobRun = truncated
       ∧ jr_ID jobRun = jr_ID response ∧ jr_JobName jobRun = jr_JobName response
       ∧ jr_URL jobRun = jr_URL response).
Proof.
  unfold JobRuns.queryJobArtifacts.
  destruct (getJobRun dbClient jobRunID) as [[jobRunPath response] pathErr] eqn:Hrun.
  assert (jr_Artifacts response = [] ∧ jr_ArtifactListTruncated response = false)
    as [Hart Htrunc].
  { unfold JobRuns.getJobRun in Hrun.
    destruct (dbClient jobRunID) as [m resError].
    destruct resError; try (by simplify_eq).
    destruct (String.eqb (run_URL m) ""); [by simplify_eq|].
    destruct (Index (run_URL m) marker); by simplify_eq. }
  destruct (getJobRunFiles q jobRunPath) as [[filePaths truncated] listErr] eqn:Hlist.
  pose proof (listLoop_bound _ [] _ _ _ (Nat.le_0_l _) Hlist) as [Hlen _].
  destruct pathErr; try (repeat split; done);
    destruct listErr; repeat split; done.
Qed.

End JobRunFacts.

(** ** The capabilities of the server and its endpoints *)

Section ServerFacts.

Import SippyServer.

Variable OpenshiftCapability : string.
Variable ComponentReadinessCapability : string.
Variable LocalDBCapability : string.
Variable BuildClusterCapability : string.
Variable DB : Type.
Variable HasBuildClusterData : DB → bool * error.
Variable Impl : Type.

Local Abbreviation determineCapabilities :=
  (SippyServer.determineCapabilities OpenshiftCapability ComponentReadinessCapability
     LocalDBCapability BuildClusterCapability DB HasBuildClusterData).
Local Abbreviation Serve :=
  (SippyServer.Serve OpenshiftCapability ComponentReadinessCapability
     LocalDBCapability BuildClusterCapability DB HasBuildClusterData Impl).

Implicit Types (s : Server DB) (ep : apiEndpoints Impl).

Lemma found_elem_of (cap : string) (sCaps : list string) :
  found cap sCaps = true ↔ cap ∈ sCaps.
Proof.
  induction sCaps as [|sCap rest IH]; simpl.
  - split; [done|]. intros H. by apply elem_of_nil in H.
  - rewrite elem_of_cons. destruct (String.eqb_spec cap sCap) as [->|Hne].
    + split; auto.
    + rewrite IH. split; [by right|]. by intros [?|?].
Qed.

Lemma hasCapabilities_spec s (caps : list string) :
  hasCapabilities s caps = true ↔ ∀ cap, cap ∈ caps → cap ∈ capabilities s.
Proof.
  unfold hasCapabilities. induction caps as [|cap rest IH]; simpl.
  - split; [|done]. intros _ cap H. by apply elem_of_nil in H.
  - destruct (found cap (capabilities s)) eqn:Hf.
    + apply found_elem_of in Hf. rewrite IH. split.
      * intros Hrest c Hc. apply elem_of_cons in Hc as [->|Hc]; auto.
      * intros Hall c Hc. apply Hall. by right.
    + split; [done|]. intros Hall.
      assert (found cap (capabilities s) = true) as Hf'.
      { apply found_elem_of, Hall. left. }
      congruence.
Qed.

(** X21. [hasCapabilities] holds exactly when every capability asked
    for is one of the server's, so it holds for the empty list whatever
    the server has; [requireCapabilities] returns the handler it is
    given in that case and the 501 responder otherwise. *)
Theorem hasCapabilities_subset s (caps : list string) (implFn : handler Impl) :
  (hasCapabilities s caps = true ↔ ∀ cap, cap ∈ caps → cap ∈ capabilities s)
  ∧ hasCapabilities s [] = true
  ∧ ((∀ cap, cap ∈ caps → cap ∈ capabilities s) →
       requireCapabilities s caps implFn = implFn)
  ∧ (∀ cap, cap ∈ caps → cap ∉ capabilities s →
       requireCapabilities s caps implFn = NotImplemented).
Proof.
  split; [apply hasCapabilities_spec|]. split; [done|]. split.
  - intros Hall. unfold requireCapabilities.
    by rewrite (proj2 (hasCapabilities_spec s caps) Hall).
  - intros cap Hin Hout. unfold requireCapabilities.
    destruct (hasCapabilities s caps) eqn:Hhas; [|done].
    destruct Hout. by apply (proj1 (hasCapabilities_spec s caps) Hhas).
Qed.

Lemma determineCapabilities_fields s :
  let s' := (determineCapabilities s).1 in
  mode s' = mode s ∧ db s' = db s ∧ bigQueryClient s' = bigQueryClient s
  ∧ cache s' = cache s ∧ dashboardCoordinates s' = dashboardCoordinates s.
Proof.
  unfold SippyServer.determineCapabilities.
  destruct (db s) as [dbc|] eqn:Hdb; [|by rewrite <- Hdb].
  destruct (HasBuildClusterData dbc) as [[|] err]; [by rewrite <- Hdb|].
  destruct err; by rewrite <- Hdb.
Qed.

Lemma determineCapabilities_caps s (cap : string) :
  cap ∈ capabilities (determineCapabilities s).1
  ↔ (cap = OpenshiftCapability ∧ mode s = ModeOpenShift)
    ∨ (cap = ComponentReadinessCapability ∧ bigQueryClient s = true)
    ∨ (cap = LocalDBCapability ∧ db s ≠ None)
    ∨ (cap = BuildClusterCapability
       ∧ ∃ dbc, db s = Some dbc ∧ (HasBuildClusterData dbc).1 = true).
Proof.
  unfold SippyServer.determineCapabilities.
  destruct (String.eqb_spec (mode s) ModeOpenShift) as [Hm|Hm];
    destruct (bigQueryClient s) eqn:Hbq;
    destruct (db s) as [dbc|] eqn:Hdb;
    try (destruct (HasBuildClusterData dbc) as [[|] err] eqn:Hbc; [|destruct err]);
    simpl; rewrite ?elem_of_app, ?elem_of_cons, ?elem_of_nil;
    (split;
     [ intros H; repeat destruct H as [H|H]; subst; try done;
       eauto 10 using eq_refl;
       try (do 3 right; split; [done|]; exists dbc; by rewrite Hbc)
     | intros [[-> H]|[[-> H]|[[-> H]|[-> (d & H & Hd)]]]]; try done;
       simplify_eq; try rewrite Hbc in *; simpl in *; try done; auto 10 ]).
Qed.

(** X22. After [determineCapabilities] the server has the OpenShift
    capability exactly in OpenShift mode, the component readiness
    capability exactly with a BigQuery client, the local database
    capability exactly with a database, and the build cluster capability
    exactly with a database that has build cluster data (even when the
    check also returned an error); the capabilities it had before are
    dropped, so the build cluster capability is never held without the
    local database one. *)
Theorem determineCapabilities_sound s :
  NoDup [OpenshiftCapability; ComponentReadinessCapability; LocalDBCapability;
         BuildClusterCapability] →
  let s' := (determineCapabilities s).1 in
  (OpenshiftCapability ∈ capabilities s' ↔ mode s = ModeOpenShift)
  ∧ (ComponentReadinessCapability ∈ capabilities s' ↔ bigQueryClient s = true)
  ∧ (LocalDBCapability ∈ capabilities s' ↔ db s ≠ None)
  ∧ (BuildClusterCapability ∈ capabilities s'
     ↔ ∃ dbc, db s = Some dbc ∧ (HasBuildClusterData dbc).1 = true)
  ∧ (BuildClusterCapability ∈ capabilities s' → LocalDBCapability ∈ capabilities s')
  ∧ determineCapabilities s' = (s', (determineCapabilities s).2).
Proof.
  intros Hdup s'.
  assert (OpenshiftCapability ≠ ComponentReadinessCapability
          ∧ OpenshiftCapability ≠ LocalDBCapability
          ∧ OpenshiftCapability ≠ BuildClusterCapability
          ∧ ComponentReadinessCapability ≠ LocalDBCapability
          ∧ ComponentReadinessCapability ≠ BuildClusterCapability
          ∧ LocalDBCapability ≠ BuildClusterCapability)
    as (H12 & H13 & H14 & H23 & H24 & H34).
  { rewrite !NoDup_cons, !not_elem_of_cons in Hdup. tauto. }
  subst s'. rewrite !determineCapabilities_caps.
  repeat split.
  - intros [[_ H]|[[H _]|[[H _]|[H _]]]]; done.
  - intros H. by left.
  - intros [[H _]|[[_ H]|[[H _]|[H _]]]]; done.
  - intros H. right. by left.
  - intros [[H _]|[[H _]|[[_ H]|[H _]]]]; done.
  - intros H. do 2 right. by left.
  - intros [[H _]|[[H _]|[[H _]|[_ H]]]]; done.
  - intros H. do 3 right. done.
  - intros [[H _]|[[H _]|[[H _]|[_ (dbc & H & _)]]]]; try done.
    do 2 right. left. split; [done|]. by rewrite H.
  - unfold SippyServer.determineCapabilities.
    destruct (db s) as [dbc|] eqn:Hdb; simpl.
    + destruct (HasBuildClusterData dbc) as [[|] err] eqn:Hbc; simpl.
      * by rewrite Hdb, Hbc.
      * destruct err; simpl; by rewrite Hdb, Hbc.
    + by rewrite Hdb.
Qed.

Lemma cached_not_NotImplemented s (duration : Z) (fn : handler Impl) :
  fn ≠ NotImplemented → cached s duration fn ≠ NotImplemented.
Proof. unfold cached. by destruct (cache s). Qed.

(** X23. In [Serve], for every endpoint of the table whose handler is
    an implementation: the handler registered for its path answers 501
    Not Implemented exactly when the endpoint is left out of the list
    that [/api] returns, that is when the server lacks one of the
    capabilities the endpoint requires; an endpoint that requires none is
    always listed and served. *)
Theorem Serve_registers_listed s (endpoints : list (apiEndpoints Impl)) ep (fn : Impl) :
  ep ∈ endpoints → HandlerFunc ep = Implementation fn →
  let '(s', mux) := Serve s endpoints in
  (EndpointPath ep, (register s' ep).2) ∈ mux
  ∧ ((register s' ep).2 = NotImplemented ↔ ep ∉ availableEndpoints s' endpoints)
  ∧ ((register s' ep).2 = NotImplemented
     ↔ ∃ cap, cap ∈ Capabilities ep ∧ cap ∉ capabilities s')
  ∧ (Capabilities ep = [] → (register s' ep).2 ≠ NotImplemented).
Proof.
  intros Hin Hfn. unfold SippyServer.Serve.
  set (s' := (determineCapabilities s).1).
  assert ((register s' ep).2 = NotImplemented ↔ hasCapabilities s' (Capabilities ep) = false)
    as Hreg.
  { unfold register, requireCapabilities. simpl. rewrite Hfn.
    destruct (Capabilities ep) as [|cap rest] eqn:Hcaps; simpl.
    - unfold hasCapabilities. simpl. split; [|done].
      destruct (0 <? CacheTime ep)%Z; [|done].
      intros H. by apply cached_not_NotImplemented in H.
    - destruct (hasCapabilities s' (cap :: rest)); [|done]. split; [|done].
      destruct (0 <? CacheTime ep)%Z; [|done].
      intros H. by apply cached_not_NotImplemented in H. }
  split; [|split; [|split]].
  - apply list_elem_of_fmap. exists ep. by split.
  - rewrite Hreg. unfold availableEndpoints.
    rewrite list_elem_of_In, List.filter_In, <- list_elem_of_In.
    destruct (hasCapabilities s' (Capabilities ep)); split; try done.
    + intros H. destruct H. by split.
    + intros _ [_ ?]. done.
  - rewrite Hreg.
    destruct (hasCapabilities s' (Capabilities ep)) eqn:Hhas.
    + split; [done|]. intros (cap & Hc & Hn).
      destruct Hn. by apply (proj1 (hasCapabilities_spec s' _) Hhas).
    + split; [|done]. intros _.
      clear Hreg Hfn Hin. unfold hasCapabilities in Hhas.
      induction (Capabilities ep) as [|cap rest IH]; [done|]. simpl in Hhas.
      destruct (found cap (capabilities s')) eqn:Hf.
      * destruct (IH Hhas) as (c & Hc & Hn). exists c. split; [by right|done].
      * exists cap. split; [left|]. intros Hc. apply found_elem_of in Hc. congruence.
  - intros Hnone. rewrite Hreg, Hnone. done.
Qed.

(** X24. A pointer that was not created by the call differs from every
    composite literal the call allocates, so [isValidProwJobRun] rejects
    a nil pointer as an empty run, rejects a run whose job has no name
    for the missing name, and accepts every other run: the reason
    [empty ProwJob] is never returned. *)
Theorem isValidProwJobRun_cases (new : nat → nat) (jobRun : option ProwJobRunRef) :
  (∀ r i, jobRun = Some r → new i ≠ runAddr r ∧ new i ≠ prowJobAddr r) →
  isValidProwJobRun new jobRun
  = match jobRun with
    | None => (false, "empty ProwJobRun")
    | Some r =>
        if String.eqb (ProwJob_Name r) "" then (false, "missing ProwJob Name")
        else (true, "")
    end
  ∧ (isValidProwJobRun new jobRun).2 ≠ "empty ProwJob".
Proof.
  intros Hnew. unfold isValidProwJobRun. destruct jobRun as [r|]; simpl; [|done].
  assert (∀ i, (runAddr r =? new i) = false ∧ (prowJobAddr r =? new i) = false) as Hne.
  { intros i. destruct (Hnew r i eq_refl). split; apply Nat.eqb_neq; congruence. }
  destruct (Hne 0) as [-> _]. destruct (Hne 1) as [_ ->].
  destruct (Hne 2) as [-> _]. destruct (Hne 3) as [_ ->]. simpl.
  by destruct (String.eqb (ProwJob_Name r) "").
Qed.

Lemma reportNames_fold (dashboards : list TestGridDashboardCoordinates) (ret : list string) :
  foldl (fun ret dashboard => ret ++ [ReportName dashboard]) ret dashboards
  = ret ++ (ReportName <$> dashboards).
Proof.
  revert ret. induction dashboards as [|d rest IH]; intros ret; simpl.
  - by rewrite app_nil_r.
  - rewrite IH. by rewrite <- app_assoc.
Qed.

(** X25. [reportNameToDashboardCoordinates] finds a report exactly when
    its name is one of [reportNames]; what it returns is then the first
    dashboard of the server with that name, and otherwise the zero
    value. *)
Theorem reportNameToDashboardCoordinates_found s (reportName : string) :
  let '(dashboard, ok) := reportNameToDashboardCoordinates s reportName in
  (ok = true ↔ reportName ∈ reportNames s)
  ∧ (ok = true →
       ∃ before after,
         dashboardCoordinates s = before ++ dashboard :: after
         ∧ ReportName dashboard = reportName
         ∧ reportName ∉ ReportName <$> before)
  ∧ (ok = false →
       dashboard = {| ReportName := ""; TestGridDashboardNames := [];
                      BugzillaRelease := "" |}).
Proof.
  unfold reportNameToDashboardCoordinates, reportNames. rewrite reportNames_fold. simpl.
  induction (dashboardCoordinates s) as [|d rest IH]; simpl.
  - repeat split; try done. intros H. by apply elem_of_nil in H.
  - destruct (String.eqb_spec (ReportName d) reportName) as [Heq|Hne].
    + repeat split; try done.
      * intros _. rewrite Heq. left.
      * intros _. exists [], rest. repeat split; [done|]. intros H. by apply elem_of_nil in H.
    + destruct (lookupReport rest reportName) as [dashboard ok].
      destruct IH as (Hok & Hfound & Hzero). repeat split.
      * intros H. right. by apply Hok.
      * intros H. apply elem_of_cons in H as [H|H]; [done|]. by apply Hok.
      * intros H. destruct (Hfound H) as (before & after & -> & Hname & Hfresh).
        exists (d :: before), after. repeat split; [done|].
        rewrite fmap_cons, not_elem_of_cons. by split.
      * done.
Qed.

End ServerFacts.

(** ** The command line *)

Section MainFacts.

Import BugLoader Main.

Variable Quote : string → string.

Local Abbreviation Validate := (Main.Validate Quote).
Local Abbreviation validateDashboards := (Main.validateDashboards Quote).
Local Abbreviation coordinates := (Main.coordinates Quote).
Local Abbreviation ToTestGridDashboardCoordinates := (Main.ToTestGridDashboardCoordinates Quote).

Implicit Types (o : Options) (sep : ascii).

Lemma append_nil_r (s : string) : s +:+ "" = s.
Proof. induction s as [|c s IH]; [done|]. by rewrite append_cons, IH. Qed.

Lemma append_assoc (a b c : string) : (a +:+ b) +:+ c = a +:+ (b +:+ c).
Proof. induction a as [|x a IH]; [done|]. by rewrite !append_cons, IH. Qed.

Lemma Count_app sep (a b : string) : Count sep (a +:+ b) = Count sep a + Count sep b.
Proof.
  induction a as [|c a IH]; [done|]. rewrite append_cons. simpl. rewrite IH. lia.
Qed.

Lemma Count_Contains sep (s : string) : Contains sep s = false ↔ Count sep s = 0.
Proof.
  induction s as [|c s IH]; simpl; [done|].
  destruct (ascii_eqb c sep); simpl; [split; [done|lia]|]. exact IH.
Qed.

Lemma Contains_app sep (a b : string) :
  Contains sep (a +:+ b) = Contains sep a || Contains sep b.
Proof.
  induction a as [|c a IH]; [done|]. rewrite append_cons. simpl. rewrite IH.
  by rewrite orb_assoc.
Qed.

Lemma splitLoop_length sep (s cur : string) :
  length (splitLoop sep s cur) = S (Count sep s).
Proof.
  revert cur. induction s as [|c s IH]; intros cur; simpl; [done|].
  destruct (ascii_eqb c sep); simpl; by rewrite IH.
Qed.

Lemma splitLoop_app sep (a b cur : string) :
  Contains sep a = false → splitLoop sep (a +:+ b) cur = splitLoop sep b (cur +:+ a).
Proof.
  revert cur. induction a as [|c a IH]; intros cur Hno.
  - by rewrite append_nil_l, append_nil_r.
  - simpl in Hno. apply orb_false_iff in Hno as [Hc Hno].
    rewrite append_cons. simpl. rewrite Hc. rewrite IH by done.
    by rewrite append_assoc.
Qed.

(** [strings.Split] at the first separator, and without one. *)
Lemma Split_cons sep (a b : string) :
  Contains sep a = false → Split (a +:+ String sep b) sep = a :: Split b sep.
Proof.
  intros Hno. unfold Split. rewrite splitLoop_app by done. simpl.
  unfold ascii_eqb. by rewrite Ascii.eqb_refl, append_nil_l.
Qed.

Lemma Split_one sep (a : string) : Contains sep a = false → Split a sep = [a].
Proof.
  intros Hno. unfold Split. rewrite <- (append_nil_r a) at 1.
  rewrite splitLoop_app by done. by rewrite append_nil_l.
Qed.

Lemma reject_ErrNil (cond : bool) (msg : string) (rest : error) :
  reject cond msg rest = ErrNil → cond = false ∧ rest = ErrNil.
Proof. by destruct cond. Qed.

Lemma validateDashboards_ok (dashboards : list string) :
  validateDashboards dashboards = ErrNil
  ↔ ∀ dashboard, dashboard ∈ dashboards → length (Split dashboard "=") = 3.
Proof.
  induction dashboards as [|d rest IH]; simpl.
  - split; [|done]. intros _ d H. by apply elem_of_nil in H.
  - destruct (length (Split d "=") =? 3) eqn:Hlen; simpl.
    + apply Nat.eqb_eq in Hlen. rewrite IH. split.
      * intros Hrest d' Hd. apply elem_of_cons in Hd as [->|Hd]; auto.
      * intros Hall d' Hd. apply Hall. by right.
    + apply Nat.eqb_neq in Hlen. split; [done|]. intros Hall. destruct Hlen.
      apply Hall. left.
Qed.

Lemma coordinates_ok (dashboards : list string)
    (acc : list SippyServer.TestGridDashboardCoordinates) :
  (∀ dashboard, dashboard ∈ dashboards → length (Split dashboard "=") = 3) →
  ∃ out, coordinates dashboards acc = inr (acc ++ out)
         ∧ length out = length dashboards.
Proof.
  revert acc. induction dashboards as [|d rest IH]; intros acc Hall; simpl.
  - exists []. by rewrite app_nil_r.
  - assert (length (Split d "=") = 3) as Hlen by (apply Hall; left).
    destruct (Split d "=") as [|t0 [|t1 [|t2 [|t3 more]]]]; try done.
    destruct (IH (acc ++ [ {| SippyServer.ReportName := t0;
                               SippyServer.TestGridDashboardNames := Split t1 ",";
                               SippyServer.BugzillaRelease := t2 |} ]))
      as (out & -> & Hout).
    + intros d' Hd. apply Hall. by right.
    + eexists (_ :: out). rewrite <- app_assoc. split; [done|]. simpl. by rewrite Hout.
Qed.

Lemma Validate_checks o :
  Validate o = ErrNil →
  Output o = "json"
  ∧ validateDashboards (Dashboards o) = ErrNil
  ∧ (1 <? length (Mode o)) = false
  ∧ match Mode o with
    | [m] => negb (String.eqb m "ocp" || String.eqb m "kube" || String.eqb m "none")
    | _ => false
    end = false
  ∧ FetchPerfScaleData o && isEmpty (FetchData o) = false
  ∧ Server o && negb (isEmpty (FetchData o)) = false
  ∧ Server o && LoadDatabase o = false
  ∧ LoadDatabase o && negb (isEmpty (FetchData o)) = false
  ∧ (LoadDatabase o || Server o || CreateSnapshot o || CommentProcessing o)
    && isEmpty (DSN o) = false
  ∧ LoadGitHub o && negb (LoadProw o) = false
  ∧ LoadOpenShiftCIBigQuery o && negb (LoadProw o) = false
  ∧ LoadProw o && isEmpty (Config o) = false
  ∧ Server o && DaemonServer o = false
  ∧ DaemonServer o && LoadDatabase o = false
  ∧ DaemonServer o && negb (isEmpty (FetchData o)) = false
  ∧ negb (DaemonServer o) && CommentProcessing o = false
  ∧ DaemonServer o && negb (CommentProcessing o) = false
  ∧ CommentProcessing o && isEmpty (Config o) = false
  ∧ negb (DBOnlyMode o) = false.
Proof.
  unfold Main.Validate. intros H.
  destruct (String.eqb_spec (Output o) "json") as [Hout|]; [|done]. simpl in H.
  destruct (validateDashboards (Dashboards o)) eqn:Hd; try done.
  repeat (apply reject_ErrNil in H as [? H]).
  repeat split; done.
Qed.

(** X26. Options that [Validate] accepts cannot make the conversions
    of the command panic: [ToTestGridDashboardCoordinates] returns one
    entry per dashboard and [getVariantManager] returns a manager; the
    manager is the OpenShift one exactly when the server mode is
    OpenShift, which is also when the synthetic test manager is the
    OpenShift one; without a mode the manager is the empty one. *)
Theorem Validate_prevents_panics o :
  Validate o = ErrNil →
  (∃ dashboards, ToTestGridDashboardCoordinates o = inr dashboards
                 ∧ length dashboards = length (Dashboards o))
  ∧ (∃ vm, getVariantManager o = inr vm
           ∧ (vm = OpenshiftVariantManager
              ↔ getServerMode o = SippyServer.ModeOpenShift)
           ∧ (getSyntheticTestManager o = OpenshiftSyntheticTestManager
              ↔ vm = OpenshiftVariantManager)
           ∧ (Mode o = [] → vm = EmptyVariantManager)).
Proof.
  intros Hv. destruct (Validate_checks o Hv) as (_ & Hd & Hlen & Hmode & _).
  split.
  - pose proof (proj1 (validateDashboards_ok _) Hd) as Hall.
    destruct (coordinates_ok (Dashboards o) [] Hall) as (out & Hout & Hl).
    exists out. by split.
  - unfold getVariantManager, getSyntheticTestManager, getServerMode.
    destruct (Mode o) as [|m [|m' rest]]; [| |done].
    + exists EmptyVariantManager. by repeat split.
    + apply negb_false_iff in Hmode.
      destruct (String.eqb m "ocp") eqn:Hocp; simpl.
      * exists OpenshiftVariantManager. by repeat split.
      * destruct (String.eqb m "kube") eqn:Hkube; simpl.
        -- exists KubeVariantManager. by repeat split.
        -- simpl in Hmode. rewrite Hmode. exists EmptyVariantManager. by repeat split.
Qed.

(** X27. Options that [Validate] accepts select at most one of the
    server, the database load, the daemon server and the data fetch; the
    daemon server is selected exactly with comment processing, and then
    with a database DSN and a config; the PerfScale fetch excludes the
    server, the load and the daemon; GitHub and BigQuery loading come
    with a config; there is at most one mode, one of ocp, kube and
    none. *)
Theorem Validate_exclusive_modes o :
  Validate o = ErrNil →
  Nat.b2n (Server o) + Nat.b2n (LoadDatabase o) + Nat.b2n (DaemonServer o)
    + Nat.b2n (negb (isEmpty (FetchData o))) ≤ 1
  ∧ DaemonServer o = CommentProcessing o
  ∧ (DaemonServer o = true → DSN o ≠ "" ∧ Config o ≠ "")
  ∧ (FetchPerfScaleData o = true →
       FetchData o ≠ "" ∧ Server o = false ∧ LoadDatabase o = false
       ∧ DaemonServer o = false)
  ∧ (LoadGitHub o = true ∨ LoadOpenShiftCIBigQuery o = true →
       LoadProw o = true ∧ Config o ≠ "")
  ∧ (Mode o = [] ∨ Mode o = ["ocp"] ∨ Mode o = ["kube"] ∨ Mode o = ["none"]).
Proof.
  intros Hv.
  destruct (Validate_checks o Hv)
    as (_ & _ & Hlen & Hmode & H1 & H2 & H3 & H4 & H5 & H6 & H7 & H8 & H9 & H10
        & H11 & H12 & H13 & H14 & _).
  assert (∀ s, isEmpty s = false ↔ s ≠ "") as Hempty.
  { intros s. unfold isEmpty. by destruct (String.eqb_spec s ""). }
  split; [|split; [|split; [|split; [|split]]]].
  - destruct (Server o), (LoadDatabase o), (DaemonServer o), (isEmpty (FetchData o));
      simpl in *; try done; lia.
  - by destruct (DaemonServer o), (CommentProcessing o).
  - intros Hd. rewrite <- !Hempty.
    destruct (DaemonServer o), (CommentProcessing o), (isEmpty (DSN o)),
      (isEmpty (Config o)), (LoadDatabase o), (Server o), (CreateSnapshot o);
      simpl in *; done.
  - intros Hf. rewrite <- Hempty.
    destruct (FetchPerfScaleData o), (isEmpty (FetchData o)), (Server o),
      (LoadDatabase o), (DaemonServer o); simpl in *; done.
  - intros Hl. rewrite <- Hempty.
    destruct (LoadGitHub o), (LoadOpenShiftCIBigQuery o), (LoadProw o),
      (isEmpty (Config o)); simpl in *; destruct Hl; done.
  - destruct (Mode o) as [|m [|m' rest]]; [by left| |done].
    apply negb_false_iff in Hmode.
    destruct (String.eqb_spec m "ocp") as [->|_]; [by right; left|].
    destruct (String.eqb_spec m "kube") as [->|_]; [by right; right; left|].
    destruct (String.eqb_spec m "none") as [->|_]; [by right; right; right|done].
Qed.

Lemma Complete_fold (releases dashboards : list string) :
  foldl (fun dashboards openshiftRelease =>
           dashboards ++ [dashboardArgFromOpenshiftRelease openshiftRelease])
    dashboards releases
  = dashboards ++ (dashboardArgFromOpenshiftRelease <$> releases).
Proof.
  revert dashboards. induction releases as [|r rest IH]; intros dashboards; simpl.
  - by rewrite app_nil_r.
  - rewrite IH. by rewrite <- app_assoc.
Qed.

Lemma dashboardArg_Count (release : string) :
  Count "=" (dashboardArgFromOpenshiftRelease release) = 2 + 4 * Count "=" release.
Proof.
  unfold dashboardArgFromOpenshiftRelease, Join, openshiftDashboard.
  rewrite !Count_app. simpl. lia.
Qed.

Lemma openshiftDashboard_Contains sep (release kind : string) :
  Contains sep "redhat-openshift-ocp-release-" = false →
  Contains sep "-" = false → Contains sep kind = false → Contains sep release = false →
  Contains sep (openshiftDashboard release kind) = false.
Proof.
  intros H1 H2 H3 H4. unfold openshiftDashboard.
  by rewrite !Contains_app, H1, H2, H3, H4.
Qed.

(** X28. [Complete] appends one dashboard argument per release, in
    order.  The argument of a release has three tokens exactly when the
    release holds no [=], so [Validate] after [Complete] accepts no
    other release; for such a release the coordinates have the release as
    report name and Bugzilla release, and, when the release holds no
    comma either, exactly its blocking and informing dashboards. *)
Theorem Complete_release o (release : string) :
  Dashboards (Complete o)
    = Dashboards o ++ (dashboardArgFromOpenshiftRelease <$> OpenshiftReleases o)
  ∧ (length (Split (dashboardArgFromOpenshiftRelease release) "=") = 3
     ↔ Contains "=" release = false)
  ∧ (Validate (Complete o) = ErrNil → release ∈ OpenshiftReleases o →
       Contains "=" release = false)
  ∧ (Contains "=" release = false →
       coordinates [dashboardArgFromOpenshiftRelease release] []
       = inr [ {| SippyServer.ReportName := release;
                  SippyServer.TestGridDashboardNames :=
                    Split (openshiftDashboard release "blocking" +:+ ","
                           +:+ openshiftDashboard release "informing") ",";
                  SippyServer.BugzillaRelease := release |} ]
       ∧ (Contains "," release = false →
            Split (openshiftDashboard release "blocking" +:+ ","
                   +:+ openshiftDashboard release "informing") ","
            = [ openshiftDashboard release "blocking";
                openshiftDashboard release "informing" ])).
Proof.
  assert (length (Split (dashboardArgFromOpenshiftRelease release) "=") = 3
          ↔ Contains "=" release = false) as Hthree.
  { unfold Split. rewrite splitLoop_length, dashboardArg_Count, Count_Contains. lia. }
  split; [|split; [done|split]].
  - unfold Complete. simpl. apply Complete_fold.
  - intros Hv Hin. apply Validate_checks in Hv as (_ & Hd & _).
    pose proof (proj1 (validateDashboards_ok _) Hd) as Hall. apply Hthree, Hall.
    unfold Complete. simpl. rewrite Complete_fold, elem_of_app. right.
    by apply list_elem_of_fmap_2.
  - intros Hno.
    assert (∀ kind, Contains "=" kind = false →
                    Contains "=" (openshiftDashboard release kind) = false) as Hkind.
    { intros kind Hk. by apply openshiftDashboard_Contains. }
    split.
    + simpl. unfold dashboardArgFromOpenshiftRelease, Join.
      change ("=" +:+ ?x) with (String "="%char x).
      rewrite Split_cons by done.
      change ("=" +:+ release) with (String "="%char release). rewrite Split_cons.
      * rewrite Split_one by done. done.
      * rewrite Contains_app. rewrite Hkind by done.
        change ("," +:+ ?x) with (String ","%char x). simpl. by apply Hkind.
    + intros Hcomma. change ("," +:+ ?x) with (String ","%char x).
      rewrite Split_cons by (by apply openshiftDashboard_Contains).
      rewrite Split_one by (by apply openshiftDashboard_Contains). done.
Qed.

End MainFacts.

(** ** The automate-jira command *)

Section AutomateJiraFacts.

Import BugLoader AutomateJira.

Implicit Types (f : AutomateJiraFlags) (allVariants : gmap string (list string)).
Implicit Types (acc t : gmap (string * string) Z).

Lemma foundValue_fold (vs : list string) (value : string) (found : bool) :
  foldl (fun found v => if String.eqb v value then true else found) found vs = true
  ↔ found = true ∨ value ∈ vs.
Proof.
  revert found. induction vs as [|v vs IH]; intros found; simpl.
  - split; [by left|]. intros [?|H]; [done|]. by apply elem_of_nil in H.
  - rewrite IH, elem_of_cons. destruct (String.eqb_spec v value) as [->|Hne].
    + split; auto.
    + split; [intros [?|?]; auto|]. intros [?|[?|?]]; auto; by destruct Hne.
Qed.

Lemma foundValue_elem_of (vs : list string) (value : string) :
  foundValue vs value = true ↔ value ∈ vs.
Proof.
  unfold foundValue. rewrite foundValue_fold. split; [by intros [?|?]|by right].
Qed.

(** What one accepted threshold string is and does. *)
Lemma threshold_inr allVariants (s : string) acc t :
  threshold allVariants s acc = inr t →
  ∃ name value text n vs,
    Split s ":" = [name; value; text] ∧ allVariants !! name = Some vs
    ∧ value ∈ vs ∧ Atoi text = Ok n ∧ t = <[(name, value) := n]> acc.
Proof.
  unfold threshold. intros H.
  destruct (Split s ":") as [|name [|value [|text [|more rest]]]]; try done.
  destruct (allVariants !! name) as [vs|] eqn:Hvs; [|done].
  destruct (foundValue vs value) eqn:Hfound; [|done]. simpl in H.
  destruct (Atoi text) as [n|] eqn:Hn; [|done]. simplify_eq.
  apply foundValue_elem_of in Hfound. by exists name, value, text, n, vs.
Qed.

Lemma threshold_inl allVariants (s : string) acc (e : error) :
  threshold allVariants s acc = inl e → e ≠ ErrNil.
Proof.
  unfold threshold. intros H.
  destruct (Split s ":") as [|name [|value [|text [|more rest]]]]; simplify_eq; try done.
  destruct (allVariants !! name) as [vs|]; simplify_eq; [|done].
  destruct (foundValue vs value); simpl in H; simplify_eq; [|done].
  destruct (Atoi text); by simplify_eq.
Qed.

Lemma thresholds_inv allVariants (strs : list string) acc t :
  thresholds allVariants strs acc = (t, ErrNil) →
  (∀ s, s ∈ strs →
     ∃ name value text n vs,
       Split s ":" = [name; value; text] ∧ allVariants !! name = Some vs
       ∧ value ∈ vs ∧ Atoi text = Ok n ∧ is_Some (t !! (name, value)))
  ∧ (∀ key n, t !! key = Some n →
       acc !! key = Some n
       ∨ ∃ s text, s ∈ strs ∧ Split s ":" = [key.1; key.2; text] ∧ Atoi text = Ok n)
  ∧ (∀ key, is_Some (acc !! key) → is_Some (t !! key)).
Proof.
  revert acc. induction strs as [|s strs IH]; intros acc Hrun; simpl in Hrun.
  - simplify_eq. repeat split; [|by left|done]. intros s H. by apply elem_of_nil in H.
  - destruct (threshold allVariants s acc) as [e|acc'] eqn:Hs.
    { simplify_eq. by apply threshold_inl in Hs. }
    destruct (IH _ Hrun) as (Hall & Hfrom & Hkeep).
    apply threshold_inr in Hs as (name & value & text & n & vs & Hsplit & Hvs & Hin & Hn & ->).
    repeat split.
    + intros s' Hs'. apply elem_of_cons in Hs' as [->|Hs']; [|by apply Hall].
      exists name, value, text, n, vs. repeat split; try done.
      apply Hkeep. rewrite lookup_insert_eq. by eexists.
    + intros key m Hkey. destruct (Hfrom key m Hkey) as [Hacc|(s' & text' & Hs' & ?)].
      * apply lookup_insert_Some in Hacc as [[<- <-]|[_ Hacc]]; [|by left].
        right. exists s, text. split; [left|done].
      * right. exists s', text'. split; [by right|done].
    + intros key Hkey. apply Hkeep.
      destruct (decide ((name, value) = key)) as [<-|Hne].
      * rewrite lookup_insert_eq. by eexists.
      * by rewrite lookup_insert_ne.
Qed.

(** X29. When [Validate] returns no error, the Sippy URL and the Jira
    account are set and the Jira options are valid; the components to
    include are the comma-separated parts of the flag, which for an
    empty flag is the set holding the empty string, never the empty
    set; every threshold string has the three parts name, value and
    threshold, with the name a known variant, the value one of its
    values and the threshold a number, and is recorded; and every
    threshold in the map was there before or comes from such a string. *)
Theorem Validate_accepts (jiraOptionsValidate : error) f f' allVariants :
  Validate jiraOptionsValidate f allVariants = (f', ErrNil) →
  SippyURL f ≠ "" ∧ JiraAccount f ≠ "" ∧ jiraOptionsValidate = ErrNil
  ∧ IncludeComponents f' = list_to_set (Split (IncludeComponentsStr f) ",")
  ∧ IncludeComponents f' ≠ ∅
  ∧ (IncludeComponentsStr f = "" → IncludeComponents f' = {[ "" ]})
  ∧ (∀ s, s ∈ ColumnThresholdStrs f →
       ∃ name value text n vs,
         Split s ":" = [name; value; text] ∧ allVariants !! name = Some vs
         ∧ value ∈ vs ∧ Atoi text = Ok n
         ∧ is_Some (ColumnThresholds f' !! (name, value)))
  ∧ (∀ key n, ColumnThresholds f' !! key = Some n →
       ColumnThresholds f !! key = Some n
       ∨ ∃ s text, s ∈ ColumnThresholdStrs f
                   ∧ Split s ":" = [key.1; key.2; text] ∧ Atoi text = Ok n).
Proof.
  unfold Validate. intros H.
  destruct (SippyURL f) as [|c url] eqn:Hurl; [done|].
  destruct (JiraAccount f) as [|c' account] eqn:Haccount; [done|].
  simpl in H.
  destruct (thresholds allVariants (ColumnThresholdStrs f) (ColumnThresholds f))
    as [t err] eqn:Hrun.
  destruct err; simplify_eq. simpl.
  destruct (thresholds_inv _ _ _ _ Hrun) as (Hall & Hfrom & _).
  repeat split; try done.
  - unfold Split. destruct (splitLoop "," (IncludeComponentsStr f) "") as [|x l] eqn:Hs.
    + apply (f_equal length) in Hs. by rewrite splitLoop_length in Hs.
    + simpl. set_solver.
  - intros ->. simpl. set_solver.
Qed.

End AutomateJiraFacts.

(** ** The component-readiness command *)

Section ComponentReadinessFacts.

Import ComponentReadiness.

(** X30. In [runServerMode], when the clients are obtained and the
    query of the component report variants reports errors, the errors
    are logged but none of them is returned: the function returns the
    error left by the creation of the GCS client with a message about
    the variants, which is no error at all when the GCS client was
    created, and the command then ends without error and without
    serving. *)
Theorem runServerMode_variant_errors (env : Env) :
  LogLevel env = ErrNil → Config env = "" →
  Frontend env = ErrNil → GetCacheClient env = ErrNil →
  ServiceAccountCredentialFile env ≠ "" →
  GetBigQueryClient env = (true, ErrNil) →
  GetComponentTestVariantsFromBigQuery2 env ≠ [] →
  (runServerMode env).1
    = Returned (errors_WithMessage (NewGCSClient env)
                  "couldn't get component report variants")
  ∧ (NewGCSClient env = ErrNil → (RunE env).1 = Returned ErrNil)
  ∧ (∀ e, e ∈ GetComponentTestVariantsFromBigQuery2 env →
       Log LError (Error_string e) "" ∈ (runServerMode env).2).
Proof.
  intros Hlevel Hconfig Hfront Hcache Hcred Hbq Herrs.
  assert ((runServerMode env).1
          = Returned (errors_WithMessage (NewGCSClient env)
                        "couldn't get component report variants")
          ∧ ∀ e, e ∈ GetComponentTestVariantsFromBigQuery2 env →
                 Log LError (Error_string e) "" ∈ (runServerMode env).2) as [Hret Hlog].
  { unfold runServerMode. rewrite Hfront, Hcache, Hbq.
    destruct (String.eqb_spec (ServiceAccountCredentialFile env) "") as [|_]; [done|].
    destruct (GetComponentTestVariantsFromBigQuery2 env) as [|e0 errs] eqn:He; [done|].
    destruct (NewGCSClient env) eqn:Hgcs; simpl; (split; [done|]);
      intros err Hin;
      apply (list_elem_of_fmap_2 (fun e => Log LError (Error_string e) "")) in Hin;
      simpl in Hin; rewrite ?elem_of_app, ?elem_of_cons;
      rewrite elem_of_cons in Hin; tauto. }
  split; [done|split; [|done]].
  intros Hgcs. unfold RunE, Run. rewrite Hlevel, Hconfig. simpl.
  destruct (runServerMode env) as [res logged]. simpl in Hret.
  rewrite Hret, Hgcs. done.
Qed.

End ComponentReadinessFacts.

(** ** The further properties on the sample data *)

Section ConcreteExtras.

Import BugLoader LoaderProps Samples MoreSamples.

Ltac solve_keyed :=
  let k := fresh "k" in let b := fresh "b" in let Hk := fresh "Hk" in
  intros k b Hk;
  repeat (apply lookup_insert_Some in Hk as [[<- <-]|[_ Hk]]; [reflexivity|]);
  by rewrite lookup_empty in Hk.

Local Abbreviation fetchOf env r :=
  (fetch env r
   = Fetched (fetchedTests (fetch env r)) (fetchedJobs (fetch env r))
       (fetchedTriageBugs (fetch env r)) (fetchedTriages (fetch env r))
       (fetchedRun (fetch env r))).

Lemma fetch_records_wellKeyed_witness :
  fetchedTests (fetch resyncEnv emptyRun) !! 12345%Z
    = Some (set_Tests (sampleBug 12345 "OCPBUGS-12345") ["unit-test-foo"])
  ∧ wellKeyed 12345 (set_Tests (sampleBug 12345 "OCPBUGS-12345") ["unit-test-foo"]).
Proof.
  assert (fetchOf resyncEnv emptyRun) as Hfetch by (vm_compute; reflexivity).
  assert (fetchedTests (fetch resyncEnv emptyRun) !! 12345%Z
          = Some (set_Tests (sampleBug 12345 "OCPBUGS-12345") ["unit-test-foo"])) as Hb
    by (vm_compute; reflexivity).
  split; [exact Hb|].
  exact (fetch_records_wellKeyed resyncEnv emptyRun _ _ _ _ _ 12345%Z _ Hfetch
           (or_introl Hb)).
Defined.

Lemma fetch_association_shape_witness :
  (∀ (k : Z) b, fetchedTests (fetch resyncEnv emptyRun) !! k = Some b →
     Jobs b = [] ∧ Tests b ≠ []
     ∧ ∀ t, t ∈ Tests b → ∃ name, sampleTestCache !! name = Some t)
  ∧ (∀ (k : Z) b, fetchedJobs (fetch resyncEnv emptyRun) !! k = Some b →
       Tests b = [] ∧ Jobs b ≠ []
       ∧ ∀ j, j ∈ Jobs b → ∃ name, sampleJobCache !! name = Some j)
  ∧ (∀ (k : Z) b, fetchedTriageBugs (fetch resyncEnv emptyRun) !! k = Some b →
       Tests b = [] ∧ Jobs b = []).
Proof.
  apply (fetch_association_shape resyncEnv emptyRun _ _ _
           (fetchedTriages (fetch resyncEnv emptyRun))
           (fetchedRun (fetch resyncEnv emptyRun))).
  - vm_compute. reflexivity.
  - reflexivity.
  - reflexivity.
Defined.

Lemma merged_associations_witness :
  Tests mergedBug12345
    = from_option Tests [] (fetchedTests (fetch resyncEnv emptyRun) !! 12345%Z)
  ∧ Jobs mergedBug12345
    = from_option Jobs [] (fetchedJobs (fetch resyncEnv emptyRun) !! 12345%Z).
Proof.
  apply (merged_associations resyncEnv emptyRun _ _
           (fetchedTriageBugs (fetch resyncEnv emptyRun))
           (fetchedTriages (fetch resyncEnv emptyRun))
           (fetchedRun (fetch resyncEnv emptyRun))).
  - vm_compute. reflexivity.
  - vm_compute. reflexivity.
Defined.

Lemma getTestBugMappings_rows_witness :
  ∃ rows,
    Ok [Ok (testRow12345 true)] = Ok (Ok <$> rows)
    ∧ ∀ k : Z,
        match firstRowFor sampleTestCache k rows with
        | Some row =>
            ∃ now,
              okOr sampleTestMappings.1 ∅ !! k
              = Some (set_Tests (bigQueryBugToModel now (set_ID row k))
                        (testsFor sampleTestCache k rows))
        | None => okOr sampleTestMappings.1 ∅ !! k = None
        end.
Proof.
  apply (getTestBugMappings_rows sampleClock (Ok [Ok (testRow12345 true)])
           sampleTestCache freshLoader sampleTestMappings.2).
  vm_compute. reflexivity.
Defined.

Lemma getTriageBugMappings_existence_witness :
  ∃ keys rows,
    Forall2 (fun t key => parseBugKeyFromURL (t_URL t) = Ok key) [newTriage] keys
    ∧ sampleTriageQuery keys = Ok (Ok <$> rows)
    ∧ ∀ k : Z,
        is_Some (okOr sampleTriageMappings.1 ∅ !! k)
        ↔ ∃ row, row ∈ rows ∧ keyOfRow row = Some k.
Proof.
  apply (getTriageBugMappings_existence sampleClock sampleTriageQuery [newTriage]
           freshLoader sampleTriageMappings.2).
  vm_compute. reflexivity.
Defined.

Lemma Load_early_return_witness :
  r_bugs (returnedRun (Load noCacheEnv staleRun) emptyRun) = r_bugs staleRun
  ∧ r_triages (returnedRun (Load noCacheEnv staleRun) emptyRun) = r_triages staleRun
  ∧ ∃ e, last (errors (r_bl (returnedRun (Load noCacheEnv staleRun) emptyRun))) = Some e
         ∧ (LoadTestCache noCacheEnv = Fail e ∨ LoadProwJobCache noCacheEnv = Fail e
            ∨ ListTriages noCacheEnv = Fail e).
Proof.
  apply (Load_early_return noCacheEnv staleRun). vm_compute. reflexivity.
Defined.

Lemma Load_completed_inputs_witness :
  ∃ triages keys testRows jobRows triageRows,
    ListTriages triageEnv = Ok triages
    ∧ Forall2 (fun t key => parseBugKeyFromURL (t_URL t) = Ok key) triages keys
    ∧ testQuery triageEnv = Ok (Ok <$> testRows)
    ∧ jobQuery triageEnv = Ok (Ok <$> jobRows)
    ∧ triageQuery triageEnv keys = Ok (Ok <$> triageRows)
    ∧ ∀ t, t ∈ triages → linkedProperly t ≠ None.
Proof.
  apply (Load_completed_inputs triageEnv triagedRun triagedResult).
  vm_compute. reflexivity.
Defined.

Lemma Load_completes_witness :
  ∃ r', Load (sampleEnv true failingDelete [newTriage]) staleRun = Completed r'.
Proof.
  apply (Load_completes (sampleEnv true failingDelete [newTriage]) staleRun
           sampleTestCache sampleJobCache [newTriage] [testRow12345 true] [jobRow12345]).
  - reflexivity.
  - reflexivity.
  - reflexivity.
  - reflexivity.
  - reflexivity.
  - intros keys. by exists [].
  - intros t Ht. apply list_elem_of_singleton in Ht as ->. split.
    + eexists. vm_compute. reflexivity.
    + discriminate.
Defined.

Lemma Load_persists_bug_witness :
  r_bugs (completedRun (Load deleteFailsEnv staleRun) staleRun) !! 12345%Z
  = Some mergedBug12345.
Proof.
  apply (Load_persists_bug deleteFailsEnv staleRun _
           (fetchedTests (fetch deleteFailsEnv staleRun))
           (fetchedJobs (fetch deleteFailsEnv staleRun))
           (fetchedTriageBugs (fetch deleteFailsEnv staleRun))
           (fetchedTriages (fetch deleteFailsEnv staleRun))
           (fetchedRun (fetch deleteFailsEnv staleRun))).
  - vm_compute. reflexivity.
  - vm_compute. reflexivity.
  - vm_compute. reflexivity.
  - repeat split.
Defined.

Lemma Load_failed_statements_witness :
  r_bugs (completedRun (Load createFailsEnv staleRun) staleRun) !! 12345%Z
    = r_bugs staleRun !! 12345%Z
  ∧ r_bugs (completedRun (Load replaceTestsFailsEnv associatedRun) associatedRun) !! 12345%Z
    = Some (set_Jobs (set_Tests mergedBug12345 ["old-test"; "unit-test-foo"])
              ["old-job"; "periodic-job-x"]).
Proof.
  split.
  - apply (Load_failed_statements createFailsEnv staleRun _
             (fetchedTests (fetch createFailsEnv staleRun))
             (fetchedJobs (fetch createFailsEnv staleRun))
             (fetchedTriageBugs (fetch createFailsEnv staleRun))
             (fetchedTriages (fetch createFailsEnv staleRun))
             (fetchedRun (fetch createFailsEnv staleRun)) 12345%Z mergedBug12345).
    + vm_compute. reflexivity.
    + vm_compute. reflexivity.
    + vm_compute. reflexivity.
    + discriminate.
  - destruct (Load_failed_statements replaceTestsFailsEnv associatedRun
                (completedRun (Load replaceTestsFailsEnv associatedRun) associatedRun)
                (fetchedTests (fetch replaceTestsFailsEnv associatedRun))
                (fetchedJobs (fetch replaceTestsFailsEnv associatedRun))
                (fetchedTriageBugs (fetch replaceTestsFailsEnv associatedRun))
                (fetchedTriages (fetch replaceTestsFailsEnv associatedRun))
                (fetchedRun (fetch replaceTestsFailsEnv associatedRun))
                12345%Z mergedBug12345) as (_ & Hreplace & _).
    + vm_compute. reflexivity.
    + vm_compute. reflexivity.
    + vm_compute. reflexivity.
    + rewrite Hreplace; [vm_compute; reflexivity|reflexivity|discriminate].
Defined.

Lemma Load_mirrors_merged_set_witness :
  r_bugs (completedRun (Load resyncEnv staleRun) staleRun)
    = mergeBugs (fetchedTests (fetch resyncEnv staleRun))
        (fetchedJobs (fetch resyncEnv staleRun))
        (fetchedTriageBugs (fetch resyncEnv staleRun))
  ∧ r_bugs (completedRun (Load emptySourcesEnv staleRun) staleRun) = r_bugs staleRun.
Proof.
  split.
  - apply (Load_mirrors_merged_set resyncEnv staleRun _ _ _ _
             (fetchedTriages (fetch resyncEnv staleRun))
             (fetchedRun (fetch resyncEnv staleRun))).
    + vm_compute. reflexivity.
    + vm_compute. reflexivity.
    + intros k. repeat split.
    + reflexivity.
    + intros Hempty.
      apply (f_equal (fun m => bool_decide (is_Some (m !! 12345%Z)))) in Hempty.
      vm_compute in Hempty. discriminate Hempty.
  - apply (Load_mirrors_merged_set emptySourcesEnv staleRun _
             (fetchedTests (fetch emptySourcesEnv staleRun))
             (fetchedJobs (fetch emptySourcesEnv staleRun))
             (fetchedTriageBugs (fetch emptySourcesEnv staleRun))
             (fetchedTriages (fetch emptySourcesEnv staleRun))
             (fetchedRun (fetch emptySourcesEnv staleRun))).
    + vm_compute. reflexivity.
    + vm_compute. reflexivity.
    + intros k. repeat split.
    + reflexivity.
    + vm_compute. reflexivity.
Defined.

Lemma Load_records_failed_statements_witness :
  ErrNil ∈ errors (r_bl (completedRun (Load replaceTestsFailsEnv emptyRun) emptyRun)).
Proof.
  apply (Load_records_failed_statements replaceTestsFailsEnv emptyRun _
           (fetchedTests (fetch replaceTestsFailsEnv emptyRun))
           (fetchedJobs (fetch replaceTestsFailsEnv emptyRun))
           (fetchedTriageBugs (fetch replaceTestsFailsEnv emptyRun))
           (fetchedTriages (fetch replaceTestsFailsEnv emptyRun))
           (fetchedRun (fetch replaceTestsFailsEnv emptyRun)) 12345%Z mergedBug12345).
  - vm_compute. reflexivity.
  - vm_compute. reflexivity.
  - vm_compute. reflexivity.
  - reflexivity.
  - left. discriminate.
Defined.

Lemma Load_triage_rows_witness :
  r_triages triagedResult !! 2%Z = r_triages triagedRun !! 2%Z
  ∨ ∃ triages t bug (kb : Z),
      ListTriages triageEnv = Ok triages ∧ t ∈ triages ∧ t_ID t = 2%Z
      ∧ linkedProperly t = Some false
      ∧ r_bugs triagedResult !! kb = Some bug ∧ URL bug = t_URL t
      ∧ r_triages triagedResult !! 2%Z = Some (set_link t bug).
Proof.
  apply (Load_triage_rows triageEnv triagedRun triagedResult 2%Z).
  vm_compute. reflexivity.
Defined.

Lemma Load_linked_triages_untouched_witness :
  r_triages (completedRun (Load linkedEnv linkedRun) linkedRun) = r_triages linkedRun.
Proof.
  apply (Load_linked_triages_untouched linkedEnv linkedRun _ [linkedTriage]).
  - vm_compute. reflexivity.
  - reflexivity.
  - intros t Ht. apply list_elem_of_singleton in Ht as ->. vm_compute. reflexivity.
Defined.

Lemma mergeBugs_tickets_witness :
  is_Some (mergeBugs scenarioTests scenarioJobs scenarioTriages !! 67890%Z)
  ∧ mergeBugs scenarioTests ∅ scenarioTriages !! 12345%Z
    = Some (set_Tests (sampleBug 12345 "OCPBUGS-12345") ["unit-test-foo"])
  ∧ mergeBugs ∅ ∅ scenarioTriages !! 12345%Z = Some (sampleBug 12345 "OCPBUGS-12345").
Proof.
  assert (keyedByID scenarioJobs) as Hjobs by (unfold scenarioJobs; solve_keyed).
  assert (keyedByID scenarioTriages) as Htriages by (unfold scenarioTriages; solve_keyed).
  assert (keyedByID (∅ : gmap Z (Bug string string))) as Hempty by solve_keyed.
  split; [|split].
  - apply (proj1 (mergeBugs_tickets scenarioTests scenarioJobs scenarioTriages
                    Hjobs Htriages)).
    right. left. vm_compute. by eexists.
  - apply (proj1 (proj2 (mergeBugs_tickets scenarioTests ∅ scenarioTriages
                           Hempty Htriages))); reflexivity.
  - apply (proj2 (proj2 (mergeBugs_tickets ∅ ∅ scenarioTriages Hempty Htriages)));
      reflexivity.
Defined.

Lemma Load_range_order_witness :
  foldl mergeTriage (foldl mergeJob scenarioTests (reverse (rangeOver scenarioJobs)))
    (reverse (rangeOver scenarioTriages))
  = mergeBugs scenarioTests scenarioJobs scenarioTriages
  ∧ r_bugs (foldl (persistBug noFaults) emptyRun
              (reverse (rangeOver (mergeBugs scenarioTests scenarioJobs scenarioTriages))))
    = r_bugs (foldl (persistBug noFaults) emptyRun
                (rangeOver (mergeBugs scenarioTests scenarioJobs scenarioTriages))).
Proof.
  apply Load_range_order.
  - unfold scenarioTests. solve_keyed.
  - unfold scenarioJobs. solve_keyed.
  - unfold scenarioTriages. solve_keyed.
  - apply reverse_Permutation.
  - apply reverse_Permutation.
  - apply reverse_Permutation.
Defined.

Lemma getJobRun_path_witness :
  ∃ jobRunModel pre tail,
    sampleDbClient 42%Z = (jobRunModel, ErrNil)
    ∧ JobRuns.run_URL jobRunModel
      = pre +:+ JobRuns.marker "test-platform-results" +:+ tail
    ∧ JobRuns.Index (JobRuns.run_URL jobRunModel) (JobRuns.marker "test-platform-results")
      = Some (String.length pre)
    ∧ "logs/periodic-ci-e2e/42/"
      = (if JobRuns.HasSuffix tail "/" then tail else tail +:+ "/")
    ∧ JobRuns.HasSuffix "logs/periodic-ci-e2e/42/" "/" = true
    ∧ ({| JobRuns.jr_ID := "42"; JobRuns.jr_JobName := "periodic-ci-e2e";
          JobRuns.jr_URL :=
            "https://prow.ci.openshift.org/view/gs/test-platform-results/logs/periodic-ci-e2e/42";
          JobRuns.jr_ArtifactListTruncated := false;
          JobRuns.jr_Artifacts := [] |} : JobRuns.JobRun string)
      = {| JobRuns.jr_ID := FormatInt 42%Z;
           JobRuns.jr_JobName := JobRuns.ProwJob_Name jobRunModel;
           JobRuns.jr_URL := JobRuns.run_URL jobRunModel;
           JobRuns.jr_ArtifactListTruncated := false; JobRuns.jr_Artifacts := [] |}.
Proof.
  apply (getJobRun_path "test-platform-results" string sampleQuote sampleDbClient 42%Z).
  vm_compute. reflexivity.
Defined.

Lemma determineCapabilities_sound_witness :
  "local_db" ∈ SippyServer.capabilities sampleServe.1
  ∧ "build_cluster" ∉ SippyServer.capabilities sampleServe.1.
Proof.
  destruct (determineCapabilities_sound "openshift_releases" "component_readiness"
              "local_db" "build_cluster" unit (fun _ => (false, ErrNil)) sampleServer)
    as (_ & _ & Hdb & Hbc & _).
  - repeat constructor; rewrite ?elem_of_cons, ?elem_of_nil; intuition discriminate.
  - split.
    + apply Hdb. discriminate.
    + intros Hin. apply Hbc in Hin as (dbc & _ & Hdata). discriminate Hdata.
Defined.

Lemma Serve_registers_listed_witness :
  ("/api/health/build_cluster", SippyServer.NotImplemented) ∈ sampleServe.2
  ∧ healthEndpoint
    ∉ SippyServer.availableEndpoints sampleServe.1 [healthEndpoint; jobsEndpoint].
Proof.
  pose proof (Serve_registers_listed "openshift_releases" "component_readiness"
                "local_db" "build_cluster" unit (fun _ => (false, ErrNil)) string
                sampleServer [healthEndpoint; jobsEndpoint] healthEndpoint
                "jsonBuildClusterHealth" (list_elem_of_here _ _) eq_refl) as H.
  change (SippyServer.Serve _ _ _ _ _ _ _ _ _) with sampleServe in H.
  destruct sampleServe as [s' mux] eqn:Hserve.
  destruct H as (Hmux & Hlisted & _).
  assert (s' = sampleServe.1) as -> by (by rewrite Hserve).
  assert ((SippyServer.register sampleServe.1 healthEndpoint).2 = SippyServer.NotImplemented)
    as Hreg by (vm_compute; reflexivity).
  rewrite Hreg in Hmux. simpl. split; [exact Hmux|]. by apply Hlisted.
Defined.

Lemma isValidProwJobRun_cases_witness :
  SippyServer.isValidProwJobRun (fun i => 100 + i)
    (Some {| SippyServer.runAddr := 1; SippyServer.prowJobAddr := 2;
             SippyServer.ProwJob_Name := "" |})
  = (false, "missing ProwJob Name")
  ∧ (SippyServer.isValidProwJobRun (fun i => 100 + i)
       (Some {| SippyServer.runAddr := 1; SippyServer.prowJobAddr := 2;
                SippyServer.ProwJob_Name := "" |})).2 ≠ "empty ProwJob".
Proof.
  apply (isValidProwJobRun_cases (fun i => 100 + i)
           (Some {| SippyServer.runAddr := 1; SippyServer.prowJobAddr := 2;
                    SippyServer.ProwJob_Name := "" |})).
  intros r i [= <-]. simpl. lia.
Defined.

Lemma Validate_prevents_panics_witness :
  (∃ dashboards,
     Main.ToTestGridDashboardCoordinates sampleQuote serverOptions = inr dashboards
     ∧ length dashboards = length (Main.Dashboards serverOptions))
  ∧ (∃ vm, Main.getVariantManager serverOptions = inr vm
           ∧ (vm = Main.OpenshiftVariantManager
              ↔ Main.getServerMode serverOptions = SippyServer.ModeOpenShift)
           ∧ (Main.getSyntheticTestManager serverOptions
                = Main.OpenshiftSyntheticTestManager
              ↔ vm = Main.OpenshiftVariantManager)
           ∧ (Main.Mode serverOptions = [] → vm = Main.EmptyVariantManager)).
Proof.
  apply (Validate_prevents_panics sampleQuote serverOptions). vm_compute. reflexivity.
Defined.

Lemma Validate_exclusive_modes_witness :
  Main.DaemonServer serverOptions = Main.CommentProcessing serverOptions
  ∧ (Main.Mode serverOptions = [] ∨ Main.Mode serverOptions = ["ocp"]
     ∨ Main.Mode serverOptions = ["kube"] ∨ Main.Mode serverOptions = ["none"]).
Proof.
  destruct (Validate_exclusive_modes sampleQuote serverOptions)
    as (_ & Hdaemon & _ & _ & _ & Hmode).
  - vm_compute. reflexivity.
  - split; [exact Hdaemon|exact Hmode].
Defined.

Lemma Validate_accepts_witness :
  AutomateJira.IncludeComponents (AutomateJira.Validate ErrNil jiraFlags jiraVariants).1
    = {[ "" ]}
  ∧ is_Some (AutomateJira.ColumnThresholds
               (AutomateJira.Validate ErrNil jiraFlags jiraVariants).1
             !! ("Platform", "metal")).
Proof.
  destruct (Validate_accepts ErrNil jiraFlags
              (AutomateJira.Validate ErrNil jiraFlags jiraVariants).1 jiraVariants)
    as (_ & _ & _ & _ & _ & Hempty & Hall & _).
  - vm_compute. reflexivity.
  - split; [by apply Hempty|].
    destruct (Hall "Platform:metal:3") as (name & value & text & n & vs & Hsplit & _ & _ & _ & Hsome).
    + left.
    + vm_compute in Hsplit. injection Hsplit as <- <- <-. exact Hsome.
Defined.

Lemma runServerMode_variant_errors_witness :
  (ComponentReadiness.RunE variantsFailEnv).1 = ComponentReadiness.Returned ErrNil
  ∧ Log LError "googleapi: Error 403: Access Denied" ""
    ∈ (ComponentReadiness.runServerMode variantsFailEnv).2.
Proof.
  destruct (runServerMode_variant_errors variantsFailEnv)
    as (_ & Hrun & Hlog); try reflexivity; try discriminate.
  split; [by apply Hrun|].
  apply (Hlog (Err "googleapi: Error 403: Access Denied")). left.
Defined.

End ConcreteExtras.
